(** * SilentLink session core: crypto framing, file transfer, signaling

    A shallow embedding of the session core of the SilentLink client
    (crypto.ts, App.tsx, components/Setup.tsx, components/Room.tsx) and the
    properties its specification states about it.

    Conventions.
    - A JavaScript string is the list of its UTF-16 code units, each a [Z].
    - A [Uint8Array] / [ArrayBuffer] is a list of [Z] in [0, 256).
    - Platform functions the source calls ([btoa], [atob], [TextEncoder],
      [TextDecoder], [String.fromCharCode]) are written out after the WHATWG
      and ECMAScript algorithms; AES-GCM and the random source are an
      interface ([WebCrypto]) with the laws the source relies on.
    - The rendezvous store is a finite map from room identifier to row;
      an asynchronous procedure is a tree of its awaited calls ([task]),
      run to its end or step by step on the event loop of a client.
    - [String.prototype.toUpperCase] is an interface ([StringCase]) fixed
      on Basic Latin strings. *)

From stdpp Require Import base list gmap strings pretty.
From Stdlib Require Import ZArith Lia.

Local Open Scope Z_scope.

(** Linear arithmetic with division and remainder by constants. *)
Ltac dlia := Z.to_euclidean_division_equations; lia.

(** Decide every boolean comparison of the goal by arithmetic. *)
Ltac ztests :=
  repeat match goal with
    | |- context [?a <? ?b] => destruct (Z.ltb_spec a b); try dlia
    | |- context [?a <=? ?b] => destruct (Z.leb_spec a b); try dlia
    | |- context [?a =? ?b] => destruct (Z.eqb_spec a b); try dlia
    end.

(** ** Bit operations as arithmetic *)

Module Bits.

Lemma lor_shiftl_low a b n :
  0 <= n -> 0 <= b < 2 ^ n -> Z.lor (Z.shiftl a n) b = a * 2 ^ n + b.
Proof.
  intros Hn Hb. rewrite <- Z.shiftl_mul_pow2 by lia.
  rewrite <- (Z.add_lor_land (Z.shiftl a n) b).
  assert (Z.land (Z.shiftl a n) b = 0) as ->; [|lia].
  apply Z.bits_inj'. intros k Hk. rewrite Z.land_spec, Z.bits_0.
  destruct (Z.lt_ge_cases k n).
  - rewrite Z.shiftl_spec_low by lia. reflexivity.
  - destruct (Z.eq_dec b 0) as [->|].
    { rewrite Z.bits_0. apply andb_false_r. }
    rewrite (Z.bits_above_log2 b k); [apply andb_false_r|lia|].
    apply Z.log2_lt_pow2; try lia.
    eapply Z.lt_le_trans; [apply Hb|]. apply Z.pow_le_mono_r; lia.
Qed.

(** [hi | lo] when [hi] is a multiple of [2^n] and [lo] fits in [n] bits. *)
Lemma lor_disjoint hi lo n :
  0 <= n -> hi mod 2 ^ n = 0 -> 0 <= lo < 2 ^ n -> Z.lor hi lo = hi + lo.
Proof.
  intros Hn Hhi Hlo.
  assert (0 < 2 ^ n) by (apply Z.pow_pos_nonneg; lia).
  assert (hi = Z.shiftl (hi / 2 ^ n) n) as Heq.
  { rewrite Z.shiftl_mul_pow2 by lia.
    pose proof (Z.div_mod hi (2 ^ n)). lia. }
  rewrite Heq at 1. rewrite lor_shiftl_low by lia.
  pose proof (Z.div_mod hi (2 ^ n)). lia.
Qed.

Lemma land_low a n : 0 <= n -> Z.land a (2 ^ n - 1) = a mod 2 ^ n.
Proof.
  intros Hn. rewrite <- Z.land_ones by lia. f_equal.
  rewrite Z.ones_equiv. lia.
Qed.

Lemma land_3 a : Z.land a 3 = a mod 4.
Proof. exact (land_low a 2 ltac:(lia)). Qed.
Lemma land_7 a : Z.land a 7 = a mod 8.
Proof. exact (land_low a 3 ltac:(lia)). Qed.
Lemma land_15 a : Z.land a 15 = a mod 16.
Proof. exact (land_low a 4 ltac:(lia)). Qed.
Lemma land_31 a : Z.land a 31 = a mod 32.
Proof. exact (land_low a 5 ltac:(lia)). Qed.
Lemma land_63 a : Z.land a 63 = a mod 64.
Proof. exact (land_low a 6 ltac:(lia)). Qed.
Lemma land_255 a : Z.land a 255 = a mod 256.
Proof. exact (land_low a 8 ltac:(lia)). Qed.

Lemma shr a n : 0 <= n -> Z.shiftr a n = a / 2 ^ n.
Proof. apply Z.shiftr_div_pow2. Qed.

Lemma shl a n : 0 <= n -> Z.shiftl a n = a * 2 ^ n.
Proof. apply Z.shiftl_mul_pow2. Qed.

End Bits.

(** Rewrite shifts and masks by constants into division and remainder. *)
Ltac bits_to_arith :=
  rewrite ?Bits.land_3, ?Bits.land_7, ?Bits.land_15, ?Bits.land_31,
    ?Bits.land_63, ?Bits.land_255;
  rewrite ?Bits.shr, ?Bits.shl by lia;
  change (2 ^ 0) with 1; change (2 ^ 2) with 4; change (2 ^ 4) with 16;
  change (2 ^ 6) with 64; change (2 ^ 8) with 256; change (2 ^ 10) with 1024;
  change (2 ^ 12) with 4096; change (2 ^ 16) with 65536;
  change (2 ^ 18) with 262144.

(** ** Platform encodings: Base64, UTF-16, UTF-8 *)

Module Encoding.

Definition is_byte (b : Z) : Prop := 0 <= b < 256.

(** A [Uint8Array]: every element an octet. *)
Definition octets (bs : list Z) : Prop := Forall is_byte bs.

(** *** Base64 ([btoa], [atob]) *)

(** The Base64 alphabet, RFC 4648 table 1. *)
Definition b64_char (i : Z) : Z :=
  if i <? 26 then 65 + i
  else if i <? 52 then 97 + (i - 26)
  else if i <? 62 then 48 + (i - 52)
  else if i =? 62 then 43
  else 47.

Definition b64_index (c : Z) : option Z :=
  if (65 <=? c) && (c <=? 90) then Some (c - 65)
  else if (97 <=? c) && (c <=? 122) then Some (c - 97 + 26)
  else if (48 <=? c) && (c <=? 57) then Some (c - 48 + 52)
  else if c =? 43 then Some 62
  else if c =? 47 then Some 63
  else None.

(** Six-bit groups of an octet sequence; a final group is zero-filled. *)
Fixpoint b64_sextets (bs : list Z) : list Z :=
  match bs with
  | a :: b :: c :: rest =>
      Z.shiftr a 2
      :: Z.lor (Z.shiftl (Z.land a 3) 4) (Z.shiftr b 4)
      :: Z.lor (Z.shiftl (Z.land b 15) 2) (Z.shiftr c 6)
      :: Z.land c 63
      :: b64_sextets rest
  | [a; b] =>
      [Z.shiftr a 2;
       Z.lor (Z.shiftl (Z.land a 3) 4) (Z.shiftr b 4);
       Z.shiftl (Z.land b 15) 2]
  | [a] => [Z.shiftr a 2; Z.shiftl (Z.land a 3) 4]
  | [] => []
  end.

(** ['='] padding up to a multiple of four characters. *)
Fixpoint b64_padding (bs : list Z) : list Z :=
  match bs with
  | _ :: _ :: _ :: rest => b64_padding rest
  | [_; _] => [61]
  | [_] => [61; 61]
  | [] => []
  end.

Definition b64_encode (bs : list Z) : list Z :=
  map b64_char (b64_sextets bs) ++ b64_padding bs.

(** [btoa(s)]: throws [InvalidCharacterError] (here [None]) when a code
    unit exceeds U+00FF. *)
Definition btoa (s : list Z) : option (list Z) :=
  if forallb (fun c => c <=? 255) s then Some (b64_encode s) else None.

Definition is_ascii_whitespace (c : Z) : bool :=
  (c =? 9) || (c =? 10) || (c =? 12) || (c =? 13) || (c =? 32).

(** Forgiving-base64 decode, step 2: drop one or two trailing ['=']. *)
Definition strip_padding (d : list Z) : list Z :=
  match rev d with
  | c1 :: r =>
      if c1 =? 61 then
        match r with
        | c2 :: r' => if c2 =? 61 then rev r' else rev r
        | [] => rev r
        end
      else d
  | [] => d
  end.

(** Octets of a sequence of six-bit groups: 24 bits give three octets, a
    remainder of 18 bits two, a remainder of 12 bits one. *)
Fixpoint b64_octets (ss : list Z) : list Z :=
  match ss with
  | s0 :: s1 :: s2 :: s3 :: rest =>
      let n := Z.lor (Z.shiftl (Z.lor (Z.shiftl (Z.lor (Z.shiftl s0 6) s1) 6) s2) 6) s3 in
      Z.land (Z.shiftr n 16) 255 :: Z.land (Z.shiftr n 8) 255 :: Z.land n 255
      :: b64_octets rest
  | [s0; s1; s2] =>
      let n := Z.shiftr (Z.lor (Z.shiftl (Z.lor (Z.shiftl s0 6) s1) 6) s2) 2 in
      [Z.land (Z.shiftr n 8) 255; Z.land n 255]
  | [s0; s1] =>
      let n := Z.shiftr (Z.lor (Z.shiftl s0 6) s1) 4 in
      [Z.land n 255]
  | _ => []
  end.

(** [atob(data)], the forgiving-base64 decode of the HTML standard; a
    thrown [InvalidCharacterError] is [None]. *)
Definition atob (data : list Z) : option (list Z) :=
  let d := List.filter (fun c => negb (is_ascii_whitespace c)) data in
  let d := if Z.of_nat (length d) mod 4 =? 0 then strip_padding d else d in
  if Z.of_nat (length d) mod 4 =? 1 then None
  else ss ← mapM b64_index d; Some (b64_octets ss).

(** [String.fromCharCode(...codes)]: each argument taken modulo 2^16. *)
Definition fromCharCode (codes : list Z) : list Z :=
  map (fun c => c mod 65536) codes.

(** [s.split('').map(c => c.charCodeAt(0))]: the code units of [s]. *)
Definition charCodes (s : list Z) : list Z := s.

(** [new Uint8Array(numbers)]: each element taken modulo 2^8. *)
Definition Uint8Array_from (l : list Z) : list Z :=
  map (fun x => x mod 256) l.

Example btoa_Man : btoa [77; 97; 110] = Some [84; 87; 70; 117].
Proof. reflexivity. Qed.
Example btoa_Ma : btoa [77; 97] = Some [84; 87; 69; 61].
Proof. reflexivity. Qed.
Example atob_TQ : atob [84; 81; 61; 61] = Some [77].
Proof. reflexivity. Qed.
Example atob_spaces : atob [84; 32; 87; 10; 69; 61] = Some [77; 97].
Proof. reflexivity. Qed.
Example atob_bad_length : atob [84] = None.
Proof. reflexivity. Qed.

(** *** UTF-16: strings as scalar values *)

Definition is_lead_surrogate (u : Z) : bool := (0xD800 <=? u) && (u <=? 0xDBFF).
Definition is_trail_surrogate (u : Z) : bool := (0xDC00 <=? u) && (u <=? 0xDFFF).

(** A Unicode scalar value: a code point that is not a surrogate. *)
Definition is_scalar (c : Z) : Prop :=
  0 <= c <= 0x10FFFF /\ ~ (0xD800 <= c <= 0xDFFF).

(** The code points of a string, an unpaired surrogate replaced by U+FFFD
    (the conversion of a string to a [USVString], which [TextEncoder.encode]
    applies to its argument). *)
Fixpoint to_scalar_values (s : list Z) : list Z :=
  match s with
  | [] => []
  | u :: rest =>
      if is_lead_surrogate u then
        match rest with
        | v :: rest' =>
            if is_trail_surrogate v
            then (0x10000 + (u - 0xD800) * 0x400 + (v - 0xDC00)) :: to_scalar_values rest'
            else 0xFFFD :: to_scalar_values rest
        | [] => [0xFFFD]
        end
      else if is_trail_surrogate u then 0xFFFD :: to_scalar_values rest
      else u :: to_scalar_values rest
  end.

(** ECMAScript [UTF16EncodeCodePoint]. *)
Definition code_units (c : Z) : list Z :=
  if c <=? 0xFFFF then [c]
  else [(c - 0x10000) / 0x400 + 0xD800; (c - 0x10000) mod 0x400 + 0xDC00].

Definition of_scalar_values (cps : list Z) : list Z :=
  flat_map code_units cps.

(** A well-formed string: 16-bit code units, every surrogate paired. This
    is what the specification calls a UTF-8 string. *)
Fixpoint well_formed (s : list Z) : Prop :=
  match s with
  | [] => True
  | u :: rest =>
      0 <= u < 65536 /\
      if is_lead_surrogate u then
        match rest with
        | v :: rest' => is_trail_surrogate v = true /\ well_formed rest'
        | [] => False
        end
      else is_trail_surrogate u = false /\ well_formed rest
  end.

(** *** UTF-8 (the encoder and decoder of the Encoding standard) *)

Fixpoint utf8_continuation (count : nat) (c : Z) : list Z :=
  match count with
  | O => []
  | S k => Z.lor 0x80 (Z.land (Z.shiftr c (6 * Z.of_nat k)) 0x3F)
           :: utf8_continuation k c
  end.

Definition utf8_encode_scalar (c : Z) : list Z :=
  if c <=? 0x7F then [c]
  else
    let '(count, offset) :=
      if c <=? 0x7FF then (1%nat, 0xC0)
      else if c <=? 0xFFFF then (2%nat, 0xE0)
      else (3%nat, 0xF0) in
    (Z.shiftr c (6 * Z.of_nat count) + offset) :: utf8_continuation count c.

Definition utf8_encode (cps : list Z) : list Z :=
  flat_map utf8_encode_scalar cps.

(** The state of the UTF-8 decoder. *)
Record utf8_state := Utf8State {
  code_point : Z;
  bytes_seen : Z;
  bytes_needed : Z;
  lower_boundary : Z;
  upper_boundary : Z
}.

Definition utf8_initial : utf8_state := Utf8State 0 0 0 0x80 0xBF.

(** Decoder step 3: a byte read while no sequence is open. *)
Definition utf8_lead (b : Z) : utf8_state * list Z :=
  if (0x00 <=? b) && (b <=? 0x7F) then (utf8_initial, [b])
  else if (0xC2 <=? b) && (b <=? 0xDF) then
    (Utf8State (Z.land b 0x1F) 0 1 0x80 0xBF, [])
  else if (0xE0 <=? b) && (b <=? 0xEF) then
    (Utf8State (Z.land b 0xF) 0 2
       (if b =? 0xE0 then 0xA0 else 0x80) (if b =? 0xED then 0x9F else 0xBF), [])
  else if (0xF0 <=? b) && (b <=? 0xF4) then
    (Utf8State (Z.land b 0x7) 0 3
       (if b =? 0xF0 then 0x90 else 0x80) (if b =? 0xF4 then 0x8F else 0xBF), [])
  else (utf8_initial, [0xFFFD]).

(** One byte through the decoder; an error emits U+FFFD, and a byte that
    breaks an open sequence is restored and read again from the initial
    state. *)
Definition utf8_step (st : utf8_state) (b : Z) : utf8_state * list Z :=
  if bytes_needed st =? 0 then utf8_lead b
  else if (b <? lower_boundary st) || (upper_boundary st <? b) then
    let '(st', out) := utf8_lead b in (st', 0xFFFD :: out)
  else
    let cp := Z.lor (Z.shiftl (code_point st) 6) (Z.land b 0x3F) in
    let seen := bytes_seen st + 1 in
    if seen =? bytes_needed st then (utf8_initial, [cp])
    else (Utf8State cp seen (bytes_needed st) 0x80 0xBF, []).

Fixpoint utf8_run (st : utf8_state) (bs : list Z) : list Z :=
  match bs with
  | [] => if bytes_needed st =? 0 then [] else [0xFFFD]
  | b :: rest => let '(st', out) := utf8_step st b in out ++ utf8_run st' rest
  end.

Definition utf8_decode (bs : list Z) : list Z := utf8_run utf8_initial bs.

(** [new TextEncoder().encode(s)]. *)
Definition TextEncoder_encode (s : list Z) : list Z :=
  utf8_encode (to_scalar_values s).

(** Serialisation of the decoder's output with [ignoreBOM] false, the
    default: a first scalar value U+FEFF is not part of the result. *)
Definition skip_bom (cps : list Z) : list Z :=
  match cps with
  | c :: rest => if c =? 0xFEFF then rest else cps
  | [] => []
  end.

(** [new TextDecoder().decode(bytes)]: UTF-8, replacement error mode,
    [ignoreBOM] false. *)
Definition TextDecoder_decode (bs : list Z) : list Z :=
  of_scalar_values (skip_bom (utf8_decode bs)).

(** "hé€😀" and its UTF-8 form. *)
Example encode_sample :
  TextEncoder_encode [0x68; 0xE9; 0x20AC; 0xD83D; 0xDE00]
  = [0x68; 0xC3; 0xA9; 0xE2; 0x82; 0xAC; 0xF0; 0x9F; 0x98; 0x80].
Proof. reflexivity. Qed.
Example decode_sample :
  TextDecoder_decode [0x68; 0xC3; 0xA9; 0xE2; 0x82; 0xAC; 0xF0; 0x9F; 0x98; 0x80]
  = [0x68; 0xE9; 0x20AC; 0xD83D; 0xDE00].
Proof. reflexivity. Qed.
Example decode_overlong : TextDecoder_decode [0xC0; 0x80] = [0xFFFD; 0xFFFD].
Proof. reflexivity. Qed.
Example decode_truncated : TextDecoder_decode [0xE2; 0x82] = [0xFFFD].
Proof. reflexivity. Qed.
Example decode_restored : TextDecoder_decode [0xE2; 0x41] = [0xFFFD; 0x41].
Proof. reflexivity. Qed.
Example decode_bom : TextDecoder_decode [0xEF; 0xBB; 0xBF; 0x41] = [0x41].
Proof. reflexivity. Qed.

(** *** Base64 round trip *)

Lemma list_ind3 {A} (P : list A -> Prop) :
  P [] -> (forall a, P [a]) -> (forall a b, P [a; b]) ->
  (forall a b c rest, P rest -> P (a :: b :: c :: rest)) ->
  forall l, P l.
Proof.
  intros H0 H1 H2 H3 l.
  enough (P l /\ (forall a, P (a :: l)) /\ (forall a b, P (a :: b :: l))) by tauto.
  induction l as [|x l (IH0 & IH1 & IH2)]; [by auto|].
  split; [apply IH1|]. split; [intros; apply IH2|]. intros a b. by apply H3.
Qed.

Lemma b64_index_char i : 0 <= i < 64 -> b64_index (b64_char i) = Some i.
Proof.
  intros Hi. unfold b64_index, b64_char.
  ztests; simpl; ztests; simpl; f_equal; lia.
Qed.

Definition is_sextet (s : Z) : Prop := 0 <= s < 64.

Lemma b64_char_not_eq i : is_sextet i -> b64_char i <> 61.
Proof. unfold is_sextet, b64_char. intros Hi. ztests. Qed.

Lemma b64_char_not_space i :
  is_sextet i -> is_ascii_whitespace (b64_char i) = false.
Proof.
  unfold is_sextet, b64_char. intros Hi.
  ztests; unfold is_ascii_whitespace; ztests; done.
Qed.

Lemma sextet_hi a : is_byte a -> Z.shiftr a 2 = a / 4 /\ is_sextet (a / 4).
Proof. unfold is_byte, is_sextet. intros. bits_to_arith. dlia. Qed.

Lemma join_4 a b :
  is_byte a -> is_byte b ->
  Z.lor (Z.shiftl (Z.land a 3) 4) (Z.shiftr b 4) = a mod 4 * 16 + b / 16.
Proof.
  unfold is_byte. intros. bits_to_arith.
  rewrite Bits.lor_disjoint with (n := 4); dlia.
Qed.

Lemma join_2 b c :
  is_byte b -> is_byte c ->
  Z.lor (Z.shiftl (Z.land b 15) 2) (Z.shiftr c 6) = b mod 16 * 4 + c / 64.
Proof.
  unfold is_byte. intros. bits_to_arith.
  rewrite Bits.lor_disjoint with (n := 2); dlia.
Qed.

Lemma b64_sextets_range bs : octets bs -> Forall is_sextet (b64_sextets bs).
Proof.
  unfold octets. induction bs as [|a|a b|a b c rest IH] using list_ind3; intros H.
  - constructor.
  - inversion_clear H. simpl. bits_to_arith. unfold is_byte, is_sextet in *.
    repeat constructor; dlia.
  - inversion_clear H as [|? ? Ha H']. inversion_clear H' as [|? ? Hb _].
    simpl. rewrite join_4 by done. bits_to_arith. unfold is_byte, is_sextet in *.
    repeat constructor; dlia.
  - inversion_clear H as [|? ? Ha H']. inversion_clear H' as [|? ? Hb H''].
    inversion_clear H'' as [|? ? Hc Hr].
    simpl. rewrite join_4, join_2 by done. bits_to_arith.
    unfold is_byte, is_sextet in *.
    repeat (constructor; [dlia|]). by apply IH.
Qed.

Lemma b64_octets_sextets bs : octets bs -> b64_octets (b64_sextets bs) = bs.
Proof.
  unfold octets. induction bs as [|a|a b|a b c rest IH] using list_ind3; intros H.
  - reflexivity.
  - inversion_clear H as [|? ? Ha _]. unfold is_byte in Ha. simpl.
    bits_to_arith. rewrite Bits.lor_disjoint with (n := 6) by dlia.
    f_equal. dlia.
  - inversion_clear H as [|? ? Ha H']. inversion_clear H' as [|? ? Hb _].
    simpl. rewrite join_4 by done. unfold is_byte in *. bits_to_arith.
    rewrite (Bits.lor_disjoint _ _ 6) by dlia.
    rewrite (Bits.lor_disjoint _ _ 6) by dlia.
    f_equal; [dlia|]. f_equal. dlia.
  - inversion_clear H as [|? ? Ha H']. inversion_clear H' as [|? ? Hb H''].
    inversion_clear H'' as [|? ? Hc Hr].
    simpl. rewrite join_4, join_2 by done. rewrite IH by done.
    unfold is_byte in *. bits_to_arith.
    rewrite !(Bits.lor_disjoint _ _ 6) by dlia.
    f_equal; [dlia|]. f_equal; [dlia|]. f_equal. dlia.
Qed.

Lemma b64_shape bs :
  let len := Z.of_nat (length (b64_sextets bs)) in
  (b64_padding bs = [] /\ len mod 4 = 0) \/
  (b64_padding bs = [61] /\ len mod 4 = 3) \/
  (b64_padding bs = [61; 61] /\ len mod 4 = 2).
Proof.
  induction bs as [|a|a b|a b c rest IH] using list_ind3; simpl; try tauto.
  simpl in IH.
  replace (Z.of_nat (S (S (S (S (length (b64_sextets rest))))))) with
    (Z.of_nat (length (b64_sextets rest)) + 4) by lia.
  destruct IH as [[-> ?] | [[-> ?] | [-> ?]]]; [left|right; left|right; right];
    (split; [done|dlia]).
Qed.

Lemma strip_padding_encode body pad :
  Forall (fun c => c <> 61) body ->
  pad = [] \/ pad = [61] \/ pad = [61; 61] ->
  strip_padding (body ++ pad) = body.
Proof.
  intros Hbody Hpad. unfold strip_padding. rewrite rev_app_distr.
  assert (match rev body with
          | c :: _ => (c =? 61) = false
          | [] => True
          end) as Hlast.
  { destruct (rev body) as [|c r] eqn:E; [done|].
    apply Z.eqb_neq. rewrite Forall_forall in Hbody. apply Hbody.
    apply list_elem_of_In, in_rev. rewrite E. left. done. }
  destruct Hpad as [-> | [-> | ->]]; simpl.
  - destruct (rev body) as [|c r] eqn:E; simpl.
    + by rewrite app_nil_r.
    + rewrite Hlast. by rewrite app_nil_r.
  - destruct (rev body) as [|c r] eqn:E.
    + by rewrite <- (rev_involutive body), E.
    + rewrite Hlast. rewrite <- E. apply rev_involutive.
  - apply rev_involutive.
Qed.

Lemma mapM_b64_index ss :
  Forall is_sextet ss -> mapM b64_index (map b64_char ss) = Some ss.
Proof.
  induction 1 as [|s ss Hs _ IH]; [done|].
  simpl. rewrite b64_index_char by done. simpl. rewrite IH. done.
Qed.

Lemma filter_id {A} (f : A -> bool) l :
  Forall (fun x => f x = true) l -> List.filter f l = l.
Proof. induction 1 as [|x l Hx _ IH]; simpl; [done|]. by rewrite Hx, IH. Qed.

(** Decoding inverts encoding on octet sequences. *)
Lemma atob_b64_encode bs : octets bs -> atob (b64_encode bs) = Some bs.
Proof.
  intros Hbs. unfold atob, b64_encode.
  pose proof (b64_sextets_range bs Hbs) as Hss.
  pose proof (b64_shape bs) as Hshape. simpl in Hshape.
  set (body := map b64_char (b64_sextets bs)) in *.
  assert (Forall (fun c => c <> 61) body) as Hne.
  { subst body. apply Forall_fmap. eapply Forall_impl; [exact Hss|].
    intros s Hs. simpl. by apply b64_char_not_eq. }
  assert (Z.of_nat (length body) = Z.of_nat (length (b64_sextets bs))) as Hlen.
  { subst body. by rewrite length_map. }
  rewrite filter_id; cycle 1.
  { apply Forall_app. split.
    - subst body. apply Forall_fmap. eapply Forall_impl; [exact Hss|].
      intros s Hs. simpl. by rewrite b64_char_not_space.
    - destruct Hshape as [[-> _] | [[-> _] | [-> _]]]; repeat constructor. }
  assert (Z.of_nat (length (body ++ b64_padding bs)) mod 4 = 0) as Hfour.
  { rewrite length_app, Nat2Z.inj_add, Hlen.
    destruct Hshape as [[-> ?] | [[-> ?] | [-> ?]]]; simpl; dlia. }
  rewrite Hfour. simpl.
  rewrite strip_padding_encode; [|done|]; cycle 1.
  { destruct Hshape as [[-> _] | [[-> _] | [-> _]]]; tauto. }
  assert ((Z.of_nat (length body) mod 4 =? 1) = false) as ->.
  { apply Z.eqb_neq. rewrite Hlen. destruct Hshape as [[_ ?] | [[_ ?] | [_ ?]]]; lia. }
  subst body. rewrite mapM_b64_index by done. simpl.
  by rewrite b64_octets_sextets.
Qed.

Lemma octets_le_255 bs : octets bs -> forallb (fun c => c <=? 255) bs = true.
Proof.
  induction 1 as [|b bs Hb _ IH]; [done|]. simpl. rewrite IH.
  unfold is_byte in Hb. ztests; done.
Qed.

Lemma fromCharCode_octets bs : octets bs -> fromCharCode bs = bs.
Proof.
  induction 1 as [|b bs Hb _ IH]; [done|]. simpl. rewrite IH.
  unfold is_byte in Hb. f_equal. dlia.
Qed.

Lemma Uint8Array_from_octets bs : octets bs -> Uint8Array_from bs = bs.
Proof.
  induction 1 as [|b bs Hb _ IH]; [done|]. simpl. rewrite IH.
  unfold is_byte in Hb. f_equal. dlia.
Qed.

(** The transport encoding of the source: [btoa(String.fromCharCode(...bs))]
    read back by [new Uint8Array(atob(s).split('').map(c => c.charCodeAt(0)))]. *)
Lemma base64_round_trip bs :
  octets bs ->
  (s ← btoa (fromCharCode bs); Uint8Array_from <$> (charCodes <$> atob s)) = Some bs.
Proof.
  intros Hbs. rewrite fromCharCode_octets by done. unfold btoa.
  rewrite octets_le_255 by done. simpl. rewrite atob_b64_encode by done.
  simpl. unfold charCodes. by rewrite Uint8Array_from_octets.
Qed.

(** *** UTF-8 and UTF-16 round trips *)

Lemma utf8_encode_1 c : 0 <= c <= 0x7F -> utf8_encode_scalar c = [c].
Proof. intros. unfold utf8_encode_scalar. ztests; done. Qed.

Lemma utf8_encode_2 c :
  0x80 <= c <= 0x7FF -> utf8_encode_scalar c = [c / 64 + 192; 128 + c mod 64].
Proof.
  intros. unfold utf8_encode_scalar. ztests. cbn [utf8_continuation].
  change (6 * Z.of_nat 1) with 6. change (6 * Z.of_nat 0) with 0.
  bits_to_arith. rewrite (Bits.lor_disjoint _ _ 6) by dlia.
  repeat f_equal; dlia.
Qed.

Lemma utf8_encode_3 c :
  0x800 <= c <= 0xFFFF ->
  utf8_encode_scalar c = [c / 4096 + 224; 128 + c / 64 mod 64; 128 + c mod 64].
Proof.
  intros. unfold utf8_encode_scalar. ztests. cbn [utf8_continuation].
  change (6 * Z.of_nat 2) with 12. change (6 * Z.of_nat 1) with 6.
  change (6 * Z.of_nat 0) with 0.
  bits_to_arith. rewrite !(Bits.lor_disjoint _ _ 6) by dlia.
  repeat f_equal; dlia.
Qed.

Lemma utf8_encode_4 c :
  0x10000 <= c <= 0x10FFFF ->
  utf8_encode_scalar c
  = [c / 262144 + 240; 128 + c / 4096 mod 64; 128 + c / 64 mod 64; 128 + c mod 64].
Proof.
  intros. unfold utf8_encode_scalar. ztests. cbn [utf8_continuation].
  change (6 * Z.of_nat 3) with 18.
  change (6 * Z.of_nat 2) with 12. change (6 * Z.of_nat 1) with 6.
  change (6 * Z.of_nat 0) with 0.
  bits_to_arith. rewrite !(Bits.lor_disjoint _ _ 6) by dlia.
  repeat f_equal; dlia.
Qed.

Lemma utf8_lead_2 b :
  0xC2 <= b <= 0xDF -> utf8_lead b = (Utf8State (b - 192) 0 1 0x80 0xBF, []).
Proof.
  intros. unfold utf8_lead. ztests. cbn [andb]. change 0x1F with 31.
  bits_to_arith. repeat f_equal. dlia.
Qed.

Lemma utf8_lead_3 b :
  0xE0 <= b <= 0xEF ->
  utf8_lead b = (Utf8State (b - 224) 0 2 (if b =? 0xE0 then 0xA0 else 0x80)
                   (if b =? 0xED then 0x9F else 0xBF), []).
Proof.
  intros. unfold utf8_lead.
  destruct (Z.leb_spec 0 b); [|lia]. destruct (Z.leb_spec b 0x7F); [lia|].
  destruct (Z.leb_spec 0xC2 b); [|lia]. destruct (Z.leb_spec b 0xDF); [lia|].
  destruct (Z.leb_spec 0xE0 b); [|lia]. destruct (Z.leb_spec b 0xEF); [|lia].
  cbn [andb]. change 0xF with 15. bits_to_arith. repeat f_equal. dlia.
Qed.

Lemma utf8_lead_4 b :
  0xF0 <= b <= 0xF4 ->
  utf8_lead b = (Utf8State (b - 240) 0 3 (if b =? 0xF0 then 0x90 else 0x80)
                   (if b =? 0xF4 then 0x8F else 0xBF), []).
Proof.
  intros. unfold utf8_lead.
  destruct (Z.leb_spec 0 b); [|lia]. destruct (Z.leb_spec b 0x7F); [lia|].
  destruct (Z.leb_spec 0xC2 b); [|lia]. destruct (Z.leb_spec b 0xDF); [lia|].
  destruct (Z.leb_spec 0xE0 b); [|lia]. destruct (Z.leb_spec b 0xEF); [lia|].
  destruct (Z.leb_spec 0xF0 b); [|lia]. destruct (Z.leb_spec b 0xF4); [|lia].
  cbn [andb]. change 0x7 with 7. bits_to_arith. repeat f_equal. dlia.
Qed.

(** A continuation byte inside the current boundaries extends the code
    point by six bits. *)
Lemma utf8_step_more cp seen needed lo hi b :
  needed <> 0 -> seen + 1 <> needed ->
  lo <= b <= hi -> 0x80 <= b <= 0xBF -> 0 <= cp ->
  utf8_step (Utf8State cp seen needed lo hi) b
  = (Utf8State (cp * 64 + (b - 128)) (seen + 1) needed 0x80 0xBF, []).
Proof.
  intros Hn Hs Hb Hc Hcp. unfold utf8_step.
  cbn [bytes_needed bytes_seen code_point lower_boundary upper_boundary].
  destruct (Z.eqb_spec needed 0); [done|].
  destruct (Z.ltb_spec b lo); [lia|]. destruct (Z.ltb_spec hi b); [lia|].
  destruct (Z.eqb_spec (seen + 1) needed); [done|]. cbn [orb].
  change 0x3F with 63. bits_to_arith.
  rewrite (Bits.lor_disjoint _ _ 6) by dlia.
  replace (b mod 64) with (b - 128) by dlia. done.
Qed.

Lemma utf8_step_last cp seen needed lo hi b :
  needed <> 0 -> seen + 1 = needed ->
  lo <= b <= hi -> 0x80 <= b <= 0xBF -> 0 <= cp ->
  utf8_step (Utf8State cp seen needed lo hi) b
  = (utf8_initial, [cp * 64 + (b - 128)]).
Proof.
  intros Hn Hs Hb Hc Hcp. unfold utf8_step.
  cbn [bytes_needed bytes_seen code_point lower_boundary upper_boundary].
  destruct (Z.eqb_spec needed 0); [done|].
  destruct (Z.ltb_spec b lo); [lia|]. destruct (Z.ltb_spec hi b); [lia|].
  destruct (Z.eqb_spec (seen + 1) needed); [|done]. cbn [orb].
  change 0x3F with 63. bits_to_arith.
  rewrite (Bits.lor_disjoint _ _ 6) by dlia.
  replace (b mod 64) with (b - 128) by dlia. done.
Qed.

Lemma utf8_step_initial b : utf8_step utf8_initial b = utf8_lead b.
Proof. reflexivity. Qed.

Lemma utf8_run_scalar c rest :
  is_scalar c ->
  utf8_run utf8_initial (utf8_encode_scalar c ++ rest)
  = c :: utf8_run utf8_initial rest.
Proof.
  intros [Hc Hs].
  destruct (Z.le_gt_cases c 0x7F); [|destruct (Z.le_gt_cases c 0x7FF);
    [|destruct (Z.le_gt_cases c 0xFFFF)]].
  - rewrite utf8_encode_1 by lia. cbn [app utf8_run].
    rewrite utf8_step_initial. unfold utf8_lead. ztests. done.
  - rewrite utf8_encode_2 by lia. cbn [app utf8_run].
    rewrite utf8_step_initial, utf8_lead_2 by dlia.
    rewrite utf8_step_last by dlia. cbn [app]. f_equal. dlia.
  - rewrite utf8_encode_3 by lia. cbn [app utf8_run].
    rewrite utf8_step_initial, utf8_lead_3 by dlia.
    rewrite utf8_step_more; [|lia|lia|ztests|dlia|dlia].
    rewrite utf8_step_last by dlia. cbn [app]. f_equal. dlia.
  - rewrite utf8_encode_4 by lia. cbn [app utf8_run].
    rewrite utf8_step_initial, utf8_lead_4 by dlia.
    rewrite utf8_step_more; [|lia|lia|ztests|dlia|dlia].
    rewrite utf8_step_more; [|lia|lia|dlia|dlia|dlia].
    rewrite utf8_step_last by dlia. cbn [app]. f_equal. dlia.
Qed.

Lemma utf8_decode_encode cps :
  Forall is_scalar cps -> utf8_decode (utf8_encode cps) = cps.
Proof.
  unfold utf8_decode, utf8_encode.
  induction 1 as [|c cps Hc _ IH]; [done|].
  cbn [flat_map]. rewrite utf8_run_scalar by done. by rewrite IH.
Qed.

Definition code_unit (u : Z) : Prop := 0 <= u < 65536.

Lemma well_formed_code_units s : well_formed s -> Forall code_unit s.
Proof.
  enough (forall s, (well_formed s -> Forall code_unit s) /\
                    (forall u, well_formed (u :: s) -> Forall code_unit (u :: s)))
    as H by apply H.
  clear s. induction s as [|v s [IH0 IH1]].
  - split; [constructor|]. intros u [Hu _]. constructor; [done|constructor].
  - split; [apply IH1|]. intros u [Hu H]. constructor; [done|].
    destruct (is_lead_surrogate u).
    + destruct H as [Hv H].
      constructor; [|by apply IH0].
      unfold is_trail_surrogate in Hv. unfold code_unit. lia.
    + destruct H as [_ H]. by apply IH1.
Qed.

Lemma to_scalar_values_cons u rest :
  to_scalar_values (u :: rest) =
    if is_lead_surrogate u then
      match rest with
      | v :: rest' =>
          if is_trail_surrogate v
          then (0x10000 + (u - 0xD800) * 0x400 + (v - 0xDC00)) :: to_scalar_values rest'
          else 0xFFFD :: to_scalar_values rest
      | [] => [0xFFFD]
      end
    else if is_trail_surrogate u then 0xFFFD :: to_scalar_values rest
    else u :: to_scalar_values rest.
Proof. reflexivity. Qed.

Lemma to_scalar_values_scalar s :
  Forall code_unit s -> Forall is_scalar (to_scalar_values s).
Proof.
  enough (forall s, (Forall code_unit s -> Forall is_scalar (to_scalar_values s)) /\
                    (forall u, Forall code_unit (u :: s) ->
                               Forall is_scalar (to_scalar_values (u :: s))))
    as H by apply H.
  assert (is_scalar 0xFFFD) as Hrepl by (unfold is_scalar; lia).
  clear s. induction s as [|v s [IH0 IH1]].
  - split; [constructor|]. intros u Hu. inversion_clear Hu as [|? ? Hu' _].
    unfold code_unit in Hu'. rewrite to_scalar_values_cons.
    unfold is_lead_surrogate, is_trail_surrogate, is_scalar.
    ztests; cbn [andb]; repeat constructor; lia.
  - split; [apply IH1|]. intros u Hu.
    inversion_clear Hu as [|? ? Hu' Hvs]. pose proof Hvs as Hvs'.
    inversion_clear Hvs as [|? ? Hv' Hs]. unfold code_unit in Hu', Hv'.
    rewrite to_scalar_values_cons.
    destruct (is_lead_surrogate u) eqn:Elead.
    + destruct (is_trail_surrogate v) eqn:Etrail.
      * constructor; [|by apply IH0].
        unfold is_lead_surrogate in Elead. unfold is_trail_surrogate in Etrail.
        unfold is_scalar. lia.
      * constructor; [done|]. by apply IH1.
    + destruct (is_trail_surrogate u) eqn:Etrail.
      * constructor; [done|]. by apply IH1.
      * constructor; [|by apply IH1].
        unfold is_lead_surrogate in Elead. unfold is_trail_surrogate in Etrail.
        unfold is_scalar. lia.
Qed.

Lemma of_to_scalar_values s :
  well_formed s -> of_scalar_values (to_scalar_values s) = s.
Proof.
  enough (forall s, (well_formed s -> of_scalar_values (to_scalar_values s) = s) /\
                    (forall u, well_formed (u :: s) ->
                               of_scalar_values (to_scalar_values (u :: s)) = u :: s))
    as H by apply H.
  clear s. induction s as [|v s [IH0 IH1]].
  - split; [done|]. intros u [Hu H]. rewrite to_scalar_values_cons.
    destruct (is_lead_surrogate u); [done|]. destruct H as [-> _].
    cbn. unfold code_units. ztests. done.
  - split; [apply IH1|]. intros u [Hu H]. rewrite to_scalar_values_cons.
    destruct (is_lead_surrogate u) eqn:Elead.
    + destruct H as [Hv H]. rewrite Hv.
      unfold of_scalar_values. cbn [flat_map].
      fold (of_scalar_values (to_scalar_values s)). rewrite IH0 by done.
      unfold is_lead_surrogate in Elead. unfold is_trail_surrogate in Hv.
      unfold code_units. ztests. cbn [app]. f_equal; [dlia|]. f_equal. dlia.
    + destruct H as [-> H].
      unfold of_scalar_values. cbn [flat_map].
      fold (of_scalar_values (to_scalar_values (v :: s))). rewrite IH1 by done.
      unfold code_units. ztests. done.
Qed.

(** Dropping a leading U+FEFF commutes with the passage to scalar values. *)
Lemma skip_bom_scalar_values s :
  well_formed s ->
  of_scalar_values (skip_bom (to_scalar_values s)) = skip_bom s.
Proof.
  intros Hwf. destruct s as [|u s]; [done|].
  pose proof (of_to_scalar_values _ Hwf) as Hid.
  destruct Hwf as [Hu H]. rewrite to_scalar_values_cons in *.
  destruct (is_lead_surrogate u) eqn:Elead.
  - destruct s as [|v s]; [done|]. destruct H as [Hv H]. rewrite Hv in *.
    unfold is_lead_surrogate in Elead. unfold is_trail_surrogate in Hv.
    unfold skip_bom. ztests. exact Hid.
  - destruct H as [Etrail H]. rewrite Etrail in *.
    unfold skip_bom. destruct (Z.eqb_spec u 0xFEFF). 2:{ exact Hid. }
    unfold of_scalar_values in Hid. cbn [flat_map] in Hid.
    unfold code_units in Hid at 1. subst u.
    change (0xFEFF <=? 0xFFFF) with true in Hid. cbn [app] in Hid.
    by injection Hid.
Qed.

(** What [TextDecoder] returns for the output of [TextEncoder]: the
    string itself, without a leading U+FEFF. *)
Lemma TextDecoder_TextEncoder s :
  well_formed s -> TextDecoder_decode (TextEncoder_encode s) = skip_bom s.
Proof.
  intros Hwf. unfold TextDecoder_decode, TextEncoder_encode.
  rewrite utf8_decode_encode.
  - by apply skip_bom_scalar_values.
  - by apply to_scalar_values_scalar, well_formed_code_units.
Qed.

Lemma utf8_encode_scalar_octets c : is_scalar c -> octets (utf8_encode_scalar c).
Proof.
  intros [Hc Hs]. unfold octets, is_byte.
  destruct (Z.le_gt_cases c 0x7F); [|destruct (Z.le_gt_cases c 0x7FF);
    [|destruct (Z.le_gt_cases c 0xFFFF)]].
  - rewrite utf8_encode_1 by lia. repeat constructor; lia.
  - rewrite utf8_encode_2 by lia. repeat (constructor; [dlia|]). constructor.
  - rewrite utf8_encode_3 by lia. repeat (constructor; [dlia|]). constructor.
  - rewrite utf8_encode_4 by lia. repeat (constructor; [dlia|]). constructor.
Qed.

Lemma TextEncoder_octets s : Forall code_unit s -> octets (TextEncoder_encode s).
Proof.
  intros Hs. unfold TextEncoder_encode, utf8_encode, octets.
  pose proof (to_scalar_values_scalar s Hs) as Hsc.
  induction Hsc as [|c cps Hc _ IH]; [constructor|].
  cbn [flat_map]. apply Forall_app. split; [|done].
  by apply utf8_encode_scalar_octets.
Qed.

End Encoding.

(** ** crypto.ts *)

Module Crypto.
Import Encoding.

(** The part of the Web Crypto API the source calls, for AES-GCM keys:
    [crypto.getRandomValues] over an explicit state of the random source,
    [subtle.encrypt] and [subtle.decrypt] (a rejected promise, the
    [OperationError] of a failed authentication, is [None]). *)
Class WebCrypto := {
  CryptoKey : Type;
  entropy : Type;
  getRandomValues : entropy -> nat -> list Z * entropy;
  subtle_encrypt : CryptoKey -> list Z -> list Z -> list Z;
  subtle_decrypt : CryptoKey -> list Z -> list Z -> option (list Z);
  getRandomValues_length g n : length (getRandomValues g n).1 = n;
  getRandomValues_octets g n : octets (getRandomValues g n).1;
  subtle_encrypt_octets k iv data :
    octets iv -> octets data -> octets (subtle_encrypt k iv data);
  subtle_decrypt_encrypt k iv data :
    octets iv -> octets data ->
    subtle_decrypt k iv (subtle_encrypt k iv data) = Some data
}.

(** The result of [encryptMessage]: two Base64 strings. *)
Record EncryptedMessage := { data : list Z; iv : list Z }.

(** The result of [encryptBuffer]. *)
Record EncryptedBuffer := { buffer_data : list Z; buffer_iv : list Z }.

Section Operations.
Context `{WebCrypto}.

(** [encryptMessage(key, text)]; the second component is the random
    source after the call. A thrown exception is [None]. *)
Definition encryptMessage (key : CryptoKey) (text : list Z) (g : entropy)
  : option EncryptedMessage * entropy :=
  let '(iv, g') := getRandomValues g 12 in
  let ciphertext := subtle_encrypt key iv (TextEncoder_encode text) in
  (d ← btoa (fromCharCode ciphertext);
   i ← btoa (fromCharCode iv);
   Some {| data := d; iv := i |}, g').

(** [decryptMessage(key, data, iv)]. *)
Definition decryptMessage (key : CryptoKey) (data iv : list Z)
  : option (list Z) :=
  encryptedBuffer ← Uint8Array_from <$> (charCodes <$> atob data);
  ivBuffer ← Uint8Array_from <$> (charCodes <$> atob iv);
  decrypted ← subtle_decrypt key ivBuffer encryptedBuffer;
  Some (TextDecoder_decode decrypted).

(** [encryptBuffer(key, buffer)]. *)
Definition encryptBuffer (key : CryptoKey) (buffer : list Z) (g : entropy)
  : EncryptedBuffer * entropy :=
  let '(iv, g') := getRandomValues g 12 in
  ({| buffer_data := subtle_encrypt key iv buffer; buffer_iv := iv |}, g').

(** [decryptBuffer(key, buffer, iv)]. *)
Definition decryptBuffer (key : CryptoKey) (buffer iv : list Z)
  : option (list Z) :=
  subtle_decrypt key iv buffer.

End Operations.

(** A stand-in for the cipher, showing the interface is inhabited: octets
    shifted by the key, followed by a 16-octet tag over key and nonce. *)
Module Toy.

Definition tag (k : Z) (iv : list Z) : list Z :=
  replicate 16 ((k + foldr Z.add 0 iv) mod 256).

Definition encrypt (k : Z) (iv data : list Z) : list Z :=
  map (fun b => (b + k) mod 256) data ++ tag k iv.

Definition decrypt (k : Z) (iv ct : list Z) : option (list Z) :=
  let n := (length ct - 16)%nat in
  if bool_decide (16 <= length ct)%nat && bool_decide (drop n ct = tag k iv)
  then Some (map (fun b => (b - k) mod 256) (take n ct))
  else None.

Definition random (g : Z) (n : nat) : list Z * Z :=
  (replicate n (g mod 256), g + 1).

End Toy.

(** *** Laws of the operations *)

Module ToyFacts.
Import Toy.

Lemma tag_length k iv : length (tag k iv) = 16%nat.
Proof. unfold tag. by rewrite length_replicate. Qed.

Lemma decrypt_encrypt k iv data :
  octets data -> decrypt k iv (encrypt k iv data) = Some data.
Proof.
  intros Hd. unfold decrypt, encrypt.
  rewrite length_app, tag_length, length_map.
  replace (length data + 16 - 16)%nat with (length (map (fun b => (b + k) mod 256) data))
    by (rewrite length_map; lia).
  rewrite drop_app_length, take_app_length.
  rewrite !bool_decide_eq_true_2 by (done || lia). cbn [andb].
  f_equal. rewrite map_map.
  induction Hd as [|b bs Hb _ IH]; [done|]. cbn [map]. rewrite IH.
  f_equal. unfold is_byte in Hb. dlia.
Qed.

Lemma encrypt_octets k iv data : octets (encrypt k iv data).
Proof.
  unfold encrypt, octets. apply Forall_app. split.
  - apply Forall_fmap, Forall_true. intros b. unfold is_byte. simpl. dlia.
  - unfold tag. apply Forall_replicate. unfold is_byte. dlia.
Qed.

#[refine] Instance web_crypto : WebCrypto := {|
  CryptoKey := Z;
  entropy := Z;
  getRandomValues := random;
  subtle_encrypt := encrypt;
  subtle_decrypt := decrypt
|}.
Proof.
  - intros g n. apply length_replicate.
  - intros g n. apply Forall_replicate. unfold is_byte. dlia.
  - intros. apply encrypt_octets.
  - intros. by apply decrypt_encrypt.
Defined.
End ToyFacts.

Section Laws.
Context `{WebCrypto}.

Lemma transport_round_trip bs :
  octets bs ->
  forall s, btoa (fromCharCode bs) = Some s ->
  Uint8Array_from <$> (charCodes <$> atob s) = Some bs.
Proof.
  intros Hbs s Hs. pose proof (base64_round_trip bs Hbs) as Hrt.
  rewrite Hs in Hrt. exact Hrt.
Qed.

Lemma btoa_octets bs : octets bs -> btoa (fromCharCode bs) = Some (b64_encode bs).
Proof.
  intros Hbs. rewrite fromCharCode_octets by done. unfold btoa.
  by rewrite octets_le_255.
Qed.

(** C1, as amended. For every well-formed string and every key, the
    pair that [encryptMessage] returns decrypts under the same key to
    the string without a leading U+FEFF, which [TextDecoder] drops: to
    the original string whenever it does not begin with U+FEFF. *)
Theorem decrypt_encrypt_message (key : CryptoKey) (text : list Z) (g : entropy) :
  well_formed text ->
  exists m,
    (encryptMessage key text g).1 = Some m /\
    decryptMessage key (data m) (iv m) = Some (skip_bom text) /\
    (hd 0 text <> 0xFEFF -> decryptMessage key (data m) (iv m) = Some text).
Proof.
  intros Hwf. unfold encryptMessage.
  pose proof (getRandomValues_octets g 12) as Hiv.
  destruct (getRandomValues g 12) as [nonce g']. cbn [fst] in *.
  pose proof (TextEncoder_octets text (well_formed_code_units _ Hwf)) as Hpt.
  pose proof (subtle_encrypt_octets key nonce _ Hiv Hpt) as Hct.
  rewrite !btoa_octets by done. cbn.
  eexists. split; [done|]. cbn [data iv].
  assert (decryptMessage key (b64_encode (subtle_encrypt key nonce (TextEncoder_encode text)))
            (b64_encode nonce) = Some (skip_bom text)) as Hdec.
  { unfold decryptMessage.
    rewrite (transport_round_trip _ Hct _ (btoa_octets _ Hct)).
    rewrite (transport_round_trip _ Hiv _ (btoa_octets _ Hiv)). cbn.
    rewrite subtle_decrypt_encrypt by done. cbn.
    by rewrite TextDecoder_TextEncoder. }
  split; [exact Hdec|]. intros Hhd. rewrite Hdec. f_equal.
  destruct text as [|u rest]; [done|]. cbn in Hhd. unfold skip_bom.
  by destruct (Z.eqb_spec u 0xFEFF).
Qed.

End Laws.

(** The string made of U+FEFF alone comes back empty: the round trip is
    not the identity on every well-formed string. *)
Lemma round_trip_drops_bom :
  ~ (forall (W : WebCrypto) (key : CryptoKey) (text : list Z) (g : entropy),
       well_formed text ->
       exists m, (encryptMessage key text g).1 = Some m /\
                 decryptMessage key (data m) (iv m) = Some text).
Proof.
  intros Hall.
  destruct (Hall ToyFacts.web_crypto 7 [0xFEFF] 0) as (m & Hm & Hd).
  { cbn. unfold is_lead_surrogate, is_trail_surrogate. cbn. lia. }
  vm_compute in Hm. injection Hm as <-. vm_compute in Hd. discriminate.
Qed.

(** "hi" under the stand-in cipher. *)
Lemma decrypt_encrypt_message_witness :
  well_formed [104; 105] /\
  exists m,
    (@encryptMessage ToyFacts.web_crypto 7 [104; 105] 0).1 = Some m /\
    @decryptMessage ToyFacts.web_crypto 7 (data m) (iv m) = Some (skip_bom [104; 105]) /\
    (hd 0 [104; 105] <> 0xFEFF ->
     @decryptMessage ToyFacts.web_crypto 7 (data m) (iv m) = Some [104; 105]).
Proof.
  assert (well_formed [104; 105]) as Hwf.
  { cbn. unfold is_lead_surrogate, is_trail_surrogate. cbn. lia. }
  split; [exact Hwf|].
  exact (@decrypt_encrypt_message ToyFacts.web_crypto 7 [104; 105] 0 Hwf).
Defined.

End Crypto.

(** ** components/Room.tsx: the data channel *)

Module Transfer.
Import Encoding Crypto.

(** [PROTOCOL_CONFIG], the constants of the data plane. *)
Definition CHUNK_SIZE : Z := 64 * 1024.
Definition BUFFER_THRESHOLD : Z := 1 * 1024 * 1024.
Definition MAX_FILE_SIZE : Z := 100 * 1024 * 1024.

Inductive PrivacyFilter := NONE | BLUR | MOSAIC | BLACK.

(** The JSON objects carried by text frames, by their [type] field; a text
    frame that [JSON.parse] rejects is [Unparsable]. *)
Inductive payload :=
| Chat (data iv : list Z)
| PrivacyUpdate (filter : PrivacyFilter) (audioEnabled videoEnabled : bool)
| FileMeta (id name : string) (size : Z) (mimeType : string)
| FileAbort (id : string)
| SessionTerminate
| OtherType (type : string)
| Unparsable.

(** What [dc.send] takes and [onmessage] delivers. *)
Inductive frame :=
| TextFrame (p : payload)
| BinaryFrame (bytes : list Z).

Inductive RTCDataChannelState := connecting | open | closing | closed.

(** A data channel: its state and everything passed to [send] so far. *)
Record RTCDataChannel := {
  readyState : RTCDataChannelState;
  sent : list frame
}.

Definition is_open (dc : RTCDataChannel) : bool :=
  match readyState dc with open => true | _ => false end.

Definition dc_send (f : frame) (dc : RTCDataChannel) : RTCDataChannel :=
  {| readyState := readyState dc; sent := sent dc ++ [f] |}.

Inductive FileStatus := pending | transferring | completed | failed.
Inductive MessageType := text | image | video | file.
Inductive ToastType := info | error | warning.

Record FileTransfer := {
  ft_id : string;
  ft_name : string;
  ft_size : Z;
  ft_progress : Z;
  ft_status : FileStatus;
  ft_mimeType : string
}.

Record ReceivingFileState := {
  rf_id : string;
  rf_name : string;
  rf_size : Z;
  rf_received : Z;
  rf_chunks : list (list Z);
  rf_mimeType : string
}.

(** [new Blob(parts, {type})]; an object URL stands for its blob. *)
Record Blob := { blob_parts : list (list Z); blob_type : string }.

Definition blob_bytes (b : Blob) : list Z := concat (blob_parts b).

Record ChatMessage := {
  cm_id : string;
  cm_senderId : string;
  cm_senderName : string;
  cm_text : option (list Z);
  cm_blobUrl : option Blob;
  cm_fileName : option string;
  cm_type : MessageType;
  cm_timestamp : Z
}.

Record Participant := {
  p_id : string;
  p_name : string;
  p_isLocal : bool;
  p_audioEnabled : bool;
  p_videoEnabled : bool
}.

(** A [File]: its [name], [size] and [type] properties and the result of
    [arrayBuffer()]. *)
Record File := {
  file_name : string;
  file_size : Z;
  file_type : string;
  file_arrayBuffer : list Z
}.

(** The browser keeps [file.size] equal to the length of the contents,
    which are octets. *)
Definition File_ok (f : File) : Prop :=
  file_size f = Z.of_nat (length (file_arrayBuffer f)) /\
  octets (file_arrayBuffer f).

(** What the sender reads from the channel and the abort controller at a
    test of the sending loop, and whether the channel is still open when
    [dc.send] runs after the awaited encryption. *)
Record ChannelView := {
  view_readyState : RTCDataChannelState;
  view_bufferedAmount : Z;
  view_aborted : bool;
  view_open_at_send : bool
}.

Definition view_is_open (v : ChannelView) : bool :=
  match view_readyState v with open => true | _ => false end.

(** How an invocation of [sendNext] ends. *)
Inductive SendOutcome :=
| AwaitingBufferedAmountLow
| TransferCompleted
| TransferFailed.

Section Room.
Context `{WebCrypto}.

(** [Math.min(100, Math.round((done / total) * 100))], a computation on
    doubles that no property below depends on. *)
Variable percent : Z -> Z -> Z.

(** [config.userName]. *)
Variable userName : string.

(** The refs and state of [Room] that the data channel handlers use. *)
Record Room := {
  encryptionKeyRef : option CryptoKey;
  receivingRef : option ReceivingFileState;
  files : list FileTransfer;
  messages : list ChatMessage;
  blobUrlsRef : list Blob;
  toast : option (string * ToastType);
  participants : list Participant;
  dataChannelsRef : list (string * RTCDataChannel);
  abortControllerRef : option bool;
  exited : bool
}.

(** Calls that leave the component, in order. *)
Inductive event :=
| CallDecryptBuffer (key : CryptoKey) (buffer iv : list Z)
| CallDecryptMessage (key : CryptoKey) (data iv : list Z)
| ConsoleWarn
| DeleteRoomRow.

Definition set_receiving (v : option ReceivingFileState) (r : Room) : Room :=
  {| encryptionKeyRef := encryptionKeyRef r; receivingRef := v;
     files := files r; messages := messages r; blobUrlsRef := blobUrlsRef r;
     toast := toast r; participants := participants r;
     dataChannelsRef := dataChannelsRef r;
     abortControllerRef := abortControllerRef r; exited := exited r |}.

Definition set_files (v : list FileTransfer) (r : Room) : Room :=
  {| encryptionKeyRef := encryptionKeyRef r; receivingRef := receivingRef r;
     files := v; messages := messages r; blobUrlsRef := blobUrlsRef r;
     toast := toast r; participants := participants r;
     dataChannelsRef := dataChannelsRef r;
     abortControllerRef := abortControllerRef r; exited := exited r |}.

Definition set_messages (v : list ChatMessage) (r : Room) : Room :=
  {| encryptionKeyRef := encryptionKeyRef r; receivingRef := receivingRef r;
     files := files r; messages := v; blobUrlsRef := blobUrlsRef r;
     toast := toast r; participants := participants r;
     dataChannelsRef := dataChannelsRef r;
     abortControllerRef := abortControllerRef r; exited := exited r |}.

Definition set_blobUrls (v : list Blob) (r : Room) : Room :=
  {| encryptionKeyRef := encryptionKeyRef r; receivingRef := receivingRef r;
     files := files r; messages := messages r; blobUrlsRef := v;
     toast := toast r; participants := participants r;
     dataChannelsRef := dataChannelsRef r;
     abortControllerRef := abortControllerRef r; exited := exited r |}.

Definition set_participants (v : list Participant) (r : Room) : Room :=
  {| encryptionKeyRef := encryptionKeyRef r; receivingRef := receivingRef r;
     files := files r; messages := messages r; blobUrlsRef := blobUrlsRef r;
     toast := toast r; participants := v;
     dataChannelsRef := dataChannelsRef r;
     abortControllerRef := abortControllerRef r; exited := exited r |}.

Definition set_dataChannels (v : list (string * RTCDataChannel)) (r : Room) : Room :=
  {| encryptionKeyRef := encryptionKeyRef r; receivingRef := receivingRef r;
     files := files r; messages := messages r; blobUrlsRef := blobUrlsRef r;
     toast := toast r; participants := participants r;
     dataChannelsRef := v;
     abortControllerRef := abortControllerRef r; exited := exited r |}.

Definition set_abortController (v : option bool) (r : Room) : Room :=
  {| encryptionKeyRef := encryptionKeyRef r; receivingRef := receivingRef r;
     files := files r; messages := messages r; blobUrlsRef := blobUrlsRef r;
     toast := toast r; participants := participants r;
     dataChannelsRef := dataChannelsRef r;
     abortControllerRef := v; exited := exited r |}.

Definition set_exited (v : bool) (r : Room) : Room :=
  {| encryptionKeyRef := encryptionKeyRef r; receivingRef := receivingRef r;
     files := files r; messages := messages r; blobUrlsRef := blobUrlsRef r;
     toast := toast r; participants := participants r;
     dataChannelsRef := dataChannelsRef r;
     abortControllerRef := abortControllerRef r; exited := v |}.

(** [showToast(msg, type)]. *)
Definition showToast (msg : string) (type : ToastType) (r : Room) : Room :=
  {| encryptionKeyRef := encryptionKeyRef r; receivingRef := receivingRef r;
     files := files r; messages := messages r; blobUrlsRef := blobUrlsRef r;
     toast := Some (msg, type); participants := participants r;
     dataChannelsRef := dataChannelsRef r;
     abortControllerRef := abortControllerRef r; exited := exited r |}.

(** [setFiles(prev => prev.map(f => f.id === id ? g(f) : f))]. *)
Definition update_file (id : string) (g : FileTransfer -> FileTransfer)
    (r : Room) : Room :=
  set_files (map (fun f => if String.eqb (ft_id f) id then g f else f) (files r)) r.

Definition with_progress (p : Z) (f : FileTransfer) : FileTransfer :=
  {| ft_id := ft_id f; ft_name := ft_name f; ft_size := ft_size f;
     ft_progress := p; ft_status := ft_status f; ft_mimeType := ft_mimeType f |}.

Definition with_status (st : FileStatus) (f : FileTransfer) : FileTransfer :=
  {| ft_id := ft_id f; ft_name := ft_name f; ft_size := ft_size f;
     ft_progress := ft_progress f; ft_status := st; ft_mimeType := ft_mimeType f |}.

(** [dataChannelsRef.current.forEach(dc => { if (dc.readyState === 'open')
    dc.send(f) })]. *)
Definition send_to_open (f : frame) (r : Room) : Room :=
  set_dataChannels
    (map (fun '(id, dc) => (id, if is_open dc then dc_send f dc else dc))
       (dataChannelsRef r)) r.

Definition any_open (r : Room) : bool :=
  existsb (fun '(_, dc) => is_open dc) (dataChannelsRef r).

(** [mimeType?.startsWith('image/') ? 'image' : 'file']. *)
Definition message_type_of (mimeType : string) : MessageType :=
  if String.prefix "image/" mimeType then image else file.

(** *** Receiving *)

(** [handleFileMetaReceive(m)]. *)
Definition handleFileMetaReceive (id name : string) (size : Z)
    (mimeType : string) (r : Room) : Room :=
  set_files
    ({| ft_id := id; ft_name := name; ft_size := size; ft_progress := 0;
        ft_status := transferring; ft_mimeType := mimeType |} :: files r)
    (set_receiving
       (Some {| rf_id := id; rf_name := name; rf_size := size;
                rf_received := 0; rf_chunks := []; rf_mimeType := mimeType |})
       r).

(** [handleFileChunkReceive(d)], run to completion: the decryption it
    awaits settles before anything else happens on the loop (the loop on
    which other handlers run in between is [Delivery]); [now] is the value
    of [Date.now()]. A rejected decryption, or the absence of a key, is
    caught and drops the assembly. *)
Definition handleFileChunkReceive (now : Z) (d : list Z) (r : Room)
  : Room * list event :=
  match receivingRef r with
  | None => (r, [])
  | Some s =>
      match encryptionKeyRef r with
      | None => (set_receiving None r, [])
      | Some key =>
          let iv := take 12 d in
          let body := drop 12 d in
          match decryptBuffer key body iv with
          | None => (set_receiving None r, [CallDecryptBuffer key body iv])
          | Some dec =>
              let s' := {| rf_id := rf_id s; rf_name := rf_name s;
                           rf_size := rf_size s;
                           rf_received := rf_received s + Z.of_nat (length dec);
                           rf_chunks := rf_chunks s ++ [dec];
                           rf_mimeType := rf_mimeType s |} in
              let r1 :=
                update_file (rf_id s)
                  (with_progress (percent (rf_received s') (rf_size s')))
                  (set_receiving (Some s') r) in
              if rf_size s' <=? rf_received s' then
                let url := {| blob_parts := rf_chunks s';
                              blob_type := rf_mimeType s' |} in
                let msg := {| cm_id := rf_id s'; cm_senderId := "peer";
                              cm_senderName := "对方"; cm_text := None;
                              cm_blobUrl := Some url;
                              cm_fileName := Some (rf_name s');
                              cm_type := message_type_of (rf_mimeType s');
                              cm_timestamp := now |} in
                (set_receiving None
                   (update_file (rf_id s) (with_status completed)
                      (set_messages (messages r1 ++ [msg])
                         (set_blobUrls (blobUrlsRef r1 ++ [url]) r1))),
                 [CallDecryptBuffer key body iv])
              else (r1, [CallDecryptBuffer key body iv])
          end
      end
  end.

(** The data-plane part of [cleanupResources]. *)
Definition cleanupResources (r : Room) : Room :=
  set_abortController None
    (set_blobUrls [] (set_dataChannels [] (set_receiving None r))).

(** [handleManualExit()]. *)
Definition handleManualExit (r : Room) : Room * list event :=
  (set_exited true (cleanupResources (send_to_open (TextFrame SessionTerminate) r)),
   [DeleteRoomRow]).

(** [dc.onmessage] as installed by [setupDC(id, dc)]. *)
Definition onmessage (id : string) (now : Z) (f : frame) (r : Room)
  : Room * list event :=
  match f with
  | TextFrame Unparsable => (r, [ConsoleWarn])
  | TextFrame (Chat data iv) =>
      match encryptionKeyRef r with
      | Some key =>
          match decryptMessage key data iv with
          | Some t =>
              (set_messages
                 (messages r ++
                    [{| cm_id := pretty now; cm_senderId := id;
                        cm_senderName := "对方"; cm_text := Some t;
                        cm_blobUrl := None; cm_fileName := None;
                        cm_type := text; cm_timestamp := now |}]) r,
               [CallDecryptMessage key data iv])
          | None => (r, [CallDecryptMessage key data iv; ConsoleWarn])
          end
      | None => (r, [])
      end
  | TextFrame (PrivacyUpdate _ audioEnabled videoEnabled) =>
      (set_participants
         (map (fun p =>
                 if String.eqb (p_id p) id
                 then {| p_id := p_id p; p_name := p_name p;
                         p_isLocal := p_isLocal p;
                         p_audioEnabled := audioEnabled;
                         p_videoEnabled := videoEnabled |}
                 else p) (participants r)) r, [])
  | TextFrame (FileMeta fid name size mimeType) =>
      (handleFileMetaReceive fid name size mimeType r, [])
  | TextFrame (FileAbort fid) =>
      (update_file fid (with_status failed) (showToast "文件传输取消" error r), [])
  | TextFrame SessionTerminate => handleManualExit r
  | TextFrame (OtherType _) => (r, [])
  | BinaryFrame d => handleFileChunkReceive now d r
  end.

(** Frames delivered in order, each with the time of its delivery and
    handled to completion before the next arrives: the loop of [Delivery]
    on which every promise settles at once ([Delivery.deliver_at_once]). *)
Fixpoint deliver (id : string) (fs : list (Z * frame)) (r : Room)
  : Room * list event :=
  match fs with
  | [] => (r, [])
  | (now, f) :: rest =>
      let '(r1, ev1) := onmessage id now f r in
      let '(r2, ev2) := deliver id rest r1 in
      (r2, ev1 ++ ev2)
  end.

(** *** Sending *)

(** The closure of one call of [handleFileUpload]: the transfer
    identifier, the file and its contents [buf], the offset cursor, the
    key of the channel found open, the number of channel observations
    made so far and the random source. *)
Record Upload := {
  up_id : string;
  up_file : File;
  up_buf : list Z;
  up_off : Z;
  up_dc : string;
  up_tick : nat;
  up_entropy : entropy
}.

Definition byteLength (buf : list Z) : Z := Z.of_nat (length buf).

(** [buf.slice(from, to)] for [0 <= from]. *)
Definition slice (buf : list Z) (from to : Z) : list Z :=
  take (Z.to_nat (to - from)) (drop (Z.to_nat from) buf).

(** [dc.send(f)] on the channel stored under [key]. *)
Definition send_on (key : string) (f : frame) (r : Room) : Room :=
  set_dataChannels
    (map (fun '(id, dc) => (id, if String.eqb id key then dc_send f dc else dc))
       (dataChannelsRef r)) r.

(** How the [while] loop of [sendNext] is left: its condition failed
    under the observation [v], or [encryptBuffer] or [dc.send] threw. *)
Inductive LoopExit :=
| ConditionFalse (v : ChannelView)
| Threw.

(** The [while] loop of [sendNext]; [fuel] bounds the iterations. *)
Fixpoint send_loop (env : nat -> ChannelView) (fuel : nat) (u : Upload)
    (r : Room) : Room * Upload * LoopExit :=
  let v := env (up_tick u) in
  if (up_off u <? byteLength (up_buf u)) && view_is_open v
     && (view_bufferedAmount v <? BUFFER_THRESHOLD) && negb (view_aborted v)
  then
    match fuel with
    | O => (r, u, Threw)
    | S fuel' =>
        match encryptionKeyRef r with
        | None => (r, u, Threw)
        | Some key =>
            let chunk := slice (up_buf u) (up_off u) (up_off u + CHUNK_SIZE) in
            let '(enc, g') := encryptBuffer key chunk (up_entropy u) in
            let pack := buffer_iv enc ++ buffer_data enc in
            if view_open_at_send v then
              let off' := up_off u + byteLength chunk in
              let u' := {| up_id := up_id u; up_file := up_file u;
                           up_buf := up_buf u; up_off := off';
                           up_dc := up_dc u; up_tick := S (up_tick u);
                           up_entropy := g' |} in
              let r' :=
                update_file (up_id u)
                  (with_progress (percent off' (file_size (up_file u))))
                  (send_on (up_dc u) (BinaryFrame pack) r) in
              send_loop env fuel' u' r'
            else
              (r, {| up_id := up_id u; up_file := up_file u;
                     up_buf := up_buf u; up_off := up_off u;
                     up_dc := up_dc u; up_tick := S (up_tick u);
                     up_entropy := g' |}, Threw)
        end
    end
  else (r, u, ConditionFalse v).

(** The [catch] block of [sendNext]. *)
Definition transfer_interrupted (u : Upload) (r : Room) : Room :=
  set_abortController None
    (showToast "文件传输中断" error
       (update_file (up_id u) (with_status failed) r)).

(** One invocation of [sendNext]: from [handleFileUpload], or from the
    [onbufferedamountlow] callback it registered. *)
Definition sendNext (env : nat -> ChannelView) (now : Z) (u : Upload)
    (r : Room) : Room * Upload * SendOutcome :=
  if view_aborted (env (up_tick u)) then (r, u, TransferFailed)
  else
    match send_loop env (S (length (up_buf u))) u r with
    | (r1, u1, Threw) => (transfer_interrupted u1 r1, u1, TransferFailed)
    | (r1, u1, ConditionFalse v) =>
        if view_aborted v then
          (update_file (up_id u1) (with_status failed) r1, u1, TransferFailed)
        else if (up_off u1 <? byteLength (up_buf u1)) && view_is_open v then
          (r1, u1, AwaitingBufferedAmountLow)
        else if view_is_open v then
          let url := {| blob_parts := [up_buf u1];
                        blob_type := file_type (up_file u1) |} in
          let msg := {| cm_id := up_id u1; cm_senderId := "local";
                        cm_senderName := userName; cm_text := None;
                        cm_blobUrl := Some url;
                        cm_fileName := Some (file_name (up_file u1));
                        cm_type := message_type_of (file_type (up_file u1));
                        cm_timestamp := now |} in
          (set_abortController None
             (update_file (up_id u1) (with_status completed)
                (set_messages (messages r1 ++ [msg])
                   (set_blobUrls (blobUrlsRef r1 ++ [url]) r1))),
           u1, TransferCompleted)
        else (transfer_interrupted u1 r1, u1, TransferFailed)
    end.

(** The [onbufferedamountlow] callback: a later observation, then
    [sendNext] again. *)
Definition resume (env : nat -> ChannelView) (now : Z) (u : Upload)
    (r : Room) : Room * Upload * SendOutcome :=
  sendNext env now
    {| up_id := up_id u; up_file := up_file u; up_buf := up_buf u;
       up_off := up_off u; up_dc := up_dc u; up_tick := S (up_tick u);
       up_entropy := up_entropy u |} r.

(** What a call of [handleFileUpload] does before it returns or first
    suspends in the sending loop. *)
Inductive UploadResult :=
| NoKey
| TooLarge
| NoConnection
| InitError
| Started (u : Upload) (o : SendOutcome).

(** [handleFileUpload(file)]; [id] is the identifier drawn from
    [Math.random()], [g] the random source. *)
Definition handleFileUpload (env : nat -> ChannelView) (now : Z) (id : string)
    (g : entropy) (f : File) (r : Room) : Room * UploadResult :=
  match encryptionKeyRef r with
  | None => (r, NoKey)
  | Some _ =>
      if MAX_FILE_SIZE <? file_size f then
        (showToast "文件过大，最大支持 100MB" error r, TooLarge)
      else
        let meta := FileMeta id (file_name f) (file_size f) (file_type f) in
        let anyOpen := any_open r in
        let r1 := send_to_open (TextFrame meta) r in
        if negb anyOpen then (showToast "未检测到连接" error r1, NoConnection)
        else
          let r2 :=
            set_files
              ({| ft_id := id; ft_name := file_name f; ft_size := file_size f;
                  ft_progress := 0; ft_status := transferring;
                  ft_mimeType := file_type f |} :: files r1)
              (set_abortController (Some false) r1) in
          match List.find (fun '(_, dc) => is_open dc) (dataChannelsRef r2) with
          | None =>
              (set_abortController None
                 (showToast "文件发送异常" error
                    (update_file id (with_status failed) r2)), InitError)
          | Some (key, _) =>
              let u := {| up_id := id; up_file := f;
                          up_buf := file_arrayBuffer f; up_off := 0;
                          up_dc := key; up_tick := O; up_entropy := g |} in
              let '(r3, u', o) := sendNext env now u r2 in
              (r3, Started u' o)
          end
  end.

(** A whole transfer: [handleFileUpload], then the callback each time
    the loop suspended, at most [resumes] times. *)
Fixpoint resume_all (env : nat -> ChannelView) (now : Z) (resumes : nat)
    (u : Upload) (o : SendOutcome) (r : Room) : Room * Upload * SendOutcome :=
  match o, resumes with
  | AwaitingBufferedAmountLow, S k =>
      let '(r1, u1, o1) := resume env now u r in
      resume_all env now k u1 o1 r1
  | _, _ => (r, u, o)
  end.

(** *** The wire form of a transfer *)

(** A chunk on the wire: [(nonce, plaintext)] as the frame the sender packs. *)
Definition frame_of (key : CryptoKey) (p : list Z * list Z) : frame :=
  BinaryFrame (p.1 ++ subtle_encrypt key p.1 p.2).

Definition pack_ok (p : list Z * list Z) : Prop :=
  length p.1 = 12%nat /\ octets p.1 /\ octets p.2 /\ p.2 <> [].

Definition total_length (ps : list (list Z * list Z)) : Z :=
  Z.of_nat (length (concat ps.*2)).

(** Between two points of a transfer the chunks [ps] went out on the
    channel, in order, and the cursor moved over exactly their bytes. *)
Definition sent_since (key : CryptoKey) (u : Upload) (r : Room)
    (u' : Upload) (r' : Room) (ps : list (list Z * list Z)) : Prop :=
  (exists dc,
      dataChannelsRef r = [(up_dc u, dc)] /\
      dataChannelsRef r' =
        [(up_dc u, {| readyState := readyState dc;
                      sent := sent dc ++ map (frame_of key) ps |})]) /\
  Forall pack_ok ps /\
  take (Z.to_nat (up_off u)) (up_buf u) ++ concat ps.*2
    = take (Z.to_nat (up_off u')) (up_buf u) /\
  up_off u <= up_off u' <= byteLength (up_buf u) /\
  up_buf u' = up_buf u /\ up_dc u' = up_dc u /\ up_id u' = up_id u /\
  up_file u' = up_file u /\
  encryptionKeyRef r' = Some key.

(** A channel that stays open, drained and unaborted. *)
Definition clear_channel : nat -> ChannelView :=
  fun _ => {| view_readyState := open; view_bufferedAmount := 0;
              view_aborted := false; view_open_at_send := true |}.

Definition meta_of (id : string) (f : File) : frame :=
  TextFrame (FileMeta id (file_name f) (file_size f) (file_type f)).

(** *** Facts about sending and receiving *)

Lemma CHUNK_SIZE_pos : 0 < CHUNK_SIZE.
Proof. reflexivity. Qed.

(** The wire form of a chunk and its inverse on the receiving side. *)
Lemma frame_split (key : CryptoKey) (chunk : list Z) (g : entropy) :
  octets chunk ->
  let enc := (encryptBuffer key chunk g).1 in
  let pack := buffer_iv enc ++ buffer_data enc in
  length (buffer_iv enc) = 12%nat /\
  buffer_data enc = subtle_encrypt key (buffer_iv enc) chunk /\
  take 12 pack = buffer_iv enc /\
  drop 12 pack = buffer_data enc /\
  decryptBuffer key (drop 12 pack) (take 12 pack) = Some chunk.
Proof.
  intros Hc. unfold encryptBuffer.
  pose proof (getRandomValues_length g 12) as Hlen.
  pose proof (getRandomValues_octets g 12) as Hoct.
  destruct (getRandomValues g 12) as [nonce g']. cbn [fst snd] in *.
  cbn [buffer_iv buffer_data].
  assert (take 12 (nonce ++ subtle_encrypt key nonce chunk) = nonce) as Ht.
  { rewrite <- Hlen. apply take_app_length. }
  assert (drop 12 (nonce ++ subtle_encrypt key nonce chunk)
          = subtle_encrypt key nonce chunk) as Hd.
  { rewrite <- Hlen. apply drop_app_length. }
  rewrite Ht, Hd. repeat split; try done.
  unfold decryptBuffer. by apply subtle_decrypt_encrypt.
Qed.

Lemma total_length_cons p ps :
  total_length (p :: ps) = Z.of_nat (length p.2) + total_length ps.
Proof. unfold total_length. cbn. rewrite length_app. lia. Qed.

Lemma total_length_pos ps : Forall pack_ok ps -> ps <> [] -> 0 < total_length ps.
Proof.
  intros Hps Hne. destruct ps as [|p ps]; [done|].
  inversion_clear Hps as [|? ? (_ & _ & _ & Hp) _].
  rewrite total_length_cons. unfold total_length.
  destruct p.2; [done|]. cbn [length]. lia.
Qed.

Lemma take_length_take {A} (l : list A) c : take (length (take c l)) l = take c l.
Proof.
  rewrite length_take. destruct (Nat.min_spec c (length l)) as [[? ->]|[? ->]]; [done|].
  rewrite firstn_all. symmetry. apply take_ge. lia.
Qed.

(** The chunk cut at offset [off]: octets, not empty, and the next part of
    the buffer. *)
Lemma slice_chunk buf off :
  octets buf -> 0 <= off < byteLength buf ->
  let chunk := slice buf off (off + CHUNK_SIZE) in
  octets chunk /\ chunk <> [] /\
  off + byteLength chunk <= byteLength buf /\
  take (Z.to_nat off) buf ++ chunk = take (Z.to_nat (off + byteLength chunk)) buf.
Proof.
  intros Hbuf Hoff. unfold slice, byteLength in *.
  replace (off + CHUNK_SIZE - off) with CHUNK_SIZE by lia.
  set (c := Z.to_nat CHUNK_SIZE). set (o := Z.to_nat off).
  assert (0 < c)%nat as Hc by (subst c; pose proof CHUNK_SIZE_pos; lia).
  assert (o < length buf)%nat as Ho by (subst o; lia).
  cbv zeta. rewrite length_take, length_drop.
  split; [by apply Forall_take, Forall_drop|]. split.
  { intros Hnil. apply (f_equal length) in Hnil.
    rewrite length_take, length_drop in Hnil. cbn in Hnil. lia. }
  split; [lia|].
  replace (Z.to_nat (off + Z.of_nat (c `min` (length buf - o))))
    with (o + (c `min` (length buf - o)))%nat by lia.
  rewrite <- take_take_drop. f_equal.
  rewrite <- (length_drop buf o), <- length_take. symmetry. apply take_length_take.
Qed.

Lemma send_on_single key dc f (r : Room) :
  dataChannelsRef r = [(key, dc)] ->
  dataChannelsRef (send_on key f r) = [(key, dc_send f dc)].
Proof. intros Hdc. cbn. rewrite Hdc. cbn. by rewrite String.eqb_refl. Qed.

Lemma sent_since_refl key u r dc :
  dataChannelsRef r = [(up_dc u, dc)] -> encryptionKeyRef r = Some key ->
  0 <= up_off u <= byteLength (up_buf u) ->
  sent_since key u r u r [].
Proof.
  intros Hdc Hk Hoff. unfold sent_since. split.
  { exists dc. split; [done|]. destruct dc. cbn. by rewrite app_nil_r. }
  cbn. rewrite app_nil_r. repeat split; try done; try lia; by constructor.
Qed.

Lemma sent_since_trans key u r u1 r1 u2 r2 ps1 ps2 :
  sent_since key u r u1 r1 ps1 -> sent_since key u1 r1 u2 r2 ps2 ->
  sent_since key u r u2 r2 (ps1 ++ ps2).
Proof.
  intros ((dc & Hdc & Hdc1) & Hps1 & Hcat1 & Hoff1 & Hb1 & Hd1 & Hi1 & Hf1 & Hk1)
         ((dc' & Hdc1' & Hdc2) & Hps2 & Hcat2 & Hoff2 & Hb2 & Hd2 & Hi2 & Hf2 & Hk2).
  rewrite Hd1, Hdc1 in Hdc1'. injection Hdc1' as <-.
  rewrite Hb1 in *. rewrite Hd1 in *. cbn [readyState sent] in Hdc2.
  unfold sent_since. split.
  { exists dc. split; [done|]. rewrite Hdc2, map_app. by rewrite <- app_assoc. }
  split; [by apply Forall_app|].
  split. { rewrite fmap_app, concat_app, app_assoc, Hcat1. exact Hcat2. }
  repeat split; try congruence; lia.
Qed.

(** What one run of the sending loop puts on the wire. *)
Lemma send_loop_spec env key fuel :
  forall u r r' u' e dc,
    send_loop env fuel u r = (r', u', e) ->
    encryptionKeyRef r = Some key ->
    dataChannelsRef r = [(up_dc u, dc)] ->
    octets (up_buf u) -> 0 <= up_off u <= byteLength (up_buf u) ->
    exists ps,
      sent_since key u r u' r' ps /\
      forall v, e = ConditionFalse v ->
        (up_off u' <? byteLength (up_buf u')) && view_is_open v
        && (view_bufferedAmount v <? BUFFER_THRESHOLD) && negb (view_aborted v)
        = false.
Proof.
  induction fuel as [|fuel IH]; intros u r r' u' e dc Hrun Hk Hdc Hbuf Hoff.
  - cbn [send_loop] in Hrun.
    destruct (_ && _) eqn:Hcond in Hrun; injection Hrun as <- <- <-;
      exists []; (split; [by eapply sent_since_refl|]); [done|].
    intros v [= <-]. exact Hcond.
  - cbn [send_loop] in Hrun.
    destruct (_ && _) eqn:Hcond in Hrun; cycle 1.
    { injection Hrun as <- <- <-.
      exists []. split; [by eapply sent_since_refl|].
      intros v [= <-]. exact Hcond. }
    rewrite Hk in Hrun.
    assert (up_off u < byteLength (up_buf u)) as Hlt.
    { destruct (Z.ltb_spec (up_off u) (byteLength (up_buf u))); [done|].
      by rewrite !andb_false_l in Hcond. }
    destruct (slice_chunk (up_buf u) (up_off u) Hbuf ltac:(lia))
      as (Hchunk & Hne & Hle & Htake).
    set (chunk := slice (up_buf u) (up_off u) (up_off u + CHUNK_SIZE)) in *.
    assert (0 <= byteLength chunk) as Hnonneg by (unfold byteLength; lia).
    destruct (frame_split key chunk (up_entropy u) Hchunk)
      as (Hivlen & Hdata & _).
    pose proof (getRandomValues_octets (up_entropy u) 12) as Hivoct.
    unfold encryptBuffer in *.
    destruct (getRandomValues (up_entropy u) 12) as [nonce g'].
    cbn [fst snd buffer_iv buffer_data] in *.
    destruct (view_open_at_send _).
    + eapply IH in Hrun; cycle 1.
      * exact Hk.
      * cbn [up_dc]. cbn -[send_on]. by apply send_on_single.
      * exact Hbuf.
      * cbn [up_off up_buf]. lia.
      * destruct Hrun as (ps & Hsince & Hexit).
        exists ([(nonce, chunk)] ++ ps). split; [|done].
        eapply sent_since_trans; [|exact Hsince].
        unfold sent_since. cbn [up_off up_buf up_dc up_id up_file].
        split.
        { exists dc. split; [done|]. cbn -[send_on].
          by rewrite (send_on_single _ dc). }
        split. { constructor; [|constructor]. by repeat split. }
        split. { cbn. rewrite app_nil_r. exact Htake. }
        repeat split; try done; lia.
    + injection Hrun as <- <- <-. exists [].
      split; [|intros v [=]].
      eapply (sent_since_trans _ _ _ u r _ _ [] []); [by eapply sent_since_refl|].
      unfold sent_since. cbn. rewrite !app_nil_r.
      split. { exists dc. split; [done|]. destruct dc. cbn. by rewrite app_nil_r. }
      repeat split; try done; try lia; by constructor.
Qed.

Lemma sent_since_room key u r u' r1 r' ps :
  sent_since key u r u' r1 ps ->
  dataChannelsRef r' = dataChannelsRef r1 ->
  encryptionKeyRef r' = encryptionKeyRef r1 ->
  sent_since key u r u' r' ps.
Proof.
  intros ((dc & Hdc & Hdc1) & Hrest) Hd Hk. unfold sent_since.
  rewrite Hd, Hk. split; [by exists dc|done].
Qed.

(** One invocation of [sendNext]; it reports completion only with the
    cursor at the end of the buffer. *)
Lemma sendNext_spec env now key u r r' u' o dc :
  sendNext env now u r = (r', u', o) ->
  encryptionKeyRef r = Some key ->
  dataChannelsRef r = [(up_dc u, dc)] ->
  octets (up_buf u) -> 0 <= up_off u <= byteLength (up_buf u) ->
  exists ps,
    sent_since key u r u' r' ps /\
    (o = TransferCompleted -> up_off u' = byteLength (up_buf u)).
Proof.
  intros Hrun Hk Hdc Hbuf Hoff. unfold sendNext in Hrun.
  destruct (view_aborted (env (up_tick u))).
  { injection Hrun as <- <- <-. exists [].
    split; [by eapply sent_since_refl|done]. }
  destruct (send_loop _ _ _ _) as [[r1 u1] e] eqn:Eloop.
  destruct (send_loop_spec _ _ _ _ _ _ _ _ _ Eloop Hk Hdc Hbuf Hoff)
    as (ps & Hsince & Hexit).
  exists ps. destruct e as [v|].
  - specialize (Hexit v eq_refl).
    destruct (view_aborted v) eqn:Hab.
    { injection Hrun as <- <- <-. split; [|done].
      eapply sent_since_room; [exact Hsince|done..]. }
    destruct ((up_off u1 <? byteLength (up_buf u1)) && view_is_open v) eqn:Hmore.
    { injection Hrun as <- <- <-. by split. }
    destruct (view_is_open v) eqn:Hopen.
    + injection Hrun as <- <- <-. split.
      { eapply sent_since_room; [exact Hsince|done..]. }
      intros _. destruct Hsince as (_ & _ & _ & Hb & Heq & _).
      rewrite Heq in Hmore. rewrite andb_true_r in Hmore.
      apply Z.ltb_ge in Hmore. lia.
    + injection Hrun as <- <- <-. split; [|done].
      eapply sent_since_room; [exact Hsince|done..].
  - injection Hrun as <- <- <-. split; [|done].
    eapply sent_since_room; [exact Hsince|done..].
Qed.

Lemma resume_all_spec env now key resumes :
  forall u o r r' u' o' dc,
    resume_all env now resumes u o r = (r', u', o') ->
    encryptionKeyRef r = Some key ->
    dataChannelsRef r = [(up_dc u, dc)] ->
    octets (up_buf u) -> 0 <= up_off u <= byteLength (up_buf u) ->
    (o = TransferCompleted -> up_off u = byteLength (up_buf u)) ->
    exists ps,
      sent_since key u r u' r' ps /\
      (o' = TransferCompleted -> up_off u' = byteLength (up_buf u)).
Proof.
  induction resumes as [|k IH]; intros u o r r' u' o' dc Hrun Hk Hdc Hbuf Hoff Ho.
  - assert ((r, u, o) = (r', u', o')) as Heq by (by destruct o).
    injection Heq as <- <- <-. exists []. split; [by eapply sent_since_refl|done].
  - destruct o; cycle 1.
    + injection Hrun as <- <- <-. exists [].
      split; [by eapply sent_since_refl|done].
    + injection Hrun as <- <- <-. exists [].
      split; [by eapply sent_since_refl|done].
    + cbn [resume_all] in Hrun. unfold resume in Hrun.
      destruct (sendNext _ _ _ _) as [[r1 u1] o1] eqn:Enext.
      destruct (sendNext_spec _ _ key _ _ _ _ _ dc Enext Hk Hdc Hbuf Hoff)
        as (ps1 & Hs1 & Ho1).
      cbn [up_buf] in Ho1.
      pose proof Hs1 as ((dc0 & Hdc0 & Hdc1) & _ & _ & Hoff1 & Hb1 & Hd1 & _ & _ & Hk1).
      cbn [up_dc up_off up_buf] in *.
      rewrite <- Hd1 in Hdc1.
      eapply IH in Hrun; [|exact Hk1|exact Hdc1|by rewrite Hb1
                          |rewrite Hb1; lia|by rewrite Hb1].
      destruct Hrun as (ps2 & Hs2 & Ho2). rewrite Hb1 in Ho2.
      exists (ps1 ++ ps2). split; [|done].
      eapply sent_since_trans; [|exact Hs2].
      destruct Hs1 as (Hd & Hrest). split; [exact Hd|exact Hrest].
Qed.

Lemma send_loop_clear key fuel :
  forall u r,
    encryptionKeyRef r = Some key ->
    octets (up_buf u) -> 0 <= up_off u <= byteLength (up_buf u) ->
    (Z.to_nat (byteLength (up_buf u) - up_off u) <= fuel)%nat ->
    exists r' u',
      send_loop clear_channel fuel u r
        = (r', u', ConditionFalse (clear_channel O)) /\
      up_off u' = byteLength (up_buf u').
Proof.
  induction fuel as [|fuel IH]; intros u r Hk Hbuf Hoff Hfuel.
  - cbn [send_loop]. cbn [clear_channel view_is_open view_readyState
      view_bufferedAmount view_aborted negb].
    destruct (Z.ltb_spec (up_off u) (byteLength (up_buf u))); [lia|].
    cbn [andb]. exists r, u. split; [done|lia].
  - cbn [send_loop]. cbn [clear_channel view_is_open view_readyState
      view_bufferedAmount view_aborted view_open_at_send negb].
    destruct (Z.ltb_spec (up_off u) (byteLength (up_buf u))); cycle 1.
    { cbn [andb]. exists r, u. split; [done|lia]. }
    change (0 <? BUFFER_THRESHOLD) with true. cbn [andb]. rewrite Hk.
    destruct (slice_chunk (up_buf u) (up_off u) Hbuf ltac:(lia))
      as (Hchunk & Hne & Hle & _).
    set (chunk := slice (up_buf u) (up_off u) (up_off u + CHUNK_SIZE)) in *.
    assert (0 < byteLength chunk) as Hpos.
    { unfold byteLength. destruct chunk; [done|]. cbn [length]. lia. }
    destruct (encryptBuffer key chunk (up_entropy u)) as [enc g'].
    apply IH; cbn [up_buf up_off]; try done; try lia.
Qed.

(** On a clear channel every admissible file is sent to the end by the
    first call. *)
Lemma upload_completes now id g f key (sender : Room) dc :
  File_ok f -> file_size f <= MAX_FILE_SIZE ->
  encryptionKeyRef sender = Some key ->
  dataChannelsRef sender = [("peer", dc)] -> is_open dc = true ->
  exists r' u,
    handleFileUpload clear_channel now id g f sender
    = (r', Started u TransferCompleted).
Proof.
  intros [Hsize Hoct] Hmax Hk Hdc Hopen. unfold handleFileUpload. rewrite Hk.
  destruct (Z.ltb_spec MAX_FILE_SIZE (file_size f)); [lia|].
  unfold any_open. cbn -[sendNext]. rewrite Hdc. cbn -[sendNext].
  rewrite Hopen. cbn -[sendNext].
  unfold is_open at 1. cbn [dc_send readyState]. fold (is_open dc). rewrite Hopen.
  unfold sendNext. cbn [clear_channel view_aborted up_tick].
  match goal with |- context [send_loop _ ?n ?u ?r] =>
    destruct (send_loop_clear key n u r) as (r1 & u1 & -> & Hend) end.
  - done.
  - done.
  - cbn [up_off up_buf]. unfold byteLength. lia.
  - cbn [up_off up_buf]. unfold byteLength. lia.
  - cbn [view_aborted clear_channel view_is_open view_readyState].
    destruct (Z.ltb_spec (up_off u1) (byteLength (up_buf u1))); [lia|].
    cbn [andb]. eauto.
Qed.

Lemma concat_nil_nonempty (ps : list (list Z * list Z)) :
  Forall pack_ok ps -> concat ps.*2 = [] -> ps = [].
Proof.
  intros Hps Hnil. destruct ps as [|p ps]; [done|].
  inversion_clear Hps as [|? ? (_ & _ & _ & Hp) _].
  cbn in Hnil. by apply app_eq_nil in Hnil as [? _].
Qed.

(** *** The properties of the transfer *)

(** The frames of a transfer the sender reports completed: the metadata,
    then the chunks of the file in order, each under its nonce. *)
Lemma completed_upload_frames
    (env : nat -> ChannelView) (now : Z) (id : string) (g : entropy)
    (f : File) (resumes : nat) (key : CryptoKey) (sender : Room)
    (dc : RTCDataChannel) (r1 : Room) (u0 : Upload) (o0 : SendOutcome)
    (r' : Room) (u : Upload) :
  File_ok f ->
  encryptionKeyRef sender = Some key ->
  dataChannelsRef sender = [("peer", dc)] ->
  handleFileUpload env now id g f sender = (r1, Started u0 o0) ->
  resume_all env now resumes u0 o0 r1 = (r', u, TransferCompleted) ->
  exists ps,
    dataChannelsRef r' =
      [("peer", {| readyState := readyState dc;
                   sent := sent dc ++ meta_of id f :: map (frame_of key) ps |})] /\
    Forall pack_ok ps /\
    concat ps.*2 = file_arrayBuffer f.
Proof.
  intros [Hsize Hoct] Hk Hdc Hup Hres.
  unfold handleFileUpload in Hup. rewrite Hk in Hup.
  destruct (MAX_FILE_SIZE <? file_size f); [done|].
  unfold any_open in Hup. cbn -[sendNext] in Hup. rewrite Hdc in Hup.
  cbn -[sendNext] in Hup.
  destruct (is_open dc) eqn:Hopen; cbn -[sendNext] in Hup; [|done].
  unfold is_open at 1 in Hup. cbn [dc_send readyState] in Hup.
  fold (is_open dc) in Hup. rewrite Hopen in Hup.
  destruct (sendNext _ _ _ _) as [[r2 u2] o2] eqn:Enext in Hup.
  injection Hup as <- <- <-.
  eapply (sendNext_spec _ _ key) in Enext;
    [|done|cbn; rewrite Hdc; cbn; rewrite Hopen; reflexivity|done|].
  2:{ cbn [up_off up_buf]. unfold byteLength. lia. }
  destruct Enext as (ps1 & Hs1 & Ho1). cbn [up_buf] in Ho1.
  pose proof Hs1 as ((dc0 & Hdc0 & Hdc1) & _ & _ & Hoff1 & Hb1 & Hd1 & _ & _ & Hk1).
  cbn [up_dc up_off up_buf] in *. rewrite <- Hd1 in Hdc1.
  eapply (resume_all_spec _ _ key) in Hres;
    [|exact Hk1|exact Hdc1|by rewrite Hb1|rewrite Hb1; lia|by rewrite Hb1].
  destruct Hres as (ps2 & Hs2 & Ho2). specialize (Ho2 eq_refl).
  pose proof (sent_since_trans _ _ _ _ _ _ _ _ _ Hs1 Hs2)
    as ((dc0' & Hdc0' & Hdc') & Hps & Hcat & _).
  cbn [up_dc up_off up_buf] in *.
  cbn in Hdc0'. rewrite Hdc in Hdc0'. cbn in Hdc0'. rewrite Hopen in Hdc0'.
  injection Hdc0' as <-. cbn [dc_send readyState sent] in Hdc'.
  rewrite Ho2, Hb1 in Hcat. unfold byteLength in Hcat.
  rewrite Nat2Z.id, firstn_all in Hcat.
  change (take (Z.to_nat 0) (file_arrayBuffer f)) with (@nil Z) in Hcat.
  cbn [app] in Hcat.
  exists (ps1 ++ ps2). split.
  { rewrite Hdc'. unfold meta_of. by rewrite <- app_assoc. }
  split; [done|]. done.
Qed.

(** C8. With a key and the peer channel open, a file larger than 100 MiB
    is refused with a toast before anything is passed to [send], and a
    file of exactly 100 MiB is taken: its metadata frame goes out first. *)
Theorem file_size_limit
    (env : nat -> ChannelView) (now : Z) (id : string) (g : entropy)
    (f : File) (key : CryptoKey) (r : Room) (dc : RTCDataChannel) :
  encryptionKeyRef r = Some key ->
  dataChannelsRef r = [("peer", dc)] -> is_open dc = true ->
  File_ok f ->
  MAX_FILE_SIZE = 104857600 /\
  (MAX_FILE_SIZE < file_size f ->
     exists r', handleFileUpload env now id g f r = (r', TooLarge) /\
                r' = showToast "文件过大，最大支持 100MB" error r /\
                dataChannelsRef r' = dataChannelsRef r) /\
  (file_size f = MAX_FILE_SIZE ->
     exists r' u o rest,
       handleFileUpload env now id g f r = (r', Started u o) /\
       dataChannelsRef r' =
         [("peer", {| readyState := readyState dc;
                      sent := sent dc ++ meta_of id f :: rest |})]).
Proof.
  intros Hk Hdc Hopen [Hsize Hoct]. split; [reflexivity|]. split.
  - intros Hbig. unfold handleFileUpload. rewrite Hk.
    destruct (Z.ltb_spec MAX_FILE_SIZE (file_size f)); [|lia].
    eexists. split; [reflexivity|]. split; reflexivity.
  - intros Hmax. unfold handleFileUpload. rewrite Hk.
    destruct (Z.ltb_spec MAX_FILE_SIZE (file_size f)); [lia|].
    unfold any_open. cbn -[sendNext]. rewrite Hdc. cbn -[sendNext].
    rewrite Hopen. cbn -[sendNext].
    unfold is_open at 1. cbn [dc_send readyState]. fold (is_open dc).
    rewrite Hopen.
    destruct (sendNext _ _ _ _) as [[r2 u2] o2] eqn:Enext.
    eapply (sendNext_spec _ _ key) in Enext;
      [|done|cbn; rewrite Hdc; cbn; rewrite Hopen; reflexivity|done|].
    2:{ cbn [up_off up_buf]. unfold byteLength. lia. }
    destruct Enext as (ps & ((dc0 & Hdc0 & Hdc1) & _) & _).
    cbn in Hdc0. rewrite Hdc in Hdc0. cbn in Hdc0. rewrite Hopen in Hdc0.
    injection Hdc0 as <-. cbn [dc_send readyState sent up_dc] in Hdc1.
    exists r2, u2, o2, (map (frame_of key) ps). split; [done|].
    rewrite Hdc1. unfold meta_of. by rewrite <- app_assoc.
Qed.

(** C10. A binary frame that arrives while no assembly is open is
    dropped: the handler returns at once, without a call to decrypt and
    without touching any state, the toast included. *)
Theorem binary_frame_without_assembly
    (id : string) (now : Z) (d : list Z) (r : Room) :
  receivingRef r = None ->
  onmessage id now (BinaryFrame d) r = (r, []).
Proof. intros Hnone. cbn. unfold handleFileChunkReceive. by rewrite Hnone. Qed.

End Room.

(** *** A session under the stand-in cipher *)

#[local] Existing Instance ToyFacts.web_crypto.

Module Demo.

Definition percent (done total : Z) : Z := Z.min 100 (done * 100 / total).

(** A room with key 7 and the peer channel open. *)
Definition room : @Room ToyFacts.web_crypto :=
  {| encryptionKeyRef := Some 7; receivingRef := None; files := [];
     messages := []; blobUrlsRef := []; toast := None; participants := [];
     dataChannelsRef := [("peer", {| readyState := open; sent := [] |})];
     abortControllerRef := None; exited := false |}.

Definition small_file : File :=
  {| file_name := "a.bin"; file_size := 3; file_type := "application/octet-stream";
     file_arrayBuffer := [1; 2; 3] |}.

(** A file of [size] zero octets. *)
Definition zeros (size : Z) : File :=
  {| file_name := "zeros"; file_size := size; file_type := "application/octet-stream";
     file_arrayBuffer := replicate (Z.to_nat size) 0 |}.

Lemma small_file_ok : File_ok small_file.
Proof.
  split; [reflexivity|]. unfold octets, is_byte. cbn.
  repeat constructor; lia.
Defined.

Lemma zeros_ok size : 0 <= size -> File_ok (zeros size).
Proof.
  intros Hsize. split.
  - cbn [zeros file_size file_arrayBuffer]. rewrite length_replicate. lia.
  - cbn [zeros file_arrayBuffer]. apply Forall_replicate. unfold is_byte. lia.
Defined.

End Demo.

(** A file of 100 MiB and a file of 100 MiB and one octet. *)
Lemma file_size_limit_witness :
  (exists r',
      handleFileUpload Demo.percent "alice" clear_channel 0 "f1" 0
        (Demo.zeros 104857601) Demo.room = (r', TooLarge) /\
      r' = showToast "文件过大，最大支持 100MB" error Demo.room /\
      dataChannelsRef r' = dataChannelsRef Demo.room) /\
  (exists r' u o rest,
      handleFileUpload Demo.percent "alice" clear_channel 0 "f1" 0
        (Demo.zeros 104857600) Demo.room = (r', Started u o) /\
      dataChannelsRef r' =
        [("peer", {| readyState := open;
                     sent := [] ++ meta_of "f1" (Demo.zeros 104857600) :: rest |})]).
Proof.
  split.
  - apply (@file_size_limit ToyFacts.web_crypto Demo.percent "alice"
             clear_channel 0 "f1" 0 (Demo.zeros 104857601) 7 Demo.room
             {| readyState := open; sent := [] |} eq_refl eq_refl eq_refl
             (Demo.zeros_ok 104857601 ltac:(lia))).
    cbn [Demo.zeros file_size]. unfold MAX_FILE_SIZE. lia.
  - apply (@file_size_limit ToyFacts.web_crypto Demo.percent "alice"
             clear_channel 0 "f1" 0 (Demo.zeros 104857600) 7 Demo.room
             {| readyState := open; sent := [] |} eq_refl eq_refl eq_refl
             (Demo.zeros_ok 104857600 ltac:(lia))).
    reflexivity.
Defined.

(** A binary frame delivered to [Demo.room], which has no assembly open. *)
Lemma binary_frame_without_assembly_witness :
  receivingRef Demo.room = None /\
  onmessage Demo.percent "peer" 0 (BinaryFrame [1; 2; 3]) Demo.room = (Demo.room, []).
Proof.
  split; [reflexivity|].
  exact (@binary_frame_without_assembly ToyFacts.web_crypto Demo.percent
           "peer" 0 [1; 2; 3] Demo.room eq_refl).
Defined.

End Transfer.

(** ** components/Room.tsx: the receiving side on the event loop

    [dc.onmessage] is an [async] function and does not wait for
    [handleFileChunkReceive]: a handler runs until its [await] and goes on
    when the awaited promise has settled, and other handlers run in
    between. Here every [await] of the handlers is a point where a handler
    stops, and the order in which the promises settle is free. *)

Module Delivery.
Import Encoding Crypto Transfer.

Section Loop.
Context `{WebCrypto}.
Variable percent : Z -> Z -> Z.

(** A handler stopped at its [await], with what its closure holds:
    - [DecryptBuffer s key d]: [handleFileChunkReceive(d)] at
      [await decryptBuffer(...)]; [s] is the object it read from
      [receivingRef.current], known by its address, and [key] what it read
      from [encryptionKeyRef.current];
    - [DecryptMessage key data iv]: the handler of a chat frame at
      [await decryptMessage(...)];
    - [DeleteRow]: [handleManualExit] at the [await] of the deletion. *)
Inductive Waiting :=
| DecryptBuffer (s : nat) (key : option CryptoKey) (d : list Z)
| DecryptMessage (key : CryptoKey) (data iv : list Z)
| DeleteRow.

(** The receiving side: the refs and state of [Room], the
    [ReceivingFileState] objects created so far, the one
    [receivingRef.current] refers to, and the handlers that wait.
    [handleFileMetaReceive] creates an object, and a waiting handler keeps
    the one it read, whatever [receivingRef.current] has become: on the
    loop the reference is [receiving], and [receivingRef] of [room], which
    holds a value, is not used. *)
Record Inbox := {
  room : Room;
  objects : list ReceivingFileState;
  receiving : option nat;
  waiting : list Waiting
}.

Definition with_room (g : Room -> Room) (l : Inbox) : Inbox :=
  {| room := g (room l); objects := objects l; receiving := receiving l;
     waiting := waiting l |}.

Definition set_objects (v : list ReceivingFileState) (l : Inbox) : Inbox :=
  {| room := room l; objects := v; receiving := receiving l;
     waiting := waiting l |}.

Definition set_receiving (v : option nat) (l : Inbox) : Inbox :=
  {| room := room l; objects := objects l; receiving := v;
     waiting := waiting l |}.

Definition set_waiting (v : list Waiting) (l : Inbox) : Inbox :=
  {| room := room l; objects := objects l; receiving := receiving l;
     waiting := v |}.

(** [handleFileMetaReceive(m)]: a new object, to which
    [receivingRef.current] refers from now on. *)
Definition handleFileMetaReceive (id name : string) (size : Z)
    (mimeType : string) (l : Inbox) : Inbox :=
  {| room :=
       set_files
         ({| ft_id := id; ft_name := name; ft_size := size; ft_progress := 0;
             ft_status := transferring; ft_mimeType := mimeType |}
            :: files (room l)) (room l);
     objects :=
       objects l ++ [{| rf_id := id; rf_name := name; rf_size := size;
                        rf_received := 0; rf_chunks := [];
                        rf_mimeType := mimeType |}];
     receiving := Some (length (objects l));
     waiting := waiting l |}.

(** [handleFileChunkReceive(d)] up to its [await]. *)
Definition handleFileChunkReceive (d : list Z) (l : Inbox) : Inbox :=
  match receiving l with
  | None => l
  | Some s =>
      set_waiting (waiting l ++ [DecryptBuffer s (encryptionKeyRef (room l)) d]) l
  end.

(** [handleFileChunkReceive] from its [await] on, once [decryptBuffer]
    has settled; [now] is the value of [Date.now()]. The chunk is pushed
    into the object the handler read, and [receivingRef.current] is set to
    null at the end of that object, or in the [catch] block. *)
Definition chunk_decrypted (now : Z) (s : nat) (key : option CryptoKey)
    (d : list Z) (l : Inbox) : Inbox :=
  match key ≫= (fun key => decryptBuffer key (drop 12 d) (take 12 d)) with
  | None => set_receiving None l
  | Some dec =>
      match objects l !! s with
      | None => l
      | Some o =>
          let o' := {| rf_id := rf_id o; rf_name := rf_name o;
                       rf_size := rf_size o;
                       rf_received := rf_received o + Z.of_nat (length dec);
                       rf_chunks := rf_chunks o ++ [dec];
                       rf_mimeType := rf_mimeType o |} in
          let l1 :=
            with_room
              (update_file (rf_id o')
                 (with_progress (percent (rf_received o') (rf_size o'))))
              (set_objects (<[s := o']> (objects l)) l) in
          if rf_size o' <=? rf_received o' then
            let url := {| blob_parts := rf_chunks o';
                          blob_type := rf_mimeType o' |} in
            let msg := {| cm_id := rf_id o'; cm_senderId := "peer";
                          cm_senderName := "对方"; cm_text := None;
                          cm_blobUrl := Some url;
                          cm_fileName := Some (rf_name o');
                          cm_type := message_type_of (rf_mimeType o');
                          cm_timestamp := now |} in
            set_receiving None
              (with_room
                 (fun r =>
                    update_file (rf_id o') (with_status completed)
                      (set_messages (messages r ++ [msg])
                         (set_blobUrls (blobUrlsRef r ++ [url]) r))) l1)
          else l1
      end
  end.

(** [dc.onmessage] as installed by [setupDC(id, dc)], up to the first
    [await] of the handler it runs. *)
Definition onmessage (id : string) (f : frame) (l : Inbox) : Inbox :=
  match f with
  | TextFrame Unparsable => l
  | TextFrame (Chat data iv) =>
      match encryptionKeyRef (room l) with
      | Some key => set_waiting (waiting l ++ [DecryptMessage key data iv]) l
      | None => l
      end
  | TextFrame (PrivacyUpdate _ audioEnabled videoEnabled) =>
      with_room
        (fun r =>
           set_participants
             (map (fun p =>
                     if String.eqb (p_id p) id
                     then {| p_id := p_id p; p_name := p_name p;
                             p_isLocal := p_isLocal p;
                             p_audioEnabled := audioEnabled;
                             p_videoEnabled := videoEnabled |}
                     else p) (participants r)) r) l
  | TextFrame (FileMeta fid name size mimeType) =>
      handleFileMetaReceive fid name size mimeType l
  | TextFrame (FileAbort fid) =>
      with_room
        (fun r => update_file fid (with_status failed)
                    (showToast "文件传输取消" error r)) l
  | TextFrame SessionTerminate =>
      set_waiting (waiting l ++ [DeleteRow])
        (with_room (send_to_open (TextFrame SessionTerminate)) l)
  | TextFrame (OtherType _) => l
  | BinaryFrame d => handleFileChunkReceive d l
  end.

(** A handler goes on from its [await]. *)
Definition resumed (id : string) (now : Z) (w : Waiting) (l : Inbox) : Inbox :=
  match w with
  | DecryptBuffer s key d => chunk_decrypted now s key d l
  | DecryptMessage key data iv =>
      match decryptMessage key data iv with
      | Some t =>
          with_room
            (fun r =>
               set_messages
                 (messages r ++
                    [{| cm_id := pretty now; cm_senderId := id;
                        cm_senderName := "对方"; cm_text := Some t;
                        cm_blobUrl := None; cm_fileName := None;
                        cm_type := text; cm_timestamp := now |}]) r) l
      | None => l
      end
  | DeleteRow =>
      set_receiving None (with_room (fun r => set_exited true (cleanupResources r)) l)
  end.

(** What happens on the loop: a message event of the channel, its
    handler installed, or the promise awaited by the [k]-th waiting
    handler settles, at time [now]. *)
Inductive occurrence :=
| Arrives (f : frame)
| Settles (now : Z) (k : nat).

Definition occur (id : string) (o : occurrence) (l : Inbox) : Inbox :=
  match o with
  | Arrives f => onmessage id f l
  | Settles now k =>
      match waiting l !! k with
      | Some w => resumed id now w (set_waiting (delete k (waiting l)) l)
      | None => l
      end
  end.

Definition deliver (id : string) (os : list occurrence) (l : Inbox) : Inbox :=
  foldl (fun l o => occur id o l) l os.

(** The frames that arrive, in order. *)
Definition frames (os : list occurrence) : list frame :=
  omap (fun o => match o with Arrives f => Some f | Settles _ _ => None end) os.

(** A frame that touches no assembly and does not end the session: every
    text frame but file-meta and session-terminate. *)
Definition benign (f : frame) : bool :=
  match f with
  | TextFrame (FileMeta _ _ _ _) | TextFrame SessionTerminate | BinaryFrame _ => false
  | TextFrame _ => true
  end.

Definition is_DecryptBuffer (w : Waiting) : bool :=
  match w with DecryptBuffer _ _ _ => true | _ => false end.

Definition is_DecryptMessage (w : Waiting) : bool :=
  match w with DecryptMessage _ _ _ => true | _ => false end.

(** The [k]-th waiting handler, when it waits for the decryption of a
    chunk, is the one that has waited longest for one. *)
Definition oldest_chunk (k : nat) (l : Inbox) : bool :=
  match waiting l !! k with
  | Some (DecryptBuffer _ _ _) =>
      forallb (fun w => negb (is_DecryptBuffer w)) (take k (waiting l))
  | _ => true
  end.

(** The decryptions of the chunks settle in the order in which their
    frames arrived. *)
Fixpoint in_arrival_order (id : string) (os : list occurrence) (l : Inbox) : bool :=
  match os with
  | [] => true
  | o :: rest =>
      match o with
      | Settles _ k => oldest_chunk k l
      | Arrives _ => true
      end && in_arrival_order id rest (occur id o l)
  end.

(** A message that carries no blob. *)
Definition plain_message (m : ChatMessage) : Prop := cm_blobUrl m = None.

(** The room as [Transfer] has it: [receivingRef.current] is the object
    referred to. *)
Definition seen (l : Inbox) : Room :=
  Transfer.set_receiving (receiving l ≫= (objects l !!.)) (room l).

(** Every promise settles before the next frame arrives. *)
Definition at_once (fs : list (Z * frame)) : list occurrence :=
  flat_map (fun '(now, f) => [Arrives f; Settles now 0]) fs.

End Loop.

Section Facts.
Context `{WebCrypto}.
Variable percent : Z -> Z -> Z.

(** The wire form of a chunk is taken apart as it was put together. *)
Lemma frame_of_decrypts key p :
  pack_ok p ->
  exists d, frame_of key p = BinaryFrame d /\
            take 12 d = p.1 /\ drop 12 d = subtle_encrypt key p.1 p.2 /\
            decryptBuffer key (drop 12 d) (take 12 d) = Some p.2.
Proof.
  intros (Hlen & Hiv & Hpt & _). destruct p as [nonce chunk]. cbn [fst snd] in *.
  exists (nonce ++ subtle_encrypt key nonce chunk). split; [reflexivity|].
  assert (take 12 (nonce ++ subtle_encrypt key nonce chunk) = nonce) as ->
    by (rewrite <- Hlen; apply take_app_length).
  assert (drop 12 (nonce ++ subtle_encrypt key nonce chunk)
          = subtle_encrypt key nonce chunk) as ->
    by (rewrite <- Hlen; apply drop_app_length).
  repeat split. unfold decryptBuffer. by apply subtle_decrypt_encrypt.
Qed.

(** One frame with its promise settled at once is one frame handled to
    completion. *)
Lemma onmessage_at_once id now f l :
  waiting l = [] ->
  let l' := occur percent id (Settles now 0) (occur percent id (Arrives f) l) in
  waiting l' = [] /\ seen l' = (Transfer.onmessage percent id now f (seen l)).1.
Proof.
  intros Hw. destruct l as [r os rcv ws]. cbn in Hw. subst ws.
  destruct f as [p|d].
  - destruct p as [data iv|filter a v|fid name size mime|fid| | |]; cbn.
    + destruct (encryptionKeyRef r) as [key|] eqn:Ek; cbn; [|done].
      destruct (decryptMessage key data iv); cbn; done.
    + done.
    + split; [done|]. unfold seen. cbn.
      rewrite lookup_app_r by done. by rewrite Nat.sub_diag.
    + done.
    + done.
    + done.
    + done.
  - cbn. unfold handleFileChunkReceive, Transfer.handleFileChunkReceive. cbn.
    destruct rcv as [a|]; cbn; [|done].
    destruct (os !! a) as [o|] eqn:Eo; cbn.
    + unfold chunk_decrypted. cbn.
      destruct (encryptionKeyRef r) as [key|] eqn:Ek; cbn; [|done].
      destruct (decryptBuffer key (drop 12 d) (take 12 d)) as [dec|]; cbn; [|done].
      rewrite Eo.
      destruct (rf_size o <=? rf_received o + Z.of_nat (length dec)); cbn.
      * done.
      * split; [done|]. unfold seen. cbn. rewrite list_lookup_insert_eq; [done|].
        by eapply lookup_lt_Some.
    + unfold chunk_decrypted. cbn.
      destruct (encryptionKeyRef r ≫= _) as [dec|]; cbn;
        [|split; [done|]; unfold seen; cbn; by rewrite Eo].
      rewrite Eo. split; [done|]. unfold seen. cbn. by rewrite Eo.
Qed.

(** [Transfer.deliver] is the loop on which every promise settles before
    the next frame arrives. *)
Lemma deliver_at_once id fs :
  forall l,
    waiting l = [] ->
    waiting (deliver percent id (at_once fs) l) = [] /\
    seen (deliver percent id (at_once fs) l)
    = (Transfer.deliver percent id fs (seen l)).1.
Proof.
  induction fs as [|[now f] fs IH]; intros l Hw; [done|].
  change (deliver percent id (at_once ((now, f) :: fs)) l)
    with (deliver percent id (at_once fs)
            (occur percent id (Settles now 0) (occur percent id (Arrives f) l))).
  destruct (onmessage_at_once id now f l Hw) as [Hw1 Hseen].
  destruct (IH _ Hw1) as [Hw2 Hrest].
  split; [done|]. rewrite Hrest, Hseen. cbn [Transfer.deliver].
  destruct (Transfer.onmessage percent id now f (seen l)) as [r1 ev1].
  cbn [fst]. by destruct (Transfer.deliver percent id fs r1) as [r2 ev2].
Qed.

Lemma total_length_app ps qs :
  total_length (ps ++ qs) = total_length ps + total_length qs.
Proof.
  unfold total_length. rewrite fmap_app, concat_app, length_app. lia.
Qed.

Lemma total_length_take ps j p :
  ps !! j = Some p ->
  total_length (take (S j) ps) = total_length (take j ps) + Z.of_nat (length p.2).
Proof.
  intros Hp. rewrite (take_S_r _ _ _ Hp), total_length_app.
  unfold total_length at 2. cbn. rewrite app_nil_r. lia.
Qed.

Lemma total_length_take_lt ps j :
  Forall pack_ok ps -> (j < length ps)%nat ->
  total_length (take j ps) < total_length ps.
Proof.
  intros Hps Hj. rewrite <- (take_drop j ps) at 2. rewrite total_length_app.
  enough (0 < total_length (drop j ps)) by lia.
  apply total_length_pos; [by apply Forall_drop|].
  intros Hnil. apply (f_equal length) in Hnil. rewrite length_drop in Hnil.
  cbn in Hnil. lia.
Qed.

Lemma filter_waiting_delete (P : Waiting -> bool) k w (ws : list Waiting) :
  ws !! k = Some w ->
  List.filter P ws
  = List.filter P (take k ws) ++ (if P w then [w] else [])
      ++ List.filter P (drop (S k) ws) /\
  List.filter P (delete k ws)
  = List.filter P (take k ws) ++ List.filter P (drop (S k) ws).
Proof.
  intros Hk. split.
  - rewrite <- (take_drop_middle ws k w Hk) at 1.
    rewrite List.filter_app. cbn [List.filter]. by destruct (P w).
  - rewrite delete_take_drop. by rewrite List.filter_app.
Qed.

Lemma filter_none {A} (P : A -> bool) (xs : list A) :
  forallb (fun x => negb (P x)) xs = true -> List.filter P xs = [].
Proof.
  induction xs as [|x xs IH]; [done|]. cbn. intros Hx.
  apply andb_true_iff in Hx as [Hx Hxs]. apply negb_true_iff in Hx.
  rewrite Hx. by apply IH.
Qed.

Section Assembly.

(** One transfer: the identifier of the channel, the key, the
    metadata and the chunks with their nonces. *)
Variables (id : string) (key : CryptoKey).
Variables (tid name : string) (size : Z) (mime : string).
Variable ps : list (list Z * list Z).
Hypothesis ps_ok : Forall pack_ok ps.
Hypothesis size_ps : total_length ps = size.

(** The messages added since [base]: text messages only, or, once the
    file is there, text messages and the one message with its blob. *)
Definition added_so_far (finished : bool) (base current : list ChatMessage) : Prop :=
  exists added, current = base ++ added /\
    if finished then
      exists before msg after,
        added = before ++ msg :: after /\
        cm_id msg = tid /\
        cm_blobUrl msg = Some {| blob_parts := ps.*2; blob_type := mime |} /\
        Forall plain_message (before ++ after)
    else Forall plain_message added.

(** No transfer is under way: only handlers of chat frames wait. *)
Definition idle (base : list ChatMessage) (l : Inbox) : Prop :=
  encryptionKeyRef (room l) = Some key /\
  forallb is_DecryptMessage (waiting l) = true /\
  added_so_far false base (messages (room l)).

Definition finished (j : nat) : bool :=
  bool_decide (j = length ps) && negb (bool_decide (ps = [])).

(** The transfer is under way: [i] of its chunks have arrived, [j] of
    them are in the object at [a], the handlers of the others wait in the
    order of arrival. *)
Definition assembling (base : list ChatMessage) (a i j : nat) (l : Inbox) : Prop :=
  encryptionKeyRef (room l) = Some key /\
  forallb (fun w => is_DecryptMessage w || is_DecryptBuffer w) (waiting l) = true /\
  List.filter is_DecryptBuffer (waiting l)
  = (fun p => DecryptBuffer a (Some key) (p.1 ++ subtle_encrypt key p.1 p.2))
      <$> drop j (take i ps) /\
  (j <= i <= length ps)%nat /\
  objects l !! a
  = Some {| rf_id := tid; rf_name := name; rf_size := size;
            rf_received := total_length (take j ps);
            rf_chunks := (take j ps).*2; rf_mimeType := mime |} /\
  receiving l = (if finished j then None else Some a) /\
  added_so_far (finished j) base (messages (room l)).

(** What is still to arrive of the transfer, and where the receiver is. *)
Definition progress (base : list ChatMessage) (rest : list frame) (l : Inbox) : Prop :=
  (rest = TextFrame (FileMeta tid name size mime) :: map (frame_of key) ps /\
   idle base l) \/
  (exists a i j, rest = map (frame_of key) (drop i ps) /\ assembling base a i j l).

Lemma added_so_far_text b base r (g : ChatMessage) :
  cm_blobUrl g = None ->
  added_so_far b base (messages r) -> added_so_far b base (messages r ++ [g]).
Proof.
  intros Hg (added & -> & Hadded). exists (added ++ [g]).
  split; [by rewrite app_assoc|]. destruct b.
  - destruct Hadded as (before & msg & after & -> & Hid & Hblob & Hplain).
    exists before, msg, (after ++ [g]). split; [by rewrite <- app_assoc|].
    split; [done|]. split; [done|].
    rewrite app_assoc. apply Forall_app. split; [done|]. by constructor.
  - apply Forall_app. split; [done|]. by constructor.
Qed.

Lemma forallb_delete {A} (P : A -> bool) k (xs : list A) :
  forallb P xs = true -> forallb P (delete k xs) = true.
Proof.
  revert k. induction xs as [|y xs IH]; intros [|k]; cbn; try done.
  - intros Hxs. by apply andb_true_iff in Hxs as [_ ?].
  - intros Hxs. apply andb_true_iff in Hxs as [Hy Hxs]. by rewrite Hy, IH.
Qed.

Lemma forallb_snoc {A} (P : A -> bool) (xs : list A) x :
  forallb P xs = true -> P x = true -> forallb P (xs ++ [x]) = true.
Proof. intros Hxs Hx. rewrite forallb_app. cbn. by rewrite Hxs, Hx. Qed.

Lemma finished_before j : (j < length ps)%nat -> finished j = false.
Proof.
  intros Hj. unfold finished. rewrite bool_decide_eq_false_2 by lia. done.
Qed.

Lemma finished_at_end : ps <> [] -> finished (length ps) = true.
Proof.
  intros Hne. unfold finished.
  by rewrite bool_decide_eq_true_2, bool_decide_eq_false_2.
Qed.

(** A frame that is not of the transfer leaves it where it is. *)
Lemma benign_progress base rest f l :
  benign f = true -> progress base rest l -> progress base rest (onmessage id f l).
Proof.
  intros Hf Hl. destruct f as [p|d]; [|done].
  destruct p as [data iv| | | | | |]; try done; cbn [onmessage];
    try (destruct Hl as [(-> & Hk & Hw & Hm)|(a & i & j & -> & Hk & Hw & Hrest)];
         [by left|right; by exists a, i, j]).
  destruct Hl as [(-> & Hk & Hw & Hm)|(a & i & j & -> & Hk & Hw & Hrest)].
  - left. split; [done|]. rewrite Hk. split; [done|]. split; [|done].
    cbn. by apply forallb_snoc.
  - right. exists a, i, j. split; [done|]. rewrite Hk.
    split; [done|]. split; [cbn; by apply forallb_snoc|].
    destruct Hrest as (Hf' & Hrest). split; [|done].
    cbn. rewrite List.filter_app. cbn. by rewrite app_nil_r.
Qed.

(** The metadata opens the assembly. *)
Lemma meta_progress base l :
  idle base l ->
  assembling base (length (objects l)) 0 0
    (onmessage id (TextFrame (FileMeta tid name size mime)) l).
Proof.
  intros (Hk & Hw & Hm). cbn [onmessage]. unfold handleFileMetaReceive, assembling.
  cbn [room objects receiving waiting].
  split; [done|]. split.
  { rewrite forallb_forall in *. intros w Hin. by rewrite (Hw w Hin). }
  split.
  { cbn. apply filter_none. rewrite forallb_forall in *. intros w Hin.
    specialize (Hw w Hin). by destruct w. }
  split; [lia|]. split.
  { rewrite lookup_app_r by lia. by rewrite Nat.sub_diag. }
  assert (finished 0 = false) as ->.
  { unfold finished. destruct ps; [by rewrite andb_false_r|done]. }
  done.
Qed.

(** A chunk that arrives waits for its decryption, behind the others. *)
Lemma chunk_progress base a i j p l :
  ps !! i = Some p -> assembling base a i j l ->
  assembling base a (S i) j (onmessage id (frame_of key p) l).
Proof.
  intros Hp (Hk & Hw & Hf & Hij & Ho & Hr & Hm).
  pose proof (lookup_lt_Some _ _ _ Hp) as Hi.
  rewrite finished_before in Hr, Hm by lia.
  unfold frame_of. cbn [onmessage]. unfold handleFileChunkReceive. rewrite Hr, Hk.
  unfold assembling. cbn [room objects receiving waiting set_waiting].
  split; [done|]. split; [by apply forallb_snoc|]. split.
  { rewrite List.filter_app, Hf. cbn.
    rewrite (take_S_r _ _ _ Hp), drop_app_le by (rewrite length_take; lia).
    by rewrite fmap_app. }
  split; [lia|]. split; [done|]. by rewrite finished_before by lia.
Qed.

(** The decryption of a chat frame settles. *)
Lemma chat_settled b base now k' data iv (r : Room) :
  added_so_far b base (messages r) ->
  added_so_far b base
    (messages
       (match decryptMessage k' data iv with
        | Some t =>
            Transfer.set_messages
              (messages r ++
                 [{| cm_id := pretty now; cm_senderId := id;
                     cm_senderName := "对方"; cm_text := Some t;
                     cm_blobUrl := None; cm_fileName := None;
                     cm_type := text; cm_timestamp := now |}]) r
        | None => r
        end)).
Proof.
  intros Hm. destruct (decryptMessage k' data iv); [|done].
  cbn [messages Transfer.set_messages]. by apply added_so_far_text.
Qed.

(** The decryption of the oldest waiting chunk settles: the chunk is the
    next of the file, and with the last one the blob is handed over. *)
Lemma oldest_chunk_settled base a i j now k l s k' d :
  assembling base a i j l ->
  waiting l !! k = Some (DecryptBuffer s k' d) -> oldest_chunk k l = true ->
  assembling base a i (S j)
    (chunk_decrypted percent now s k' d (set_waiting (delete k (waiting l)) l)).
Proof.
  intros (Hk & Hw & Hf & Hij & Ho & Hr & Hm) Hwk Hold.
  unfold oldest_chunk in Hold. rewrite Hwk in Hold.
  destruct (filter_waiting_delete is_DecryptBuffer k _ _ Hwk) as [Hall Hdel].
  rewrite (filter_none _ _ Hold) in Hall, Hdel. cbn [app is_DecryptBuffer] in Hall, Hdel.
  rewrite Hf in Hall.
  destruct (drop j (take i ps)) as [|p tl] eqn:Hdrop; [done|].
  cbn [fmap list_fmap] in Hall. injection Hall as Hs Hk' Hd Htl.
  subst s k' d.
  assert (take i ps !! j = Some p) as Hpj.
  { rewrite <- (Nat.add_0_r j), <- lookup_drop. by rewrite Hdrop. }
  assert (j < i)%nat as Hji.
  { apply lookup_lt_Some in Hpj. rewrite length_take in Hpj. lia. }
  rewrite lookup_take_lt in Hpj by done.
  assert (tl = drop (S j) (take i ps)) as ->.
  { rewrite <- (Nat.add_1_r j), <- drop_drop, Hdrop. done. }
  assert (pack_ok p) as Hp.
  { rewrite Forall_forall in ps_ok. apply ps_ok. by eapply list_elem_of_lookup_2. }
  destruct (frame_of_decrypts key p Hp) as (d & Hd & _ & _ & Hdec).
  injection Hd as <-.
  rewrite finished_before in Hr, Hm by lia.
  unfold chunk_decrypted. cbn [mbind option_bind]. rewrite Hdec.
  cbn [objects set_waiting]. rewrite Ho.
  cbn [rf_id rf_name rf_size rf_received rf_chunks rf_mimeType].
  rewrite <- (total_length_take ps j p Hpj).
  assert ((take j ps).*2 ++ [p.2] = (take (S j) ps).*2) as ->.
  { by rewrite (take_S_r _ _ _ Hpj), fmap_app. }
  assert (a < length (objects l))%nat as Ha by (by eapply lookup_lt_Some).
  destruct (decide (S j = length ps)) as [Hlast|Hmore].
  - assert ((size <=? total_length (take (S j) ps)) = true) as ->.
    { apply Z.leb_le. rewrite Hlast, firstn_all. lia. }
    assert (ps <> []) as Hne by (intros ->; cbn in Hlast; lia).
    unfold assembling.
    cbn [room objects receiving waiting set_receiving with_room set_objects
         set_waiting].
    split; [done|]. split; [by apply forallb_delete|].
    split; [by rewrite Hdel, <- Htl|]. split; [lia|].
    split; [by rewrite list_lookup_insert_eq|].
    rewrite Hlast, finished_at_end by done. split; [done|].
    cbn [messages update_file Transfer.set_files Transfer.set_messages
         Transfer.set_blobUrls].
    destruct Hm as (added & -> & Hplain).
    exists (added ++ [{| cm_id := tid; cm_senderId := "peer";
                         cm_senderName := "对方"; cm_text := None;
                         cm_blobUrl := Some {| blob_parts := (take (length ps) ps).*2;
                                               blob_type := mime |};
                         cm_fileName := Some name;
                         cm_type := message_type_of mime;
                         cm_timestamp := now |}]).
    split; [by rewrite app_assoc|].
    eexists added, _, []. split; [reflexivity|]. cbn [cm_id cm_blobUrl].
    split; [done|]. split; [by rewrite firstn_all|]. by rewrite app_nil_r.
  - assert ((size <=? total_length (take (S j) ps)) = false) as ->.
    { apply Z.leb_gt. rewrite <- size_ps. apply total_length_take_lt; [done|lia]. }
    unfold assembling.
    cbn [room objects receiving waiting set_receiving with_room set_objects
         set_waiting].
    split; [done|]. split; [by apply forallb_delete|].
    split; [by rewrite Hdel, <- Htl|]. split; [lia|].
    split; [by rewrite list_lookup_insert_eq|].
    rewrite finished_before by lia. done.
Qed.

Lemma settle_progress base rest now k l :
  progress base rest l -> oldest_chunk k l = true ->
  progress base rest (occur percent id (Settles now k) l).
Proof.
  intros Hl Hold. cbn [occur].
  destruct (waiting l !! k) as [w|] eqn:Hwk; [|done].
  destruct Hl as [(-> & Hk & Hw & Hm)|(a & i & j & -> & Hl)].
  - left. split; [done|].
    assert (is_DecryptMessage w = true) as Hchat.
    { rewrite forallb_forall in Hw. apply Hw.
      apply list_elem_of_In. by eapply list_elem_of_lookup_2. }
    destruct w as [| k' data iv |]; try done. cbn [resumed].
    split; [by destruct (decryptMessage k' data iv)|].
    split.
    { assert (forallb is_DecryptMessage (delete k (waiting l)) = true)
        by (by apply forallb_delete).
      by destruct (decryptMessage k' data iv). }
    pose proof (chat_settled false base now k' data iv (room l) Hm) as Hm'.
    by destruct (decryptMessage k' data iv).
  - right. destruct w as [s k' d| k' data iv |].
    + destruct (decide (S j <= i)%nat) as [Hji|Hji].
      * exists a, i, (S j). split; [|by apply oldest_chunk_settled].
        done.
      * exfalso. destruct Hl as (_ & _ & Hf & Hij & _).
        assert (drop j (take i ps) = []) as Hnil
          by (apply drop_ge; rewrite length_take; lia).
        rewrite Hnil in Hf. cbn in Hf.
        destruct (filter_waiting_delete is_DecryptBuffer k _ _ Hwk) as [Hall _].
        rewrite Hf in Hall. cbn in Hall. by destruct (List.filter _ (take k _)).
    + exists a, i, j. split; [done|].
      destruct Hl as (Hk & Hw & Hf & Hij & Ho & Hr & Hm). cbn [resumed].
      pose proof (chat_settled _ base now k' data iv (room l) Hm) as Hm'.
      destruct (filter_waiting_delete is_DecryptBuffer k _ _ Hwk) as [Hall Hdel].
      cbn [is_DecryptBuffer app] in Hall.
      assert (forallb (fun w => is_DecryptMessage w || is_DecryptBuffer w)
                (delete k (waiting l)) = true) as Hw' by (by apply forallb_delete).
      unfold assembling.
      destruct (decryptMessage k' data iv);
        cbn [room objects receiving waiting with_room set_waiting] in *;
        (split; [done|]; split; [done|]; split; [by rewrite Hdel, <- Hall|]; done).
    + exfalso. destruct Hl as (_ & Hw & _).
      rewrite forallb_forall in Hw.
      assert (In DeleteRow (waiting l)) as Hin
        by (apply list_elem_of_In; by eapply list_elem_of_lookup_2).
      by specialize (Hw _ Hin).
Qed.

(** A run in which the frames of the transfer arrive in order, alone
    among those that touch an assembly, and in which the chunks are
    decrypted in the order of arrival. *)
Lemma progress_deliver base os :
  forall rest l,
    progress base rest l ->
    List.filter (fun f => negb (benign f)) (frames os) = rest ->
    in_arrival_order percent id os l = true ->
    progress base [] (deliver percent id os l).
Proof.
  induction os as [|o os IH]; intros rest l Hl Hrest Horder.
  - cbn in Hrest. by subst rest.
  - cbn [deliver foldl]. fold (deliver percent id os (occur percent id o l)).
    cbn [in_arrival_order] in Horder. apply andb_true_iff in Horder as [Ho Horder].
    destruct o as [f|now k].
    + change (frames (Arrives f :: os)) with (f :: frames os) in Hrest.
      cbn [List.filter] in Hrest. cbn [occur] in *.
      destruct (benign f) eqn:Hf; cbn [negb] in Hrest.
      * eapply IH; [by apply benign_progress|done..].
      * destruct Hl as [(-> & Hidle)|(a & i & j & -> & Hl)].
        -- injection Hrest as -> Hrest.
           eapply (IH (map (frame_of key) ps)); [|done..].
           right. exists (length (objects l)), 0%nat, 0%nat.
           split; [done|]. by apply meta_progress.
        -- destruct (drop i ps) as [|p tl] eqn:Hdrop; [done|].
           cbn [map] in Hrest. injection Hrest as -> Hrest.
           assert (ps !! i = Some p) as Hp.
           { rewrite <- (Nat.add_0_r i), <- lookup_drop. by rewrite Hdrop. }
           eapply (IH (map (frame_of key) tl)); [|done..].
           right. exists a, (S i), j. split; [|by apply chunk_progress].
           by rewrite <- (Nat.add_1_r i), <- drop_drop, Hdrop.
    + change (frames (Settles now k :: os)) with (frames os) in Hrest.
      eapply IH; [by apply settle_progress|done..].
Qed.

(** The receiver at the end of such a run, every chunk decrypted. *)
Lemma transfer_assembled os l :
  idle (messages (room l)) l ->
  List.filter (fun f => negb (benign f)) (frames os)
  = TextFrame (FileMeta tid name size mime) :: map (frame_of key) ps ->
  in_arrival_order percent id os l = true ->
  let l' := deliver percent id os l in
  forallb (fun w => negb (is_DecryptBuffer w)) (waiting l') = true ->
  exists a,
    objects l' !! a
    = Some {| rf_id := tid; rf_name := name; rf_size := size;
              rf_received := size; rf_chunks := ps.*2; rf_mimeType := mime |} /\
    receiving l' = (if bool_decide (ps = []) then Some a else None) /\
    added_so_far (negb (bool_decide (ps = []))) (messages (room l))
      (messages (room l')).
Proof.
  intros Hidle Hrest Horder l' Hdone.
  assert (progress (messages (room l)) [] l') as Hl'.
  { eapply progress_deliver; [|exact Hrest|exact Horder]. left. done. }
  destruct Hl' as [(Hnil & _)|(a & i & j & Hnil & Hl')]; [done|].
  destruct Hl' as (_ & _ & Hf & Hij & Ho & Hr & Hm).
  assert (i = length ps) as ->.
  { symmetry in Hnil. apply map_eq_nil in Hnil.
    apply (f_equal length) in Hnil. rewrite length_drop in Hnil. cbn in Hnil. lia. }
  rewrite (filter_none _ _ Hdone) in Hf. symmetry in Hf.
  apply fmap_nil_inv in Hf. apply (f_equal length) in Hf.
  rewrite length_drop, firstn_all in Hf. cbn in Hf.
  assert (j = length ps) as -> by lia.
  rewrite firstn_all, size_ps in Ho. exists a. split; [done|].
  unfold finished in Hr, Hm. rewrite bool_decide_eq_true_2 in Hr, Hm by done.
  cbn [andb] in Hr, Hm. by destruct (bool_decide (ps = [])).
Qed.

End Assembly.

Variable userName : string.


(** X9. A chunk whose decryption fails ends the incoming transfer when
    the failure is handled: [receivingRef.current] becomes null and
    nothing else changes (no toast, no message, the entry of the file as
    it was). Every binary frame that arrives from then on, until new
    metadata arrives, is ignored: no decryption is started. A handler
    that already waited for its decryption is not stopped: when it
    succeeds, its chunk is still pushed into the object that was
    dropped. *)
Theorem failed_chunk_drops_transfer (id : string) (now : Z) (k : nat)
    (l : Inbox) (s : nat) (key : option CryptoKey) (d : list Z) :
  waiting l !! k = Some (DecryptBuffer s key d) ->
  key ≫= (fun key => decryptBuffer key (drop 12 d) (take 12 d)) = None ->
  let l1 := occur percent id (Settles now k) l in
  l1 = set_receiving None (set_waiting (delete k (waiting l)) l) /\
  (forall later : list (list Z),
     deliver percent id (Arrives <$> (BinaryFrame <$> later)) l1 = l1) /\
  (forall (k' s' : nat) (key' : CryptoKey) (d' dec : list Z)
          (o : ReceivingFileState) (now' : Z),
     waiting l1 !! k' = Some (DecryptBuffer s' (Some key') d') ->
     decryptBuffer key' (drop 12 d') (take 12 d') = Some dec ->
     objects l1 !! s' = Some o ->
     let l2 := occur percent id (Settles now' k') l1 in
     rf_chunks <$> objects l2 !! s' = Some (rf_chunks o ++ [dec]) /\
     rf_received <$> objects l2 !! s'
     = Some (rf_received o + Z.of_nat (length dec)) /\
     receiving l2 = None).
Proof.
  intros Hwk Hdec. cbv zeta.
  assert (occur percent id (Settles now k) l
          = set_receiving None (set_waiting (delete k (waiting l)) l)) as ->.
  { cbn [occur]. rewrite Hwk. cbn [resumed]. unfold chunk_decrypted.
    by rewrite Hdec. }
  split; [done|]. split.
  - intros later. induction later as [|b later IH]; [done|].
    cbn [fmap list_fmap deliver foldl occur onmessage].
    unfold handleFileChunkReceive at 1. cbn [receiving set_receiving].
    exact IH.
  - intros k' s' key' d' dec o now' Hwk' Hdec' Ho. cbn [occur]. rewrite Hwk'.
    cbn [resumed]. unfold chunk_decrypted. cbn [mbind option_bind].
    rewrite Hdec'. cbn [objects set_waiting set_receiving] in *. rewrite Ho.
    assert (s' < length (objects l))%nat as Hs' by (by eapply lookup_lt_Some).
    match goal with |- context [if ?b then _ else _] => destruct b end;
      cbn [objects receiving set_receiving with_room set_objects set_waiting];
      rewrite list_lookup_insert_eq by done; done.
Qed.

End Facts.

End Delivery.

(** *** Examples on the loop *)

Module DeliveryDemo.
Import Encoding Crypto Transfer Delivery.
#[local] Existing Instance ToyFacts.web_crypto.

(** A receiver with key 7 on which nothing waits. *)
Definition receiver : Inbox :=
  {| room := Demo.room; objects := []; receiving := None; waiting := [] |}.

(** What was passed to [send] on the peer channel. *)
Definition on_the_wire (r : Room) : list frame :=
  match dataChannelsRef r with
  | [(_, dc)] => sent dc
  | _ => []
  end.

Definition outcome (res : UploadResult) : option SendOutcome :=
  match res with
  | Started _ o => Some o
  | _ => None
  end.

Definition closure (res : UploadResult) (u0 : Upload) : Upload :=
  match res with
  | Started u _ => u
  | _ => u0
  end.

(** A file of two chunks: 65536 octets 0, then one octet 1. *)
Definition two_chunks : File :=
  {| file_name := "b.bin"; file_size := 65537;
     file_type := "application/octet-stream";
     file_arrayBuffer := replicate (Z.to_nat 65536) 0 ++ [1] |}.

Definition two_chunks_sent :=
  handleFileUpload Demo.percent "alice" clear_channel 0 "f1" 0 two_chunks Demo.room.

(** Its frames arrive in order, and the decryption of the second chunk
    settles before that of the first. *)
Definition second_chunk_first : Inbox :=
  deliver Demo.percent "peer"
    ((Arrives <$> on_the_wire two_chunks_sent.1) ++ [Settles 1 1; Settles 2 0])
    receiver.

(** A channel whose buffer is full at the first look and drained later. *)
Definition full_then_clear (t : nat) : ChannelView :=
  match t with
  | O => {| view_readyState := open; view_bufferedAmount := BUFFER_THRESHOLD;
            view_aborted := false; view_open_at_send := true |}
  | S _ => clear_channel t
  end.

Definition one_octet : File :=
  {| file_name := "c.bin"; file_size := 1; file_type := "application/octet-stream";
     file_arrayBuffer := [9] |}.

(** A closure for the case that cannot be. *)
Definition no_upload : Upload :=
  {| up_id := ""; up_file := one_octet; up_buf := []; up_off := 0;
     up_dc := ""; up_tick := 0; up_entropy := 0 |}.

(** The upload of [Demo.small_file] waits for the buffer to drain; the
    upload of [one_octet] starts and completes meanwhile; then the first
    one resumes and completes. *)
Definition first_waits :=
  handleFileUpload Demo.percent "alice" full_then_clear 0 "f1" 0
    Demo.small_file Demo.room.
Definition second_sent :=
  handleFileUpload Demo.percent "alice" clear_channel 0 "f2" 5
    one_octet first_waits.1.
Definition first_resumed :=
  resume_all Demo.percent "alice" full_then_clear 0 1
    (closure first_waits.2 no_upload)
    AwaitingBufferedAmountLow second_sent.1.

(** The receiver handles these frames in order, each decryption settled
    before the next frame arrives. *)
Definition one_at_a_time (fs : list frame) : list occurrence :=
  flat_map (fun f => match f with
                     | BinaryFrame _ => [Arrives f; Settles 1 0]
                     | TextFrame _ => [Arrives f]
                     end) fs.

Definition overlapped : Inbox :=
  deliver Demo.percent "peer" (one_at_a_time (on_the_wire first_resumed.1.1)) receiver.

(** [Demo.small_file] is sent to its end, then [one_octet]. *)
Definition first_sent :=
  handleFileUpload Demo.percent "alice" clear_channel 0 "f1" 0
    Demo.small_file Demo.room.
Definition then_second :=
  handleFileUpload Demo.percent "alice" clear_channel 0 "f2" 5
    one_octet first_sent.1.

(** The metadata of the second file arrives while the chunk of the first
    is in decryption. *)
Definition back_to_back : list occurrence :=
  match on_the_wire then_second.1 with
  | [meta1; chunk1; meta2; chunk2] =>
      [Arrives meta1; Arrives chunk1; Arrives meta2; Settles 1 0; Arrives chunk2]
  | _ => []
  end.

Definition one_octet_sent :=
  handleFileUpload Demo.percent "alice" clear_channel 0 "f2" 5 one_octet Demo.room.

(** The sender leaves while [one_octet] is read: the session-terminate
    frame goes out between the metadata and the chunk, and the receiver
    has left when the chunk comes. *)
Definition sender_leaves : list occurrence :=
  match on_the_wire one_octet_sent.1 with
  | [meta; chunk] =>
      [Arrives meta; Arrives (TextFrame SessionTerminate); Settles 1 0; Arrives chunk]
  | _ => []
  end.


(** The upload of [Demo.small_file] alone, resumed once. *)
Definition resumed_alone :=
  resume_all Demo.percent "alice" full_then_clear 0 1
    (closure first_waits.2 no_upload)
    AwaitingBufferedAmountLow first_waits.1.

(** Its frames with a chat frame in between; the chunk is decrypted
    before the chat frame. *)
Definition with_chat : list occurrence :=
  match on_the_wire resumed_alone.1.1 with
  | [meta; chunk] =>
      [Arrives meta; Arrives (TextFrame (Chat [] [])); Arrives chunk;
       Settles 5 1; Settles 6 0]
  | _ => []
  end.


(** A receiver with two chunks in decryption for the object at 0: the
    first was tampered with, the second is a chunk of three octets. *)
Definition two_waiting : Inbox :=
  {| room := Demo.room;
     objects := [{| rf_id := "f1"; rf_name := "a.bin"; rf_size := 6;
                    rf_received := 0; rf_chunks := [];
                    rf_mimeType := "application/octet-stream" |}];
     receiving := Some 0%nat;
     waiting :=
       [DecryptBuffer 0 (Some 7) (replicate 12 0 ++ [1; 2; 3]);
        DecryptBuffer 0 (Some 7)
          (replicate 12 0 ++ Toy.encrypt 7 (replicate 12 0) [4; 5; 6])] |}.

Lemma failed_chunk_drops_transfer_witness :
  let l1 := occur Demo.percent "peer" (Settles 1 0) two_waiting in
  room l1 = Demo.room /\ receiving l1 = None /\
  deliver Demo.percent "peer" (Arrives <$> (BinaryFrame <$> [[1; 2; 3]; [4]])) l1 = l1 /\
  rf_chunks <$> objects (occur Demo.percent "peer" (Settles 2 0) l1) !! 0%nat
  = Some [[4; 5; 6]].
Proof.
  intros l1.
  destruct (@failed_chunk_drops_transfer ToyFacts.web_crypto Demo.percent "peer"
              1 0 two_waiting 0 (Some 7) (replicate 12 0 ++ [1; 2; 3])
              eq_refl eq_refl) as (Hl1 & Hlater & Hwaiting).
  fold l1 in Hl1, Hlater, Hwaiting.
  split; [by rewrite Hl1|]. split; [by rewrite Hl1|].
  split; [exact (Hlater [[1; 2; 3]; [4]])|].
  exact (proj1 (Hwaiting 0%nat 0%nat 7
                  (replicate 12 0 ++ Toy.encrypt 7 (replicate 12 0) [4; 5; 6])
                  [4; 5; 6] _ 2 eq_refl eq_refl eq_refl)).
Defined.

End DeliveryDemo.

(** ** components/Room.tsx: signaling over the rendezvous row *)

Module Signaling.

(** [PROTOCOL_CONFIG], the constants of signaling, in milliseconds. *)
Definition HEARTBEAT_INTERVAL : Z := 5000.
Definition HANDSHAKE_TIMEOUT : Z := 4000.
Definition GATHERING_TIMEOUT : Z := 4000.
Definition SESSION_EXPIRY : Z := 8000.
Definition ROOM_FULL_EXPIRY : Z := 12000.
Definition NEGOTIATION_THROTTLE : Z := 5000.

Inductive HandshakeRole := none | initiator | receiver.

Inductive ConnectionStatus :=
| idle | preparing | ready | connected
| security_error | media_error | room_full.

Inductive ToastType := info | error | warning.

(** A row of [rooms_signaling] as the client sees it ([SignalingPayload]);
    [updated_at] is the time the column parses to, [None] when the column
    is missing or [new Date(...).getTime()] is [NaN]. *)
Record SignalingPayload := {
  room_id : string;
  initiator_id : option string;
  receiver_id : option string;
  offer : option string;
  answer : option string;
  passphrase_hash : option string;
  updated_at : option Z
}.

(** JavaScript truthiness of a nullable string column. *)
Definition truthy (o : option string) : bool :=
  match o with
  | Some s => negb (String.eqb s "")
  | None => false
  end.

(** [x === peerId] for a nullable string column. *)
Definition is_peer (o : option string) (peerId : string) : bool :=
  match o with
  | Some s => String.eqb s peerId
  | None => false
  end.

(** The object passed to [.update(...)]: the columns it assigns. *)
Record patch := {
  set_initiator_id : option string;
  set_receiver_id : option string;
  set_offer : option string;
  set_answer : option string;
  set_updated_at : option Z
}.

Definition no_patch : patch :=
  {| set_initiator_id := None; set_receiver_id := None; set_offer := None;
     set_answer := None; set_updated_at := None |}.

(** [{data, error}] of a rendezvous call, or a settled promise of the
    peer connection ([Error] is a rejection). *)
Inductive response (A : Type) :=
| Data (a : A)
| Error.
Arguments Data {A} a.
Arguments Error {A}.

Inductive RTCSignalingState :=
| stable | have_local_offer | have_remote_offer | closed.

(** The awaited calls: a task is suspended until the answer arrives.
    - [Select r]: [.select('*').eq('room_id', r)], with [.limit(1)] or
      [.single()];
    - [Insert row]: [.insert(row)];
    - [Update r cond p]: [.update(p).eq('room_id', r)], with
      [.is('receiver_id', null)] when [cond];
    - [Delete r]: [.delete().eq('room_id', r)]. *)
Inductive call : Type -> Type :=
| Select (room : string) : call (response (list SignalingPayload))
| Insert (row : SignalingPayload) : call (response unit)
| Update (room : string) (if_receiver_null : bool) (p : patch)
  : call (response (list SignalingPayload))
| Delete (room : string) : call (response unit)
| HashPassphrase : call string
| Subscribe (room : string) : call unit
| SetupPeerConnection (isOffer : bool) : call unit
| SetRemoteDescription (sdp : string) : call (response unit)
| CreateOffer : call (response string)
| CreateAnswer : call (response string)
| SetLocalDescription (sdp : string) : call (response unit).

(** What a handler reads from its environment without suspending. *)
Inductive query : Type -> Type :=
| DateNow : query Z
| SignalingState : query RTCSignalingState.

(** Timers set with [addTimeout]. *)
Inductive Timeout :=
| RunJoinAndSignal (retryCount : nat)
| RunOnExit
| GatherTimeout.

(** The refs of [Room] that signaling reads and writes.
    [gatheringComplete] is the variable of that name in the closure of the
    handshake in progress; [peersRef] says whether [peersRef.current] holds
    the connection to ['peer']; [timeouts] are the pending [addTimeout]
    timers with their delays. *)
Record Client := {
  roleRef : HandshakeRole;
  connectionStatusRef : ConnectionStatus;
  isSignalingRef : bool;
  processedOfferRef : bool;
  processedAnswerRef : bool;
  localSDPRef : string;
  heartbeatFailuresRef : Z;
  peersRef : bool;
  gatheringComplete : bool;
  heartbeatRef : bool;
  signalChannelRef : bool;
  reconnectTimeoutRef : option Z;
  timeouts : list (Z * Timeout);
  toast : option (string * ToastType)
}.

Definition set_role (v : HandshakeRole) (c : Client) : Client :=
  {| roleRef := v; connectionStatusRef := connectionStatusRef c;
     isSignalingRef := isSignalingRef c; processedOfferRef := processedOfferRef c;
     processedAnswerRef := processedAnswerRef c; localSDPRef := localSDPRef c;
     heartbeatFailuresRef := heartbeatFailuresRef c; peersRef := peersRef c;
     gatheringComplete := gatheringComplete c; heartbeatRef := heartbeatRef c;
     signalChannelRef := signalChannelRef c;
     reconnectTimeoutRef := reconnectTimeoutRef c; timeouts := timeouts c;
     toast := toast c |}.

(** [updateStatus(s)]. *)
Definition updateStatus (v : ConnectionStatus) (c : Client) : Client :=
  {| roleRef := roleRef c; connectionStatusRef := v;
     isSignalingRef := isSignalingRef c; processedOfferRef := processedOfferRef c;
     processedAnswerRef := processedAnswerRef c; localSDPRef := localSDPRef c;
     heartbeatFailuresRef := heartbeatFailuresRef c; peersRef := peersRef c;
     gatheringComplete := gatheringComplete c; heartbeatRef := heartbeatRef c;
     signalChannelRef := signalChannelRef c;
     reconnectTimeoutRef := reconnectTimeoutRef c; timeouts := timeouts c;
     toast := toast c |}.

Definition set_isSignaling (v : bool) (c : Client) : Client :=
  {| roleRef := roleRef c; connectionStatusRef := connectionStatusRef c;
     isSignalingRef := v; processedOfferRef := processedOfferRef c;
     processedAnswerRef := processedAnswerRef c; localSDPRef := localSDPRef c;
     heartbeatFailuresRef := heartbeatFailuresRef c; peersRef := peersRef c;
     gatheringComplete := gatheringComplete c; heartbeatRef := heartbeatRef c;
     signalChannelRef := signalChannelRef c;
     reconnectTimeoutRef := reconnectTimeoutRef c; timeouts := timeouts c;
     toast := toast c |}.

Definition set_processedOffer (v : bool) (c : Client) : Client :=
  {| roleRef := roleRef c; connectionStatusRef := connectionStatusRef c;
     isSignalingRef := isSignalingRef c; processedOfferRef := v;
     processedAnswerRef := processedAnswerRef c; localSDPRef := localSDPRef c;
     heartbeatFailuresRef := heartbeatFailuresRef c; peersRef := peersRef c;
     gatheringComplete := gatheringComplete c; heartbeatRef := heartbeatRef c;
     signalChannelRef := signalChannelRef c;
     reconnectTimeoutRef := reconnectTimeoutRef c; timeouts := timeouts c;
     toast := toast c |}.

Definition set_processedAnswer (v : bool) (c : Client) : Client :=
  {| roleRef := roleRef c; connectionStatusRef := connectionStatusRef c;
     isSignalingRef := isSignalingRef c; processedOfferRef := processedOfferRef c;
     processedAnswerRef := v; localSDPRef := localSDPRef c;
     heartbeatFailuresRef := heartbeatFailuresRef c; peersRef := peersRef c;
     gatheringComplete := gatheringComplete c; heartbeatRef := heartbeatRef c;
     signalChannelRef := signalChannelRef c;
     reconnectTimeoutRef := reconnectTimeoutRef c; timeouts := timeouts c;
     toast := toast c |}.

Definition set_localSDP (v : string) (c : Client) : Client :=
  {| roleRef := roleRef c; connectionStatusRef := connectionStatusRef c;
     isSignalingRef := isSignalingRef c; processedOfferRef := processedOfferRef c;
     processedAnswerRef := processedAnswerRef c; localSDPRef := v;
     heartbeatFailuresRef := heartbeatFailuresRef c; peersRef := peersRef c;
     gatheringComplete := gatheringComplete c; heartbeatRef := heartbeatRef c;
     signalChannelRef := signalChannelRef c;
     reconnectTimeoutRef := reconnectTimeoutRef c; timeouts := timeouts c;
     toast := toast c |}.

Definition set_heartbeatFailures (v : Z) (c : Client) : Client :=
  {| roleRef := roleRef c; connectionStatusRef := connectionStatusRef c;
     isSignalingRef := isSignalingRef c; processedOfferRef := processedOfferRef c;
     processedAnswerRef := processedAnswerRef c; localSDPRef := localSDPRef c;
     heartbeatFailuresRef := v; peersRef := peersRef c;
     gatheringComplete := gatheringComplete c; heartbeatRef := heartbeatRef c;
     signalChannelRef := signalChannelRef c;
     reconnectTimeoutRef := reconnectTimeoutRef c; timeouts := timeouts c;
     toast := toast c |}.

Definition set_peers (v : bool) (c : Client) : Client :=
  {| roleRef := roleRef c; connectionStatusRef := connectionStatusRef c;
     isSignalingRef := isSignalingRef c; processedOfferRef := processedOfferRef c;
     processedAnswerRef := processedAnswerRef c; localSDPRef := localSDPRef c;
     heartbeatFailuresRef := heartbeatFailuresRef c; peersRef := v;
     gatheringComplete := gatheringComplete c; heartbeatRef := heartbeatRef c;
     signalChannelRef := signalChannelRef c;
     reconnectTimeoutRef := reconnectTimeoutRef c; timeouts := timeouts c;
     toast := toast c |}.

Definition set_gatheringComplete (v : bool) (c : Client) : Client :=
  {| roleRef := roleRef c; connectionStatusRef := connectionStatusRef c;
     isSignalingRef := isSignalingRef c; processedOfferRef := processedOfferRef c;
     processedAnswerRef := processedAnswerRef c; localSDPRef := localSDPRef c;
     heartbeatFailuresRef := heartbeatFailuresRef c; peersRef := peersRef c;
     gatheringComplete := v; heartbeatRef := heartbeatRef c;
     signalChannelRef := signalChannelRef c;
     reconnectTimeoutRef := reconnectTimeoutRef c; timeouts := timeouts c;
     toast := toast c |}.

Definition set_heartbeat (v : bool) (c : Client) : Client :=
  {| roleRef := roleRef c; connectionStatusRef := connectionStatusRef c;
     isSignalingRef := isSignalingRef c; processedOfferRef := processedOfferRef c;
     processedAnswerRef := processedAnswerRef c; localSDPRef := localSDPRef c;
     heartbeatFailuresRef := heartbeatFailuresRef c; peersRef := peersRef c;
     gatheringComplete := gatheringComplete c; heartbeatRef := v;
     signalChannelRef := signalChannelRef c;
     reconnectTimeoutRef := reconnectTimeoutRef c; timeouts := timeouts c;
     toast := toast c |}.

Definition set_signalChannel (v : bool) (c : Client) : Client :=
  {| roleRef := roleRef c; connectionStatusRef := connectionStatusRef c;
     isSignalingRef := isSignalingRef c; processedOfferRef := processedOfferRef c;
     processedAnswerRef := processedAnswerRef c; localSDPRef := localSDPRef c;
     heartbeatFailuresRef := heartbeatFailuresRef c; peersRef := peersRef c;
     gatheringComplete := gatheringComplete c; heartbeatRef := heartbeatRef c;
     signalChannelRef := v;
     reconnectTimeoutRef := reconnectTimeoutRef c; timeouts := timeouts c;
     toast := toast c |}.

Definition set_reconnectTimeout (v : option Z) (c : Client) : Client :=
  {| roleRef := roleRef c; connectionStatusRef := connectionStatusRef c;
     isSignalingRef := isSignalingRef c; processedOfferRef := processedOfferRef c;
     processedAnswerRef := processedAnswerRef c; localSDPRef := localSDPRef c;
     heartbeatFailuresRef := heartbeatFailuresRef c; peersRef := peersRef c;
     gatheringComplete := gatheringComplete c; heartbeatRef := heartbeatRef c;
     signalChannelRef := signalChannelRef c;
     reconnectTimeoutRef := v; timeouts := timeouts c;
     toast := toast c |}.

Definition set_timeouts (v : list (Z * Timeout)) (c : Client) : Client :=
  {| roleRef := roleRef c; connectionStatusRef := connectionStatusRef c;
     isSignalingRef := isSignalingRef c; processedOfferRef := processedOfferRef c;
     processedAnswerRef := processedAnswerRef c; localSDPRef := localSDPRef c;
     heartbeatFailuresRef := heartbeatFailuresRef c; peersRef := peersRef c;
     gatheringComplete := gatheringComplete c; heartbeatRef := heartbeatRef c;
     signalChannelRef := signalChannelRef c;
     reconnectTimeoutRef := reconnectTimeoutRef c; timeouts := v;
     toast := toast c |}.

(** [showToast(msg, type)]. *)
Definition showToast (msg : string) (type : ToastType) (c : Client) : Client :=
  {| roleRef := roleRef c; connectionStatusRef := connectionStatusRef c;
     isSignalingRef := isSignalingRef c; processedOfferRef := processedOfferRef c;
     processedAnswerRef := processedAnswerRef c; localSDPRef := localSDPRef c;
     heartbeatFailuresRef := heartbeatFailuresRef c; peersRef := peersRef c;
     gatheringComplete := gatheringComplete c; heartbeatRef := heartbeatRef c;
     signalChannelRef := signalChannelRef c;
     reconnectTimeoutRef := reconnectTimeoutRef c; timeouts := timeouts c;
     toast := Some (msg, type) |}.

(** [addTimeout(fn, ms)]. *)
Definition addTimeout (fn : Timeout) (ms : Z) (c : Client) : Client :=
  set_timeouts (timeouts c ++ [(ms, fn)]) c.

(** [clearTimeout(gatherTimeout); timeoutsRef.current.delete(gatherTimeout)]. *)
Definition clearGatherTimeout (c : Client) : Client :=
  set_timeouts
    (List.filter (fun '(_, t) => match t with GatherTimeout => false | _ => true end)
       (timeouts c)) c.

(** [scheduleReconnect(delayMs)]. *)
Definition scheduleReconnect (delayMs : Z) (c : Client) : Client :=
  match reconnectTimeoutRef c with
  | Some _ => c
  | None => set_reconnectTimeout (Some delayMs) c
  end.

(** The signaling part of [cleanupResources]. *)
Definition cleanupResources (c : Client) : Client :=
  set_processedAnswer false
    (set_processedOffer false
       (set_isSignaling false
          (set_reconnectTimeout None
             (set_signalChannel false
                (set_heartbeat false (set_timeouts [] (set_peers false c))))))).

(** *** Tasks

    An [async] function is a tree: it reads and writes the shared refs,
    reads the environment, starts other tasks, and suspends at each
    [await] until the call is answered. *)
Inductive task (A : Type) : Type :=
| Ret (a : A)
| Get (k : Client -> task A)
| Put (c : Client) (k : task A)
| Read {R : Type} (q : query R) (k : R -> task A)
| Await {R : Type} (c : call R) (k : R -> task A)
| Fork (t : task unit) (k : task A).
Arguments Ret {A} a.
Arguments Get {A} k.
Arguments Put {A} c k.
Arguments Read {A R} q k.
Arguments Await {A R} c k.
Arguments Fork {A} t k.

Fixpoint bind {A B : Type} (t : task A) (f : A -> task B) : task B :=
  match t with
  | Ret a => f a
  | Get k => Get (fun c => bind (k c) f)
  | Put c k => Put c (bind k f)
  | Read q k => Read q (fun r => bind (k r) f)
  | Await c k => Await c (fun r => bind (k r) f)
  | Fork t k => Fork t (bind k f)
  end.

Definition get : task Client := Get Ret.
Definition modify (f : Client -> Client) : task unit :=
  Get (fun c => Put (f c) (Ret tt)).
Definition read {R : Type} (q : query R) : task R := Read q Ret.
Definition await {R : Type} (c : call R) : task R := Await c Ret.
Definition fork (t : task unit) : task unit := Fork t (Ret tt).

#[global] Instance task_ret : MRet task := @Ret.
#[global] Instance task_bind : MBind task := fun A B f t => bind t f.

Inductive EventType := INSERT | UPDATE | DELETE.

(** A change notification: [payload.eventType] and [payload.new]. *)
Record Change := {
  eventType : EventType;
  new : option SignalingPayload
}.

Definition is_connected (c : Client) : bool :=
  match connectionStatusRef c with connected => true | _ => false end.

Section Procedures.

(** [peerId] and [room_id], which is [config.roomId]. *)
Variables peerId roomId : string.

(** [btoa(JSON.stringify(description))], and [JSON.parse(atob(s))] with
    [None] for a thrown exception. *)
Variable encodeSDP : string -> string.
Variable decodeSDP : string -> option string.

(** [{ receiver_id: peerId, answer: answerSDP }]. *)
Definition claim_patch (answerSDP : string) : patch :=
  {| set_initiator_id := None; set_receiver_id := Some peerId;
     set_offer := None; set_answer := Some answerSDP;
     set_updated_at := None |}.

(** [{ offer: offerSDP }]. *)
Definition offer_patch (offerSDP : string) : patch :=
  {| set_initiator_id := None; set_receiver_id := None;
     set_offer := Some offerSDP; set_answer := None;
     set_updated_at := None |}.

(** [{ ...updateField, updated_at: new Date().toISOString() }]. *)
Definition heartbeat_patch (role : HandshakeRole) (now : Z) : patch :=
  match role with
  | initiator =>
      {| set_initiator_id := Some peerId; set_receiver_id := None;
         set_offer := None; set_answer := None; set_updated_at := Some now |}
  | _ =>
      {| set_initiator_id := None; set_receiver_id := Some peerId;
         set_offer := None; set_answer := None; set_updated_at := Some now |}
  end.

Definition claimed (answerSDP : string) (c : Client) : Client :=
  updateStatus ready (set_localSDP answerSDP c).

(** [sendAnswer(description)], the closure of both receiver paths (the
    one created in the change handler and the one created after the
    fetch). *)
Definition sendAnswer (description : string) : task unit :=
  c ← get;
  if gatheringComplete c then mret tt
  else
    modify (fun c => clearGatherTimeout (set_gatheringComplete true c));;
    let answerSDP := encodeSDP description in
    upd ← await (Update roomId true (claim_patch answerSDP));
    match upd with
    | Data (_ :: _) => modify (claimed answerSDP)
    | _ =>
        cur ← await (Select roomId);
        match cur with
        | Data [row] =>
            if is_peer (receiver_id row) peerId
            then modify (claimed answerSDP)
            else modify (updateStatus room_full)
        | _ => modify (updateStatus room_full)
        end
    end;;
    modify (set_isSignaling false).

(** [sendOffer(description)]. *)
Definition sendOffer (description : string) : task unit :=
  c ← get;
  if gatheringComplete c then mret tt
  else
    modify (fun c => clearGatherTimeout (set_gatheringComplete true c));;
    let offerSDP := encodeSDP description in
    _ ← await (Update roomId false (offer_patch offerSDP));
    modify (fun c => set_isSignaling false (claimed offerSDP c)).

(** [pc.onicegatheringstatechange] when the state is ['complete'], and
    the gathering timeout; [send] is [sendAnswer] or [sendOffer]. *)
Definition onIceGatheringComplete (send : string -> task unit)
    (localDescription : string) : task unit :=
  c ← get;
  if gatheringComplete c then mret tt else send localDescription.

Definition onGatherTimeout (send : string -> task unit)
    (localDescription : option string) : task unit :=
  c ← get;
  match localDescription with
  | Some d => if gatheringComplete c then mret tt else send d
  | None => mret tt
  end.

(** The receiver's part after the offer is decoded, shared by the change
    handler and the fetch path: a new connection, then
    [setRemoteDescription], [createAnswer], [setLocalDescription]; a
    rejection is caught and ends signaling. *)
Definition answerOffer (offerSDP : string) : task unit :=
  modify (set_peers true);;
  await (SetupPeerConnection false);;
  modify (fun c => addTimeout GatherTimeout GATHERING_TIMEOUT
                     (set_gatheringComplete false c));;
  r1 ← await (SetRemoteDescription offerSDP);
  match r1 with
  | Error => modify (set_isSignaling false)
  | Data _ =>
      r2 ← await CreateAnswer;
      match r2 with
      | Error => modify (set_isSignaling false)
      | Data answerSDP =>
          r3 ← await (SetLocalDescription answerSDP);
          match r3 with
          | Error => modify (set_isSignaling false)
          | Data _ => mret tt
          end
      end
  end.

(** The callback of the [postgres_changes] subscription. *)
Definition onPostgresChanges (payload : Change) : task unit :=
  c ← get;
  match eventType payload with
  | DELETE =>
      if is_connected c then mret tt
      else modify (fun c => scheduleReconnect 500 (cleanupResources c))
  | ev =>
      if match ev with INSERT => true | _ => false end
         && negb (is_connected c)
         && match roleRef c with none => true | _ => false end
      then modify (fun c => scheduleReconnect 300 (set_isSignaling false c))
      else
        match new payload with
        | None => mret tt
        | Some updatedRoom =>
            if truthy (offer updatedRoom)
               && negb (is_peer (offer updatedRoom) "CLAIMED")
               && match roleRef c with receiver => true | _ => false end
               && match connectionStatusRef c with
                  | preparing | idle => true
                  | _ => false
                  end
               && negb (processedOfferRef c)
            then
              modify (fun c => updateStatus preparing (set_processedOffer true c));;
              match offer updatedRoom ≫= decodeSDP with
              | None => mret tt
              | Some offerSDP => answerOffer offerSDP
              end
            else if truthy (answer updatedRoom)
                    && match roleRef c with initiator => true | _ => false end
                    && negb (processedAnswerRef c)
            then
              st ← read SignalingState;
              if peersRef c
                 && match st with
                    | have_local_offer | stable => true
                    | _ => false
                    end
                 && is_peer (initiator_id updatedRoom) peerId
              then
                match answer updatedRoom ≫= decodeSDP with
                | None => mret tt
                | Some answerSDP =>
                    match st with
                    | have_local_offer =>
                        modify (set_processedAnswer true);;
                        _ ← await (SetRemoteDescription answerSDP);
                        mret tt
                    | _ => mret tt
                    end
                end
              else mret tt
            else mret tt
        end
  end.

(** The row a new initiator inserts. *)
Definition claim_row (pass_hash : string) : SignalingPayload :=
  {| room_id := roomId; initiator_id := Some peerId; receiver_id := None;
     offer := Some "CLAIMED"; answer := None;
     passphrase_hash := Some pass_hash; updated_at := None |}.

(** Leaving [joinAndSignal] after the row was deleted as stale. *)
Definition reclaim : task bool :=
  await (Delete roomId);;
  modify (fun c => addTimeout (RunJoinAndSignal 0) 500 (set_isSignaling false c));;
  mret true.

(** The [try] block of [joinAndSignal]; the result says whether the
    function returned from inside it. *)
Definition electRole (retryCount : nat) (pass_hash : string) : task bool :=
  rooms ← await (Select roomId);
  let roomData := match rooms with Data (r :: _) => Some r | _ => None end in
  match roomData with
  | None =>
      modify (fun c => updateStatus preparing (set_role initiator c));;
      claim ← await (Insert (claim_row pass_hash));
      match claim with
      | Error =>
          modify (fun c => addTimeout (RunJoinAndSignal (retryCount + 1)) 300
                             (set_isSignaling false c));;
          mret true
      | Data _ =>
          modify (set_peers true);;
          await (SetupPeerConnection true);;
          modify (fun c => addTimeout GatherTimeout GATHERING_TIMEOUT
                             (set_gatheringComplete false c));;
          r1 ← await CreateOffer;
          match r1 with
          | Error => modify (set_isSignaling false);; mret false
          | Data offerSDP =>
              r2 ← await (SetLocalDescription offerSDP);
              match r2 with
              | Error => modify (set_isSignaling false);; mret false
              | Data _ => mret false
              end
          end
      end
  | Some roomData =>
      if truthy (initiator_id roomData) && truthy (receiver_id roomData) then
        now ← read DateNow;
        let full :=
          modify (fun c => set_isSignaling false (updateStatus room_full c));;
          mret true in
        match updated_at roomData with
        | Some updatedAt =>
            if is_peer (initiator_id roomData) peerId
               || is_peer (receiver_id roomData) peerId
            then if SESSION_EXPIRY <? now - updatedAt then reclaim else full
            else if ROOM_FULL_EXPIRY <? now - updatedAt then reclaim else full
        | None => full
        end
      else if negb (truthy (receiver_id roomData)) then
        if negb (bool_decide (passphrase_hash roomData = Some pass_hash)) then
          modify (fun c => addTimeout RunOnExit 2000
                             (set_isSignaling false
                                (showToast "房间口令不匹配" error c)));;
          mret true
        else
          modify (fun c => updateStatus preparing (set_role receiver c));;
          if is_peer (offer roomData) "CLAIMED" then
            modify (set_isSignaling false);; mret true
          else
            modify (set_processedOffer true);;
            match offer roomData ≫= decodeSDP with
            | None => modify (set_isSignaling false);; mret false
            | Some offerSDP => answerOffer offerSDP;; mret false
            end
      else
        modify (fun c => set_isSignaling false (updateStatus room_full c));;
        mret false
  end.

(** [joinAndSignal(retryCount)]. *)
Definition joinAndSignal (retryCount : nat) : task unit :=
  c ← get;
  if isSignalingRef c || (3 <? retryCount)%nat then mret tt
  else
    modify (fun c => set_heartbeat false (set_isSignaling true c));;
    pass_hash ← await HashPassphrase;
    modify (fun c => set_processedAnswer false (set_processedOffer false c));;
    await (Subscribe roomId);;
    modify (set_signalChannel true);;
    returned ← electRole retryCount pass_hash;
    if returned : bool then mret tt else modify (set_heartbeat true).

(** The callback of the heartbeat interval. *)
Definition heartbeat : task unit :=
  c ← get;
  match roleRef c with
  | none => mret tt
  | role =>
      now ← read DateNow;
      res ← await (Update roomId false (heartbeat_patch role now));
      match res with
      | Error =>
          c ← get;
          let failures := heartbeatFailuresRef c + 1 in
          if (3 <=? failures) && is_connected c then
            modify (fun c => set_heartbeatFailures 0
                               (showToast "心跳失败，尝试重连..." warning
                                  (set_heartbeatFailures failures c)));;
            fork (joinAndSignal 0)
          else modify (set_heartbeatFailures failures)
      | Data _ => modify (set_heartbeatFailures 0)
      end
  end.

End Procedures.

(** *** Running tasks *)

(** An environment answers the calls and queries of a task and moves from
    one world to the next: the rendezvous service with whatever the other
    peers do to the row in between, the peer connection, the clock. *)
Record Env := {
  world : Type;
  respond : forall R, call R -> world -> world * R;
  observe : forall R, query R -> world -> R
}.

(** A call that was issued. *)
Inductive logged :=
| Logged {R : Type} (c : call R).

(** A task run to its end without another task in between: the result,
    the refs, the world and the calls issued, in order. *)
Fixpoint run {A : Type} (E : Env) (t : task A) (c : Client) (w : world E)
  : A * Client * world E * list logged :=
  match t with
  | Ret a => (a, c, w, [])
  | Get k => run E (k c) c w
  | Put c' k => run E k c' w
  | Read q k => run E (k (observe E _ q w)) c w
  | Await cl k =>
      let '(w', r) := respond E _ cl w in
      let '(res, log) := run E (k r) c w' in
      (res, Logged cl :: log)
  | Fork t k =>
      let '(_, c1, w1, l1) := run E t c w in
      let '(res, l2) := run E k c1 w1 in
      (res, l1 ++ l2)
  end.

(** A task stopped at an [await]. *)
Inductive suspended :=
| Suspended {R : Type} (c : call R) (k : R -> task unit).

Definition issued_by (s : suspended) : logged :=
  match s with Suspended c _ => Logged c end.

(** A task run until it suspends or ends; [obs] is what the environment
    shows at that moment. A started task runs its first segment before
    the starter goes on. *)
Fixpoint run_sync (obs : forall R, query R -> R) (t : task unit) (c : Client)
  : Client * list suspended :=
  match t with
  | Ret _ => (c, [])
  | Get k => run_sync obs (k c) c
  | Put c' k => run_sync obs k c'
  | Read q k => run_sync obs (k (obs _ q)) c
  | Await cl k => (c, [Suspended cl k])
  | Fork t k =>
      let '(c1, s1) := run_sync obs t c in
      let '(c2, s2) := run_sync obs k c1 in
      (c2, s1 ++ s2)
  end.

(** The event loop of one client: its refs, the suspended tasks and the
    calls issued so far. *)
Record Loop := {
  client : Client;
  pool : list suspended;
  issued : list logged
}.

Definition start (obs : forall R, query R -> R) (t : task unit) (l : Loop) : Loop :=
  let '(c, s) := run_sync obs t (client l) in
  {| client := c; pool := pool l ++ s; issued := issued l ++ map issued_by s |}.

Definition is_SetRemoteDescription (l : logged) : bool :=
  match l with
  | Logged (SetRemoteDescription _) => true
  | _ => false
  end.

(** How many times [setRemoteDescription] was called. *)
Definition remote_descriptions_set (log : list logged) : nat :=
  length (List.filter is_SetRemoteDescription log).

(** *** The rendezvous service and a peer connection *)

Definition apply_patch (p : patch) (now : Z) (row : SignalingPayload)
  : SignalingPayload :=
  {| room_id := room_id row;
     initiator_id := match set_initiator_id p with
                     | Some v => Some v | None => initiator_id row end;
     receiver_id := match set_receiver_id p with
                    | Some v => Some v | None => receiver_id row end;
     offer := match set_offer p with Some v => Some v | None => offer row end;
     answer := match set_answer p with Some v => Some v | None => answer row end;
     passphrase_hash := passphrase_hash row;
     updated_at := Some now |}.

(** The table (one row per [room_id], which is unique), the clock, and
    for the client that runs: its peer connection and passphrase hash.
    An update stamps [updated_at] with the clock, as the trigger of
    init_supabase.sql does; so does the column default on insert. *)
Record Server := {
  db : gmap string SignalingPayload;
  clock : Z;
  signalingState : RTCSignalingState;
  hash : string
}.

Definition with_db (d : gmap string SignalingPayload) (w : Server) : Server :=
  {| db := d; clock := clock w; signalingState := signalingState w; hash := hash w |}.

Definition with_signalingState (s : RTCSignalingState) (w : Server) : Server :=
  {| db := db w; clock := clock w; signalingState := s; hash := hash w |}.

Definition serve (R : Type) (c : call R) (w : Server) : Server * R :=
  match c in call R return Server * R with
  | Select room =>
      (w, Data (match db w !! room with Some row => [row] | None => [] end))
  | Insert row =>
      match db w !! room_id row with
      | Some _ => (w, Error)
      | None =>
          (with_db (<[room_id row := apply_patch no_patch (clock w) row]> (db w)) w,
           Data tt)
      end
  | Update room if_receiver_null p =>
      match db w !! room with
      | Some row =>
          if if_receiver_null && bool_decide (receiver_id row <> None)
          then (w, Data [])
          else
            let row' := apply_patch p (clock w) row in
            (with_db (<[room := row']> (db w)) w, Data [row'])
      | None => (w, Data [])
      end
  | Delete room => (with_db (delete room (db w)) w, Data tt)
  | HashPassphrase => (w, hash w)
  | Subscribe _ => (w, tt)
  | SetupPeerConnection _ => (with_signalingState stable w, tt)
  | SetRemoteDescription _ =>
      match signalingState w with
      | stable => (with_signalingState have_remote_offer w, Data tt)
      | have_local_offer => (with_signalingState stable w, Data tt)
      | _ => (w, Error)
      end
  | CreateOffer => (w, Data "offer")
  | CreateAnswer => (w, Data "answer")
  | SetLocalDescription _ =>
      match signalingState w with
      | stable => (with_signalingState have_local_offer w, Data tt)
      | have_remote_offer => (with_signalingState stable w, Data tt)
      | _ => (w, Error)
      end
  end.

Definition look (R : Type) (q : query R) (w : Server) : R :=
  match q in query R return R with
  | DateNow => clock w
  | SignalingState => signalingState w
  end.

Definition server : Env :=
  {| world := Server; respond := serve; observe := look |}.

(** A service on which every insert collides and every read finds no row:
    another peer inserts and deletes the row in between. *)
Definition colliding : Env :=
  {| world := unit;
     respond := fun R (c : call R) (w : unit) =>
       (w, match c in call R return R with
           | Select _ => Data []
           | Insert _ => Error
           | Update _ _ _ => Data []
           | Delete _ => Data tt
           | HashPassphrase => ""
           | Subscribe _ => tt
           | SetupPeerConnection _ => tt
           | SetRemoteDescription _ => Data tt
           | CreateOffer => Data "offer"
           | CreateAnswer => Data "answer"
           | SetLocalDescription _ => Data tt
           end);
     observe := fun R (q : query R) (w : unit) =>
       match q in query R return R with
       | DateNow => 0
       | SignalingState => stable
       end |}.

(** The refs of a client that has just mounted. *)
Definition mounted : Client :=
  {| roleRef := none; connectionStatusRef := idle; isSignalingRef := false;
     processedOfferRef := false; processedAnswerRef := false;
     localSDPRef := ""; heartbeatFailuresRef := 0; peersRef := false;
     gatheringComplete := false; heartbeatRef := false;
     signalChannelRef := false; reconnectTimeoutRef := None;
     timeouts := []; toast := None |}.

(** A task that issues no call satisfying [P], whatever it is answered. *)
Fixpoint never {A : Type} (P : logged -> bool) (t : task A) : Prop :=
  match t with
  | Ret _ => True
  | Get k => forall c, never P (k c)
  | Put _ k => never P k
  | Read q k => forall r, never P (k r)
  | Await cl k => P (Logged cl) = false /\ forall r, never P (k r)
  | Fork t k => never P t /\ never P k
  end.

Definition is_HashPassphrase (l : logged) : bool :=
  match l with
  | Logged HashPassphrase => true
  | _ => false
  end.

(** How many times the body of [joinAndSignal] was entered: it hashes the
    passphrase first, and nothing else does. *)
Definition procedure_runs (log : list logged) : nat :=
  length (List.filter is_HashPassphrase log).

(** The timer set last, and the timers without it. *)
Definition last_timeout (c : Client) : option (Z * Timeout) := last (timeouts c).
Definition fire_last (c : Client) : Client := set_timeouts (removelast (timeouts c)) c.

(** The runs of [joinAndSignal] chained by insert collisions: a run with
    [retryCount] that ends by setting the timer for
    [joinAndSignal(retryCount + 1)] is followed, when the timer fires, by
    that call. The result is the calls issued, run by run. *)
Fixpoint collision_chain (peerId roomId : string) (decodeSDP : string -> option string)
    (E : Env) (fuel retryCount : nat) (c : Client) (w : world E)
  : list (list logged) :=
  match fuel with
  | O => []
  | S fuel' =>
      let '(_, c', w', log) := run E (joinAndSignal peerId roomId decodeSDP retryCount) c w in
      match last_timeout c' with
      | Some (_, RunJoinAndSignal n) =>
          if (n =? retryCount + 1)%nat
          then log :: collision_chain peerId roomId decodeSDP E fuel' n (fire_last c') w'
          else [log]
      | _ => [log]
      end
  end.

(** *** Writes of the receiver column *)

(** The service after it answered a call. *)
Definition served (l : logged) (w : Server) : Server :=
  match l with Logged c => (serve _ c w).1 end.

(** A write of the receiver column of [room]: an update of the row that
    matched and assigns the column, recorded with whether it carried
    [.is('receiver_id', null)] and with the value it assigns. *)
Definition receiver_write (room : string) (l : logged) (w : Server)
  : list (bool * string) :=
  match l with
  | Logged (Update r cond p) =>
      match (serve _ (Update r cond p) w).2, set_receiver_id p with
      | Data (_ :: _), Some v => if String.eqb r room then [(cond, v)] else []
      | _, _ => []
      end
  | _ => []
  end.

(** The writes of the receiver column of [room] when the service answers
    the calls of [log] one after the other, in order. *)
Fixpoint receiver_writes (room : string) (log : list logged) (w : Server)
  : list (bool * string) :=
  match log with
  | [] => []
  | l :: rest => receiver_write room l w ++ receiver_writes room rest (served l w)
  end.

(** Those made through the conditional update. *)
Definition conditional_writes (room : string) (log : list logged) (w : Server)
  : list (bool * string) :=
  List.filter fst (receiver_writes room log w).

(** The row of [room] lives on through [log]: nothing deletes it. *)
Definition deletes (room : string) (l : logged) : bool :=
  match l with
  | Logged (Delete r) => String.eqb r room
  | _ => false
  end.

Definition row_kept (room : string) (log : list logged) : bool :=
  forallb (fun l => negb (deletes room l)) log.

(** The receiver slot of [room] is taken. *)
Definition slot_taken (room : string) (w : Server) : Prop :=
  exists row, db w !! room = Some row /\ receiver_id row <> None.

(** *** Three peers and one room

    A enters the empty room ROOM and posts its offer; B and C both read
    the row before either has answered; B claims the receiver slot, C
    finds it taken; five seconds later the heartbeat of C fires. *)
Module Scenario.

Definition encodeSDP (s : string) : string := s.
Definition decodeSDP (s : string) : option string := Some s.

(** The world as the next client to run sees it: the same table, a
    later clock, its own peer connection. *)
Definition seen_at (now : Z) (w : Server) : Server :=
  {| db := db w; clock := now; signalingState := stable; hash := hash w |}.

Definition empty_room : Server :=
  {| db := ∅; clock := 1000; signalingState := stable; hash := "h" |}.

Definition A_joined :=
  run server (joinAndSignal "A" "ROOM" decodeSDP 0) mounted empty_room.
Definition A_offered :=
  run server (sendOffer "ROOM" encodeSDP "offer-A") A_joined.1.1.2 A_joined.1.2.
Definition B_joined :=
  run server (joinAndSignal "B" "ROOM" decodeSDP 0) mounted
    (seen_at 2000 A_offered.1.2).
Definition C_joined :=
  run server (joinAndSignal "C" "ROOM" decodeSDP 0) mounted
    (seen_at 2100 B_joined.1.2).
Definition B_answered :=
  run server (sendAnswer "B" "ROOM" encodeSDP "answer-B") B_joined.1.1.2
    (seen_at 3000 C_joined.1.2).
Definition C_answered :=
  run server (sendAnswer "C" "ROOM" encodeSDP "answer-C") C_joined.1.1.2
    (seen_at 3100 B_answered.1.2).
Definition C_heartbeat :=
  run server (heartbeat "C" "ROOM" decodeSDP) C_answered.1.1.2
    (seen_at 7100 C_answered.1.2).

(** The heartbeat of B, the receiver, five seconds after it answered. *)
Definition B_heartbeat :=
  run server (heartbeat "B" "ROOM" decodeSDP) B_answered.1.1.2
    (seen_at 8000 B_answered.1.2).

(** The receiver column of ROOM after a step. *)
Definition receiver_of {A : Type} (r : A * Client * Server * list logged)
  : option (option string) :=
  receiver_id <$> db r.1.2 !! "ROOM".

(** A row of which A is the initiator and B the receiver, last written
    at time 0, read by A at time [now]. *)
Definition occupied_at (now : Z) : Server :=
  {| db := {[ "ROOM" := {| room_id := "ROOM"; initiator_id := Some "A";
                           receiver_id := Some "B"; offer := Some "offer-A";
                           answer := Some "answer-B";
                           passphrase_hash := Some "h";
                           updated_at := Some 0 |} ]};
     clock := now; signalingState := stable; hash := "h" |}.

Definition A_rejoins (now : Z) :=
  run server (joinAndSignal "A" "ROOM" decodeSDP 0) mounted (occupied_at now).

End Scenario.

(** *** One handshake on the event loop *)

Definition keeps (c c' : Client) : Prop :=
  roleRef c' = roleRef c /\
  (processedOfferRef c = true -> processedOfferRef c' = true) /\
  (processedAnswerRef c = true -> processedAnswerRef c' = true).

Definition is_srd {R : Type} (cl : call R) : bool :=
  is_SetRemoteDescription (Logged cl).
Arguments is_srd : simpl never.

Fixpoint tame (cur : option Client) (n : nat) (t : task unit) : Prop :=
  match t with
  | Ret _ => True
  | Get k =>
      match cur with
      | Some c => tame (Some c) n (k c)
      | None => forall c, tame (Some c) n (k c)
      end
  | Put c' k =>
      match cur with
      | Some c => keeps c c'
      | None => False
      end /\ tame (Some c') n k
  | Read q k => forall r, tame cur n (k r)
  | Await cl k =>
      if is_srd cl
      then match n with
           | O => False
           | S m => forall r, tame None m (k r)
           end
      else forall r, tame None n (k r)
  | Fork _ _ => False
  end.

Definition budget (s : suspended) (m : nat) : Prop :=
  match s with Suspended cl k => forall r, tame None m (k r) end.

Definition guard_flag (c : Client) : bool :=
  match roleRef c with
  | receiver => processedOfferRef c
  | initiator => processedAnswerRef c
  | none => false
  end.

(** What happens on the event loop of a client during a handshake:
    - [Joins n]: [joinAndSignal(n)] is called, by the mount, by a
      reconnect timer or by a retry timer;
    - [Notified payload]: the callback of the subscription is called;
    - [Answered k]: the call awaited by the [k]-th suspended task is
      answered, and the task goes on;
    - [Meanwhile f]: what the other peers and time do to the world. *)
Inductive move (E : Env) :=
| Joins (retryCount : nat)
| Notified (payload : Change)
| Answered (k : nat)
| Meanwhile (f : world E -> world E).
Arguments Joins {E} retryCount.
Arguments Notified {E} payload.
Arguments Answered {E} k.
Arguments Meanwhile {E} f.

Section Play.

Variables peerId roomId : string.
Variable decodeSDP : string -> option string.

Definition move_on (E : Env) (m : move E) (l : Loop) (w : world E)
  : Loop * world E :=
  match m with
  | Joins retryCount =>
      (start (fun R q => observe E R q w)
         (joinAndSignal peerId roomId decodeSDP retryCount) l, w)
  | Notified payload =>
      (start (fun R q => observe E R q w)
         (onPostgresChanges peerId decodeSDP payload) l, w)
  | Answered k =>
      match pool l !! k with
      | Some (Suspended cl cont) =>
          let '(w', r) := respond E _ cl w in
          (start (fun R q => observe E R q w') (cont r)
             {| client := client l; pool := delete k (pool l);
                issued := issued l |}, w')
      | None => (l, w)
      end
  | Meanwhile f => (l, f w)
  end.

(** The moves of a schedule, one after the other. *)
Fixpoint play (E : Env) (ms : list (move E)) (l : Loop) (w : world E)
  : Loop * world E :=
  match ms with
  | [] => (l, w)
  | m :: rest => let '(l1, w1) := move_on E m l w in play E rest l1 w1
  end.

End Play.

(** The moves of the handlers of the subscription: a notification other
    than a deletion, an answer to a suspended task, the world going on. *)
Definition of_a_handler {E : Env} (m : move E) : Prop :=
  match m with
  | Joins _ => False
  | Notified payload => eventType payload <> DELETE
  | Answered _ | Meanwhile _ => True
  end.

(** The invariant of the handlers of the subscription: with what is still
    owed to the suspended tasks, at most one remote description is set,
    and none unless the guard of the role is up. *)
Definition handshake_inv (l : Loop) : Prop :=
  exists ms : list nat,
    Forall2 budget (pool l) ms /\
    (remote_descriptions_set (issued l) + sum_list ms <= 1)%nat /\
    ((1 <= remote_descriptions_set (issued l) + sum_list ms)%nat ->
     guard_flag (client l) = true).

(** The same notification delivered [n] times, each delivery handled to
    its end before the next. *)
Fixpoint redeliver (peerId : string) (decodeSDP : string -> option string)
    (E : Env) (n : nat) (payload : Change) (c : Client) (w : world E)
  : Client * world E * list logged :=
  match n with
  | O => (c, w, [])
  | S n' =>
      let '(_, c1, w1, l1) := run E (onPostgresChanges peerId decodeSDP payload) c w in
      let '(c2, w2, l2) := redeliver peerId decodeSDP E n' payload c1 w1 in
      (c2, w2, l1 ++ l2)
  end.

(** The calls of [log] that set a remote description. *)
Definition descriptions_set (log : list logged) : list logged :=
  List.filter is_SetRemoteDescription log.

(** *** Facts about the tasks *)

Section Facts.

Variables peerId roomId : string.
Variable encodeSDP : string -> string.
Variable decodeSDP : string -> option string.

Lemma run_bind {A B : Type} (E : Env) (t : task A) (f : A -> task B) c w :
  run E (t ≫= f) c w =
    let '(a, c1, w1, l1) := run E t c w in
    let '(b, c2, w2, l2) := run E (f a) c1 w1 in
    (b, c2, w2, l1 ++ l2).
Proof.
  revert f c w.
  induction t as [A a|A k IH|A c' k IH|A R q k IH|A R cl k IH|A t1 IH1 k IH];
    intros f c w; cbn.
  - by destruct (run E (f a) c w) as [[[b c2] w2] l2].
  - apply IH.
  - apply IH.
  - apply IH.
  - destruct (respond E R cl w) as [w' r]. change (bind (k r) f) with (k r ≫= f).
    rewrite IH. destruct (run E (k r) c w') as [[[a c1] w1] l1].
    by destruct (run E (f a) c1 w1) as [[[b c2] w2] l2].
  - destruct (run E t1 c w) as [[[u c1] w1] l1]. change (bind k f) with (k ≫= f).
    rewrite IH. destruct (run E k c1 w1) as [[[a c2] w2] l2].
    destruct (run E (f a) c2 w2) as [[[b c3] w3] l3]. by rewrite app_assoc.
Qed.



Lemma never_run {A : Type} (P : logged -> bool) (E : Env) (t : task A) :
  never P t -> forall c w, List.filter P (run E t c w).2 = [].
Proof.
  induction t as [A a|A k IH|A c' k IH|A R q k IH|A R cl k IH|A t1 IH1 k IH];
    intros Hn c w; cbn in *.
  - done.
  - by apply IH.
  - by apply IH.
  - by apply IH.
  - destruct Hn as [Hcl Hk]. destruct (respond E R cl w) as [w' r].
    specialize (IH r (Hk r) c w').
    destruct (run E (k r) c w') as [[[a c1] w1] l1]. cbn in *. by rewrite Hcl.
  - destruct Hn as [H1 H2]. specialize (IH1 H1 c w).
    destruct (run E t1 c w) as [[[u c1] w1] l1]. specialize (IH H2 c1 w1).
    destruct (run E k c1 w1) as [[[a c2] w2] l2]. cbn in *.
    by rewrite List.filter_app, IH1, IH.
Qed.

Lemma never_bind {A B : Type} (P : logged -> bool) (t : task A) (f : A -> task B) :
  never P t -> (forall a, never P (f a)) -> never P (t ≫= f).
Proof.
  induction t as [A a|A k IH|A c' k IH|A R q k IH|A R cl k IH|A t1 IH1 k IH];
    intros Ht Hf; cbn in *.
  - apply Hf.
  - intros c. by apply IH.
  - by apply IH.
  - intros r. by apply IH.
  - destruct Ht as [Hcl Hk]. split; [done|]. intros r. by apply IH.
  - destruct Ht as [H1 H2]. split; [done|]. by apply IH.
Qed.

(** Closes [never P t] goals of tasks written out as trees. *)
Ltac never_tac :=
  repeat (cbn;
          match goal with
          | |- True => exact I
          | |- _ /\ _ => split
          | |- forall _, _ => intro
          | |- _ = _ => reflexivity
          | |- never _ (match ?x with _ => _ end) => destruct x
          | |- never _ (if ?x then _ else _) => destruct x
          | |- never _ (bind (match ?x with _ => _ end) _) => destruct x
          | |- never _ (bind (if ?x then _ else _) _) => destruct x
          end).

Lemma answerOffer_never_hashes sdp : never is_HashPassphrase (answerOffer sdp).
Proof. unfold answerOffer. never_tac. Qed.

Lemma electRole_never_hashes retryCount pass_hash :
  never is_HashPassphrase (electRole peerId roomId decodeSDP retryCount pass_hash).
Proof. unfold electRole, reclaim, answerOffer. never_tac. Qed.

(** A run of [joinAndSignal] enters the body at most once, and not at all
    once three retries are used up. *)
Lemma joinAndSignal_runs (E : Env) retryCount c w :
  (procedure_runs (run E (joinAndSignal peerId roomId decodeSDP retryCount) c w).2 <= 1)%nat.
Proof.
  unfold joinAndSignal, procedure_runs. cbn -[Nat.ltb electRole].
  destruct (isSignalingRef c || (3 <? retryCount)%nat); [cbn; lia|].
  cbn -[electRole]. destruct (respond E _ HashPassphrase w) as [wa pass_hash].
  cbn -[electRole]. destruct (respond E _ (Subscribe roomId) wa) as [wb u].
  match goal with |- context [run E ?t ?c0 ?w0] =>
    assert (never is_HashPassphrase t) as Hnever;
    [|pose proof (never_run _ E _ Hnever c0 w0) as Hnone] end.
  { apply (never_bind _ (electRole peerId roomId decodeSDP retryCount pass_hash)).
    - apply electRole_never_hashes.
    - intros []; never_tac. }
  match goal with |- context [run E ?t ?c ?w] =>
    destruct (run E t c w) as [[[a c1] w1] l1] end.
  cbn in *. rewrite Hnone. cbn. lia.
Qed.

Lemma joinAndSignal_gives_up (E : Env) retryCount c w :
  (3 < retryCount)%nat ->
  run E (joinAndSignal peerId roomId decodeSDP retryCount) c w = (tt, c, w, []).
Proof.
  intros Hgt. unfold joinAndSignal. cbn -[Nat.ltb].
  destruct (Nat.ltb_spec 3 retryCount); [|lia]. by rewrite orb_true_r.
Qed.

Lemma procedure_runs_app l1 l2 :
  procedure_runs (l1 ++ l2) = (procedure_runs l1 + procedure_runs l2)%nat.
Proof. unfold procedure_runs. by rewrite List.filter_app, length_app. Qed.

Lemma collision_chain_bound (E : Env) fuel :
  forall retryCount c w,
    (procedure_runs (concat (collision_chain peerId roomId decodeSDP E fuel retryCount c w))
     <= 4 - retryCount)%nat.
Proof.
  induction fuel as [|fuel IH]; intros retryCount c w; [cbn; lia|].
  cbn [collision_chain].
  pose proof (joinAndSignal_runs E retryCount c w) as Hone.
  destruct (Nat.le_gt_cases retryCount 3) as [Hle|Hgt].
  - destruct (run E _ c w) as [[[u c'] w'] log]. cbn [snd] in Hone.
    destruct (last_timeout c') as [[ms [n| |]]|];
      cbn [concat]; rewrite ?app_nil_r; try lia.
    destruct (Nat.eqb_spec n (retryCount + 1));
      cbn [concat]; rewrite ?app_nil_r; [|lia].
    rewrite procedure_runs_app. specialize (IH n (fire_last c') w'). lia.
  - rewrite joinAndSignal_gives_up by done.
    destruct (last_timeout c) as [[ms [n| |]]|]; cbn; try lia.
    destruct (Nat.eqb_spec n (retryCount + 1)); cbn [concat app]; [|cbn; lia].
    specialize (IH n (fire_last c) w). lia.
Qed.

Lemma task_unit_ind (P : task unit -> Prop) :
  (forall a, P (Ret a)) ->
  (forall k, (forall c, P (k c)) -> P (Get k)) ->
  (forall c k, P k -> P (Put c k)) ->
  (forall R (q : query R) k, (forall r, P (k r)) -> P (Read q k)) ->
  (forall R (cl : call R) k, (forall r, P (k r)) -> P (Await cl k)) ->
  (forall t k, P t -> P k -> P (Fork t k)) ->
  forall t, P t.
Proof.
  intros HRet HGet HPut HRead HAwait HFork. fix IH 1. intros t.
  destruct t as [a|k|c k|R q k|R cl k|t k].
  - apply HRet.
  - apply HGet. intros c. apply IH.
  - apply HPut. apply IH.
  - apply HRead. intros r. apply IH.
  - apply HAwait. intros r. apply IH.
  - apply HFork; apply IH.
Qed.

Lemma keeps_refl c : keeps c c.
Proof. by repeat split. Qed.

Lemma keeps_trans c1 c2 c3 : keeps c1 c2 -> keeps c2 c3 -> keeps c1 c3.
Proof. intros (? & ? & ?) (? & ? & ?). repeat split; [congruence|auto..]. Qed.

Lemma keeps_guard c c' : keeps c c' -> guard_flag c = true -> guard_flag c' = true.
Proof.
  intros (Hr & Ho & Ha). unfold guard_flag. rewrite Hr.
  destruct (roleRef c); auto.
Qed.

Lemma tame_known n t : forall c, tame None n t -> tame (Some c) n t.
Proof.
  induction t as [a|k IH|c' k IH|R q k IH|R cl k IH|t1 k IH1 IH] using task_unit_ind;
    intros c Ht; cbn in *.
  - done.
  - apply Ht.
  - by destruct Ht.
  - intros r. by apply IH.
  - done.
  - done.
Qed.

Lemma tame_mono cur n t : tame cur n t -> tame cur (S n) t.
Proof.
  revert cur n.
  induction t as [a|k IH|c' k IH|R q k IH|R cl k IH|t1 k IH1 IH] using task_unit_ind;
    intros cur n Ht; cbn in *.
  - done.
  - destruct cur; [by apply IH|]. intros c. apply IH, Ht.
  - destruct Ht. split; [done|]. by apply IH.
  - intros r. apply IH, Ht.
  - destruct (is_srd cl).
    + destruct n as [|n]; [done|]. intros r. apply IH, Ht.
    + intros r. apply IH, Ht.
  - done.
Qed.

(** A tame task run to its next suspension. *)
Lemma run_sync_tame obs n t :
  forall c, tame (Some c) n t ->
    keeps c (run_sync obs t c).1 /\
    match (run_sync obs t c).2 with
    | [] => True
    | [Suspended cl k] =>
        if is_srd cl then exists m, n = S m /\ forall r, tame None m (k r)
        else forall r, tame None n (k r)
    | _ => False
    end.
Proof.
  induction t as [a|k IH|c' k IH|R q k IH|R cl k IH|t1 k IH1 IH] using task_unit_ind;
    intros c Ht; cbn in *.
  - split; [apply keeps_refl|done].
  - by apply IH.
  - destruct Ht as [Hk Ht]. destruct (IH c' Ht) as [Hk' Hs].
    split; [by eapply keeps_trans|done].
  - by apply IH.
  - split; [apply keeps_refl|]. destruct (is_srd cl); [|done].
    destruct n; [done|]. by exists n.
  - done.
Qed.

(** Closes [tame cur n t] goals of tasks written out as trees. *)
Ltac tame_tac :=
  repeat (cbn; unfold is_srd; cbn;
          match goal with
          | |- True => exact I
          | |- keeps _ _ => by repeat split
          | |- _ /\ _ => split
          | |- forall _, _ => intro
          | |- tame _ _ (match ?x with _ => _ end) => destruct x
          | |- tame _ _ (if ?x then _ else _) => destruct x
          | |- tame _ _ (bind (match ?x with _ => _ end) _) => destruct x
          end).

Lemma answerOffer_tame sdp c : tame (Some c) 1 (answerOffer sdp).
Proof. unfold answerOffer. tame_tac. Qed.

(** What a change notification other than a deletion starts: nothing
    that suspends, unless the guard of the role was down, and then the
    guard is up when the handler suspends, with one remote description
    either just set or still to set. *)
Lemma onPostgresChanges_guarded obs payload c :
  eventType payload <> DELETE ->
  let r := run_sync obs (onPostgresChanges peerId decodeSDP payload) c in
  keeps c r.1 /\
  match r.2 with
  | [] => True
  | [Suspended cl k] =>
      guard_flag c = false /\ guard_flag r.1 = true /\
      if is_srd cl then forall r, tame None 0 (k r)
      else forall r, tame None 1 (k r)
  | _ => False
  end.
Proof.
  intros Hne. cbv zeta. unfold onPostgresChanges. cbn [run_sync mbind task_bind bind get].
  set (offer_guard u :=
    truthy (offer u) && negb (is_peer (offer u) "CLAIMED")
    && match roleRef c with receiver => true | _ => false end
    && match connectionStatusRef c with preparing | idle => true | _ => false end
    && negb (processedOfferRef c)).
  set (answer_guard u :=
    truthy (answer u)
    && match roleRef c with initiator => true | _ => false end
    && negb (processedAnswerRef c)).
  assert (forall u, offer_guard u = true ->
            roleRef c = receiver /\ processedOfferRef c = false) as Hog.
  { intros u. unfold offer_guard. rewrite !andb_true_iff, !negb_true_iff.
    intros [[[[_ _] Hr] _] Hp]. split; [|done]. by destruct (roleRef c). }
  assert (forall u, answer_guard u = true ->
            roleRef c = initiator /\ processedAnswerRef c = false) as Hag.
  { intros u. unfold answer_guard. rewrite !andb_true_iff, !negb_true_iff.
    intros [[_ Hr] Hp]. split; [|done]. by destruct (roleRef c). }
  assert (forall ev : EventType, ev <> DELETE ->
    let t :=
      if match ev with INSERT => true | _ => false end
         && negb (is_connected c)
         && match roleRef c with none => true | _ => false end
      then modify (fun c => scheduleReconnect 300 (set_isSignaling false c))
      else
        match new payload with
        | None => mret tt
        | Some updatedRoom =>
            if offer_guard updatedRoom
            then
              modify (fun c => updateStatus preparing (set_processedOffer true c));;
              match offer updatedRoom ≫= decodeSDP with
              | None => mret tt
              | Some offerSDP => answerOffer offerSDP
              end
            else if answer_guard updatedRoom
            then
              st ← read SignalingState;
              if peersRef c
                 && match st with have_local_offer | stable => true | _ => false end
                 && is_peer (initiator_id updatedRoom) peerId
              then
                match answer updatedRoom ≫= decodeSDP with
                | None => mret tt
                | Some answerSDP =>
                    match st with
                    | have_local_offer =>
                        modify (set_processedAnswer true);;
                        _ ← await (SetRemoteDescription answerSDP);
                        mret tt
                    | _ => mret tt
                    end
                end
              else mret tt
            else mret tt
        end in
    keeps c (run_sync obs t c).1 /\
    match (run_sync obs t c).2 with
    | [] => True
    | [Suspended cl k] =>
        guard_flag c = false /\ guard_flag (run_sync obs t c).1 = true /\
        if is_srd cl then forall r, tame None 0 (k r)
        else forall r, tame None 1 (k r)
    | _ => False
    end) as Hmain.
  { intros ev _. cbv zeta.
    destruct (_ && _ && _).
    { cbn. split; [|done]. unfold scheduleReconnect.
      destruct (reconnectTimeoutRef _); by repeat split. }
    destruct (new payload) as [u|]; [|cbn; split; [apply keeps_refl|done]].
    destruct (offer_guard u) eqn:Eo.
    { destruct (Hog u Eo) as [Hrole Hflag].
      cbn -[is_srd]. destruct (offer u ≫= decodeSDP) as [sdp|]; cbn -[is_srd].
      - split; [by repeat split; cbn; try rewrite Hflag|].
        split; [unfold guard_flag; by rewrite Hrole|].
        split; [unfold guard_flag; cbn; by rewrite Hrole|].
        change (is_srd (SetupPeerConnection false)) with false. cbv iota.
        intros []. tame_tac.
      - split; [|done]. repeat split; cbn; try done; by rewrite Hflag. }
    destruct (answer_guard u) eqn:Ea; [|cbn; split; [apply keeps_refl|done]].
    destruct (Hag u Ea) as [Hrole Hflag].
    cbn -[is_srd]. destruct (_ && _ && _); [|cbn; split; [apply keeps_refl|done]].
    destruct (answer u ≫= decodeSDP) as [sdp|]; [|cbn; split; [apply keeps_refl|done]].
    destruct (obs _ SignalingState); cbn -[is_srd];
      try (split; [apply keeps_refl|done]).
    split; [repeat split; cbn; try done; try (by rewrite Hflag)|].
    split; [unfold guard_flag; by rewrite Hrole|].
    split; [unfold guard_flag; cbn; by rewrite Hrole|].
    change (is_srd (SetRemoteDescription sdp)) with true. cbv iota.
    intros r. exact I. }
  destruct (eventType payload) eqn:Eev; [| |done].
  - apply (Hmain INSERT). done.
  - apply (Hmain UPDATE). done.
Qed.

Lemma remote_descriptions_set_app l1 l2 :
  remote_descriptions_set (l1 ++ l2)
  = (remote_descriptions_set l1 + remote_descriptions_set l2)%nat.
Proof. unfold remote_descriptions_set. by rewrite List.filter_app, length_app. Qed.

Lemma remote_descriptions_set_one {R : Type} (cl : call R) :
  remote_descriptions_set [Logged cl] = if is_srd cl then 1%nat else 0%nat.
Proof. unfold remote_descriptions_set, is_srd. cbn. by destruct cl. Qed.

Lemma handshake_inv_change obs payload l :
  eventType payload <> DELETE ->
  handshake_inv l ->
  handshake_inv (start obs (onPostgresChanges peerId decodeSDP payload) l).
Proof.
  intros Hne (ms & Hms & Hle & Hflag).
  pose proof (onPostgresChanges_guarded obs payload (client l) Hne) as [Hkeeps Hshape].
  unfold start.
  destruct (run_sync obs _ (client l)) as [c' ss]. cbn [fst snd] in *.
  destruct ss as [|[R cl k] [|s ss]]; [| |done].
  - exists ms. cbn [pool issued client map]. rewrite !app_nil_r.
    split; [done|]. split; [done|]. intros H1. eapply keeps_guard; eauto.
  - destruct Hshape as (Hlow & Hup & Hk).
    assert (remote_descriptions_set (issued l) + sum_list ms = 0)%nat as Hzero.
    { destruct (Nat.eq_dec (remote_descriptions_set (issued l) + sum_list ms) 0);
        [done|]. rewrite Hflag in Hlow by lia. done. }
    unfold handshake_inv. cbn [pool issued client map issued_by].
    rewrite remote_descriptions_set_app, remote_descriptions_set_one.
    destruct (is_srd cl).
    + exists (ms ++ [0%nat]). rewrite sum_list_with_app. cbn.
      split; [apply Forall2_app; [done|by constructor]|]. split; [lia|done].
    + exists (ms ++ [1%nat]). rewrite sum_list_with_app. cbn.
      split; [apply Forall2_app; [done|by constructor]|]. split; [lia|done].
Qed.

Lemma handshake_inv_resume {R : Type} obs (cl : call R) k (r : R) p1 p2 l :
  pool l = p1 ++ Suspended cl k :: p2 ->
  handshake_inv l ->
  handshake_inv
    (start obs (k r) {| client := client l; pool := p1 ++ p2; issued := issued l |}).
Proof.
  intros Hpool (ms & Hms & Hle & Hflag). rewrite Hpool in Hms.
  apply Forall2_app_inv_l in Hms as (m1 & ms' & Hm1 & Hms & ->).
  apply Forall2_cons_inv_l in Hms as (m & m2 & Hm & Hm2 & ->).
  rewrite sum_list_with_app in Hle, Hflag. cbn [sum_list_with] in Hle, Hflag.
  change (id m) with m in Hle, Hflag.
  cbn [budget] in Hm.
  pose proof (run_sync_tame obs m (k r) (client l) (tame_known _ _ _ (Hm r)))
    as [Hkeeps Hshape].
  unfold start. cbn [client pool issued].
  destruct (run_sync obs (k r) (client l)) as [c' ss]. cbn [fst snd] in *.
  destruct ss as [|[R' cl' k'] [|s ss]]; [| |done].
  - exists (m1 ++ m2). cbn [map pool issued client].
    rewrite !app_nil_r, sum_list_with_app.
    split; [by apply Forall2_app|]. split; [lia|].
    intros H1. eapply keeps_guard; [done|]. apply Hflag. lia.
  - unfold handshake_inv. cbn [pool issued client map issued_by].
    rewrite remote_descriptions_set_app, remote_descriptions_set_one.
    destruct (is_srd cl').
    + destruct Hshape as (m' & -> & Hk').
      exists ((m1 ++ m2) ++ [m']). rewrite !sum_list_with_app. cbn.
      split; [apply Forall2_app; [by apply Forall2_app|by constructor]|].
      split; [lia|]. intros H1. eapply keeps_guard; [done|]. apply Hflag. lia.
    + exists ((m1 ++ m2) ++ [m]). rewrite !sum_list_with_app. cbn.
      split; [apply Forall2_app; [by apply Forall2_app|by constructor]|].
      split; [lia|]. intros H1. eapply keeps_guard; [done|]. apply Hflag. lia.
Qed.

Lemma handshake_inv_play (E : Env) (ms : list (move E)) :
  forall l w,
    Forall of_a_handler ms -> handshake_inv l ->
    handshake_inv (play peerId roomId decodeSDP E ms l w).1.
Proof.
  induction ms as [|m ms IH]; intros l w Hms Hinv; [done|].
  apply Forall_cons in Hms as [Hm Hms]. cbn [play].
  destruct (move_on peerId roomId decodeSDP E m l w) as [l1 w1] eqn:Emove.
  apply IH; [done|].
  destruct m as [n|payload|k|f]; cbn [move_on of_a_handler] in Emove, Hm.
  - done.
  - injection Emove as <- <-. by apply handshake_inv_change.
  - destruct (pool l !! k) as [[R cl cont]|] eqn:Ek.
    + destruct (respond E R cl w) as [w' r]. injection Emove as <- <-.
      rewrite delete_take_drop.
      eapply handshake_inv_resume; [|done].
      symmetry. by apply take_drop_middle.
    + by injection Emove as <- <-.
  - by injection Emove as <- <-.
Qed.

Lemma handshake_inv_fresh c : handshake_inv {| client := c; pool := []; issued := [] |}.
Proof. exists []. cbn. split; [constructor|]. split; [lia|lia]. Qed.


(** With the guard of its role up, a client lets a notification pass. *)
Lemma duplicate_ignored (E : Env) payload c w :
  eventType payload <> DELETE -> guard_flag c = true ->
  run E (onPostgresChanges peerId decodeSDP payload) c w = (tt, c, w, []).
Proof.
  intros Hne Hg. unfold onPostgresChanges. unfold guard_flag in Hg.
  cbn [run mbind task_bind bind get].
  destruct (eventType payload); [| |done];
    destruct (roleRef c); try discriminate; rewrite ?Hg, ?andb_false_r;
    cbn; destruct (new payload); cbn; rewrite ?andb_false_r; reflexivity.
Qed.

Lemma redeliver_ignored (E : Env) payload n :
  forall c w,
    eventType payload <> DELETE -> guard_flag c = true ->
    redeliver peerId decodeSDP E n payload c w = (c, w, []).
Proof.
  induction n as [|n IH]; intros c w Hne Hg; [done|].
  cbn [redeliver]. rewrite duplicate_ignored by done. by rewrite IH.
Qed.

Lemma offer_applied_once (E : Env) payload u sdp n c w :
  eventType payload <> DELETE -> new payload = Some u ->
  truthy (offer u) = true -> is_peer (offer u) "CLAIMED" = false ->
  offer u ≫= decodeSDP = Some sdp ->
  roleRef c = receiver ->
  connectionStatusRef c = idle \/ connectionStatusRef c = preparing ->
  processedOfferRef c = false ->
  descriptions_set (redeliver peerId decodeSDP E (S n) payload c w).2
  = [Logged (SetRemoteDescription sdp)].
Proof.
  intros Hne Hnew Ht Hc Hd Hrole Hst Hflag. cbn [redeliver].
  assert (exists c1 w1 l1,
    run E (onPostgresChanges peerId decodeSDP payload) c w = (tt, c1, w1, l1) /\
    guard_flag c1 = true /\
    descriptions_set l1 = [Logged (SetRemoteDescription sdp)])
    as (c1 & w1 & l1 & -> & Hg & Hl).
  { unfold onPostgresChanges. cbn [run mbind task_bind bind get].
    rewrite Hnew, Ht, Hc, Hrole, Hflag.
    assert (match connectionStatusRef c with
            | preparing | idle => true | _ => false end = true) as ->
      by (destruct Hst as [-> | ->]; done).
    destruct (eventType payload); [| |done]; cbn; rewrite ?andb_false_r; cbn;
      rewrite Hd; cbn; unfold guard_flag;
      destruct (respond E _ (SetupPeerConnection false) w) as [w1 []]; cbn;
      destruct (respond E _ (SetRemoteDescription sdp) w1) as [w2 [[]|]]; cbn;
      try (destruct (respond E _ CreateAnswer w2) as [w3 [ans|]]; cbn;
           try (destruct (respond E _ (SetLocalDescription ans) w3) as [w4 [[]|]]; cbn));
      (do 3 eexists; (split; [reflexivity|]); cbn; rewrite Hrole; done). }
  rewrite redeliver_ignored by done. cbn. by rewrite app_nil_r.
Qed.

Lemma answer_applied_once (E : Env) payload u sdp n c w :
  eventType payload <> DELETE -> new payload = Some u ->
  truthy (answer u) = true -> answer u ≫= decodeSDP = Some sdp ->
  is_peer (initiator_id u) peerId = true ->
  roleRef c = initiator -> processedAnswerRef c = false -> peersRef c = true ->
  observe E _ SignalingState w = have_local_offer ->
  descriptions_set (redeliver peerId decodeSDP E (S n) payload c w).2
  = [Logged (SetRemoteDescription sdp)].
Proof.
  intros Hne Hnew Ht Hd Hinit Hrole Hflag Hpeer Hstate. cbn [redeliver].
  assert (exists c1 w1 l1,
    run E (onPostgresChanges peerId decodeSDP payload) c w = (tt, c1, w1, l1) /\
    guard_flag c1 = true /\
    descriptions_set l1 = [Logged (SetRemoteDescription sdp)])
    as (c1 & w1 & l1 & -> & Hg & Hl).
  { unfold onPostgresChanges. cbn [run mbind task_bind bind get].
    rewrite Hnew, Ht, Hrole, Hflag.
    destruct (eventType payload); [| |done];
      repeat (rewrite ?andb_false_r, ?andb_false_l, ?andb_true_r, ?andb_true_l; cbn);
      rewrite Hstate, Hpeer, Hinit, Hd; cbn;
      destruct (respond E _ (SetRemoteDescription sdp) w) as [w1 r]; cbn;
      (do 3 eexists; (split; [reflexivity|]); unfold guard_flag; cbn;
       rewrite Hrole; done). }
  rewrite redeliver_ignored by done. cbn. by rewrite app_nil_r.
Qed.

(** *** The properties of signaling *)

(** C3. In a receiver handshake, gathering completion and the gathering
    timeout both run [sendAnswer]: it first issues the update that sets
    receiver_id to self and answer to the local description, conditional
    on receiver_id being null. If the update returns a row the status
    becomes ready. If it returns no row (or an error) the row is read
    again, and the status becomes ready when its receiver_id is self and
    room-full otherwise. *)
Theorem receiver_claim (E : Env) (w : world E) (c : Client)
    (description : string) (trigger : task unit) :
  gatheringComplete c = false ->
  trigger = onIceGatheringComplete (sendAnswer peerId roomId encodeSDP) description \/
  trigger = onGatherTimeout (sendAnswer peerId roomId encodeSDP) (Some description) ->
  let answerSDP := encodeSDP description in
  let claim := Update roomId true (claim_patch peerId answerSDP) in
  let '(w1, upd) := respond E _ claim w in
  let '(w2, cur) := respond E _ (Select roomId) w1 in
  let '(_, c', w', log) := run E trigger c w in
  set_receiver_id (claim_patch peerId answerSDP) = Some peerId /\
  set_answer (claim_patch peerId answerSDP) = Some answerSDP /\
  isSignalingRef c' = false /\
  match upd with
  | Data (_ :: _) =>
      log = [Logged claim] /\ w' = w1 /\
      connectionStatusRef c' = ready /\ localSDPRef c' = answerSDP
  | _ =>
      log = [Logged claim; Logged (Select roomId)] /\ w' = w2 /\
      match cur with
      | Data [row] =>
          if is_peer (receiver_id row) peerId
          then connectionStatusRef c' = ready /\ localSDPRef c' = answerSDP
          else connectionStatusRef c' = room_full
      | _ => connectionStatusRef c' = room_full
      end
  end.
Proof.
  intros Hg Htrigger. cbv zeta.
  assert (run E trigger c w = run E (sendAnswer peerId roomId encodeSDP description) c w)
    as ->.
  { destruct Htrigger as [-> | ->]; do 3 (cbn; rewrite ?Hg); reflexivity. }
  cbn. rewrite Hg. cbn.
  destruct (respond E _ (Update roomId true _) w) as [w1 upd].
  destruct upd as [[|row rows]|]; cbn.
  2:{ destruct (respond E _ (Select roomId) w1) as [w2 cur]. cbn. done. }
  all: destruct (respond E _ (Select roomId) w1) as [w2 cur];
    destruct cur as [[|row [|row' rows']]|]; cbn; try done;
    destruct (is_peer (receiver_id row) peerId); cbn; done.
Qed.

(** Among themselves the handlers of the subscription keep to one remote
    description: whatever notifications other than deletions arrive, in
    whatever order the handlers are resumed and with whatever answers,
    [setRemoteDescription] is called at most once as long as
    [joinAndSignal] does not run. *)
Lemma handlers_apply_once (E : Env) (ms : list (move E)) (c : Client) (w : world E) :
  Forall of_a_handler ms ->
  (remote_descriptions_set
     (issued (play peerId roomId decodeSDP E ms
                {| client := c; pool := []; issued := [] |} w).1) <= 1)%nat.
Proof.
  intros Hms.
  destruct (handshake_inv_play E ms _ w Hms (handshake_inv_fresh c))
    as (budgets & _ & Hle & _).
  lia.
Qed.

(** C6, as amended. When role election reads a fully occupied row of
    which self is an occupant, the row is deleted and the procedure
    restarted (after 500 ms, with the retry count at 0) when the row is
    more than 8000 ms stale; at 8000 ms exactly, and at anything less,
    such as 7900 ms, nothing is deleted and the status becomes room-full. *)
Theorem stale_row_reclamation (E : Env) (w : world E) (c : Client)
    (retryCount : nat) (row : SignalingPayload) (rest : list SignalingPayload)
    (updatedAt : Z) :
  isSignalingRef c = false -> (retryCount <= 3)%nat ->
  let '(wa, pass_hash) := respond E _ HashPassphrase w in
  let '(wb, _) := respond E _ (Subscribe roomId) wa in
  let '(wc, rooms) := respond E _ (Select roomId) wb in
  let '(wd, _) := respond E _ (Delete roomId) wc in
  rooms = Data (row :: rest) ->
  truthy (initiator_id row) = true -> truthy (receiver_id row) = true ->
  is_peer (initiator_id row) peerId || is_peer (receiver_id row) peerId = true ->
  updated_at row = Some updatedAt ->
  let age := observe E _ DateNow wc - updatedAt in
  let '(_, c', w', log) := run E (joinAndSignal peerId roomId decodeSDP retryCount) c w in
  SESSION_EXPIRY = 8000 /\
  isSignalingRef c' = false /\ heartbeatRef c' = false /\
  (8000 < age ->
     log = [Logged HashPassphrase; Logged (Subscribe roomId);
            Logged (Select roomId); Logged (Delete roomId)] /\
     w' = wd /\
     timeouts c' = timeouts c ++ [(500, RunJoinAndSignal 0)] /\
     connectionStatusRef c' = connectionStatusRef c) /\
  (age <= 8000 ->
     log = [Logged HashPassphrase; Logged (Subscribe roomId);
            Logged (Select roomId)] /\
     w' = wc /\
     timeouts c' = timeouts c /\
     connectionStatusRef c' = room_full).
Proof.
  intros Hs Hretry.
  destruct (respond E _ HashPassphrase w) as [wa pass_hash] eqn:Ea.
  destruct (respond E _ (Subscribe roomId) wa) as [wb u] eqn:Eb.
  destruct (respond E _ (Select roomId) wb) as [wc rooms] eqn:Ec.
  destruct (respond E _ (Delete roomId) wc) as [wd del] eqn:Ed.
  intros -> Hi Hr Hself Hupd. cbv zeta.
  assert (forall t1 t2 : task unit,
            (if (3 <? retryCount)%nat then t1 else t2) = t2) as Hguard.
  { intros. by destruct (Nat.ltb_spec 3 retryCount); [lia|]. }
  unfold joinAndSignal. cbn -[Nat.ltb]. rewrite Hs. cbn -[Nat.ltb].
  rewrite Hguard. cbn. rewrite Ea. cbn. rewrite Eb. cbn. rewrite Ec. cbn.
  rewrite Hi, Hr. cbn. rewrite Hupd, Hself.
  unfold SESSION_EXPIRY.
  destruct (Z.ltb_spec 8000 (observe E Z DateNow wc - updatedAt)); cbn.
  - rewrite Ed. cbn. repeat split; try done; lia.
  - repeat split; try done; lia.
Qed.

(** C7, as amended. When role election finds no row and the insert
    collides, the run ends by setting a 300 ms timer for
    [joinAndSignal(retryCount + 1)]; a call with a retry count above 3
    returns at once; so a chain of collisions enters the procedure at
    most 4 times: the first run and three retries. *)
Theorem insert_collision_retries (E : Env) (w : world E) (c : Client)
    (retryCount fuel : nat) :
  isSignalingRef c = false ->
  let '(wa, pass_hash) := respond E _ HashPassphrase w in
  let '(wb, _) := respond E _ (Subscribe roomId) wa in
  let '(wc, rooms) := respond E _ (Select roomId) wb in
  let '(wd, claim) := respond E _ (Insert (claim_row peerId roomId pass_hash)) wc in
  (forall row rest, rooms <> Data (row :: rest)) ->
  claim = Error ->
  let '(_, c', w', log) := run E (joinAndSignal peerId roomId decodeSDP retryCount) c w in
  ((retryCount <= 3)%nat ->
     log = [Logged HashPassphrase; Logged (Subscribe roomId);
            Logged (Select roomId);
            Logged (Insert (claim_row peerId roomId pass_hash))] /\
     w' = wd /\
     timeouts c' = timeouts c ++ [(300, RunJoinAndSignal (retryCount + 1))] /\
     isSignalingRef c' = false /\ heartbeatRef c' = false /\
     roleRef c' = initiator) /\
  ((3 < retryCount)%nat -> log = [] /\ c' = c /\ w' = w) /\
  (procedure_runs
     (concat (collision_chain peerId roomId decodeSDP E fuel 0 c w)) <= 4)%nat.
Proof.
  intros Hs.
  destruct (respond E _ HashPassphrase w) as [wa pass_hash] eqn:Ea.
  destruct (respond E _ (Subscribe roomId) wa) as [wb u] eqn:Eb.
  destruct (respond E _ (Select roomId) wb) as [wc rooms] eqn:Ec.
  destruct (respond E _ (Insert _) wc) as [wd claim] eqn:Ed.
  intros Habsent ->.
  pose proof (collision_chain_bound E fuel 0 c w) as Hbound.
  destruct (Nat.le_gt_cases retryCount 3) as [Hle|Hgt].
  - assert (forall t1 t2 : task unit,
              (if (3 <? retryCount)%nat then t1 else t2) = t2) as Hguard.
    { intros. by destruct (Nat.ltb_spec 3 retryCount); [lia|]. }
    unfold joinAndSignal. cbn -[Nat.ltb]. rewrite Hs. cbn -[Nat.ltb].
    rewrite Hguard. cbn. rewrite Ea. cbn. rewrite Eb. cbn. rewrite Ec.
    assert (match rooms with Data (r :: _) => Some r | _ => None end = None) as ->.
    { destruct rooms as [[|row rest]|]; try done. by destruct (Habsent row rest). }
    cbn. rewrite Ed. cbn. split; [done|]. split; [lia|lia].
  - rewrite joinAndSignal_gives_up by done.
    split; [lia|]. split; [done|lia].
Qed.

End Facts.

(** *** The receiver column *)

Lemma slot_taken_served room l w :
  deletes room l = false -> slot_taken room w -> slot_taken room (served l w).
Proof.
  intros Hdel (row & Hrow & Hrecv). destruct l as [R cl].
  unfold slot_taken, served.
  destruct cl; cbn in *; try (by exists row).
  - destruct (db w !! room_id row0) eqn:E; cbn; [by exists row|].
    exists row. split; [|done]. rewrite lookup_insert_ne; [done|].
    intros Heq. rewrite Heq in E. congruence.
  - destruct (db w !! room0) as [row0|] eqn:E; cbn; [|by exists row].
    destruct (if_receiver_null && bool_decide (receiver_id row0 <> None)); cbn;
      [by exists row|].
    destruct (decide (room0 = room)) as [->|Hne].
    + rewrite lookup_insert_eq. eexists. split; [done|].
      assert (row0 = row) as -> by congruence. cbn.
      by destruct (set_receiver_id p).
    + rewrite lookup_insert_ne; [|done]. by exists row.
  - apply String.eqb_neq in Hdel. rewrite lookup_delete_ne; [|done]. by exists row.
  - destruct (signalingState w); cbn; by exists row.
  - destruct (signalingState w); cbn; by exists row.
Qed.

Lemma receiver_write_taken room l w :
  slot_taken room w -> List.filter fst (receiver_write room l w) = [].
Proof.
  intros (row & Hrow & Hrecv). destruct l as [R cl]. destruct cl; try done.
  unfold receiver_write. cbn [serve].
  destruct (String.eqb_spec room0 room) as [->|Hne].
  - rewrite Hrow. destruct if_receiver_null; cbn.
    + rewrite bool_decide_eq_true_2; [|done]. done.
    + by destruct (set_receiver_id p).
  - destruct (db w !! room0); [|done].
    destruct (if_receiver_null && _); cbn; [done|].
    by destruct (set_receiver_id p).
Qed.

Lemma receiver_write_takes room l w :
  (length (List.filter fst (receiver_write room l w)) <= 1)%nat /\
  (List.filter fst (receiver_write room l w) <> [] -> slot_taken room (served l w)).
Proof.
  destruct l as [R cl]. destruct cl; try (cbn; split; [lia|done]).
  unfold receiver_write, served. cbn [serve].
  destruct (db w !! room0) as [row0|] eqn:Hrow; [|cbn; split; [lia|done]].
  destruct (if_receiver_null && bool_decide (receiver_id row0 <> None)) eqn:Hc;
    [cbn; split; [lia|done]|].
  cbn. destruct (set_receiver_id p) as [v|] eqn:Hv; [|cbn; split; [lia|done]].
  destruct (String.eqb_spec room0 room) as [->|Hne]; [|cbn; split; [lia|done]].
  destruct if_receiver_null; cbn; (split; [lia|]); [|done].
  intros _. unfold slot_taken. cbn. rewrite lookup_insert_eq.
  eexists. split; [done|]. cbn. by rewrite Hv.
Qed.

Lemma conditional_writes_taken room log : forall w,
  row_kept room log = true -> slot_taken room w -> conditional_writes room log w = [].
Proof.
  unfold conditional_writes.
  induction log as [|l rest IH]; intros w Hkept Htaken; [done|].
  cbn in Hkept. apply andb_true_iff in Hkept as [Hl Hrest].
  apply negb_true_iff in Hl.
  cbn [receiver_writes]. rewrite List.filter_app, receiver_write_taken by done.
  cbn. apply IH; [done|]. by apply slot_taken_served.
Qed.

Lemma conditional_writes_once room log : forall w,
  row_kept room log = true -> (length (conditional_writes room log w) <= 1)%nat.
Proof.
  induction log as [|l rest IH]; intros w Hkept; [cbn; lia|].
  cbn in Hkept. apply andb_true_iff in Hkept as [Hl Hrest].
  unfold conditional_writes in *. cbn [receiver_writes].
  rewrite List.filter_app, length_app.
  destruct (receiver_write_takes room l w) as [Hle Htakes].
  destruct (List.filter fst (receiver_write room l w)) as [|e es] eqn:Hf.
  - cbn. by apply IH.
  - fold (conditional_writes room rest (served l w)).
    rewrite conditional_writes_taken; [cbn in *; lia|done|by apply Htakes].
Qed.

Lemma sendAnswer_writes (peerId room : string) (encodeSDP : string -> string)
    (description : string) (c : Client) (w : Server) :
  Forall (fun e => e.1 = true)
    (receiver_writes room (run server (sendAnswer peerId room encodeSDP description) c w).2 w).
Proof.
  unfold sendAnswer. cbn [run mbind task_bind bind get modify await].
  destruct (gatheringComplete c); [by cbn|].
  cbn [run bind respond server].
  destruct (serve _ (Update room true (claim_patch peerId (encodeSDP description))) w)
    as [w1 upd] eqn:Hupd.
  match goal with |- context [run server ?t ?c1 w1] =>
    destruct (run server t c1 w1) as [[[u c2] w2] l2] eqn:Hrest end.
  cbn [snd receiver_writes].
  apply Forall_app. split.
  - unfold receiver_write. rewrite Hupd. cbn [snd claim_patch set_receiver_id].
    destruct upd as [[|row rows]|]; try done.
    destruct (String.eqb room room); [|done]. by repeat constructor.
  - assert (l2 = [] \/ l2 = [Logged (Select room)]) as Hl2.
    { destruct upd as [[|row rows]|]; cbn in Hrest.
      - destruct (db w1 !! room) as [r1|]; cbn in Hrest;
          try destruct (is_peer (receiver_id r1) peerId); cbn in Hrest;
          injection Hrest as <- <- <- <-; by right.
      - injection Hrest as <- <- <- <-. by left.
      - destruct (db w1 !! room) as [r1|]; cbn in Hrest;
          try destruct (is_peer (receiver_id r1) peerId); cbn in Hrest;
          injection Hrest as <- <- <- <-; by right. }
    destruct Hl2 as [->| ->]; by cbn.
Qed.

Lemma heartbeat_writes (peerId room : string) (decodeSDP : string -> option string)
    (c : Client) (w : Server) (row : SignalingPayload) :
  roleRef c = receiver -> db w !! room = Some row ->
  receiver_writes room (run server (heartbeat peerId room decodeSDP) c w).2 w
  = [(false, peerId)] /\
  receiver_id <$> db (run server (heartbeat peerId room decodeSDP) c w).1.2 !! room
  = Some (Some peerId).
Proof.
  intros Hrole Hrow. unfold heartbeat.
  cbn [run mbind task_bind bind get modify read await]. rewrite Hrole.
  cbn [run bind respond observe server serve]. rewrite Hrow. cbn.
  rewrite Hrow. cbn. rewrite String.eqb_refl, lookup_insert_eq. done.
Qed.

(** C4, as amended. While the row of a room is not deleted, at most one
    conditional update predicated on receiver-id being null sets receiver-id,
    and none does once the column is not null; the write of [sendAnswer] goes
    through that conditional update. It is not the only write of the
    column: the heartbeat of the client that holds the slot writes
    receiver-id = self again, by an update without the condition, and the
    column keeps its value. *)
Theorem receiver_claimed_once (room : string) (log : list logged) (w : Server) :
  row_kept room log = true ->
  (length (conditional_writes room log w) <= 1)%nat /\
  (slot_taken room w -> conditional_writes room log w = []) /\
  (forall (peerId : string) (encodeSDP : string -> string) (description : string)
          (c : Client),
      Forall (fun e => e.1 = true)
        (receiver_writes room
           (run server (sendAnswer peerId room encodeSDP description) c w).2 w)) /\
  (forall (peerId : string) (decodeSDP : string -> option string) (c : Client)
          (row : SignalingPayload),
      roleRef c = receiver -> db w !! room = Some row ->
      receiver_id row = Some peerId ->
      receiver_writes room (run server (heartbeat peerId room decodeSDP) c w).2 w
      = [(false, peerId)] /\
      receiver_id <$> db (run server (heartbeat peerId room decodeSDP) c w).1.2 !! room
      = receiver_id <$> db w !! room).
Proof.
  intros Hkept. split; [by apply conditional_writes_once|].
  split; [by apply conditional_writes_taken|].
  split; [intros; apply sendAnswer_writes|].
  intros peerId decodeSDP c row Hrole Hrow Hrecv.
  destruct (heartbeat_writes peerId room decodeSDP c w row Hrole Hrow) as [Hw Hdb].
  split; [done|]. rewrite Hdb, Hrow. cbn. by rewrite Hrecv.
Qed.

(** *** The scenarios *)

(** The heartbeat of a client whose role is receiver writes receiver_id,
    and its update carries no condition on the column. *)
Lemma heartbeat_unconditional (peerId roomId : string)
    (decodeSDP : string -> option string) (E : Env) (c : Client) (w : world E) :
  roleRef c = receiver ->
  exists rest,
    (run E (heartbeat peerId roomId decodeSDP) c w).2
    = Logged (Update roomId false
                (heartbeat_patch peerId receiver (observe E _ DateNow w))) :: rest /\
    set_receiver_id (heartbeat_patch peerId receiver (observe E _ DateNow w))
    = Some peerId.
Proof.
  intros Hrole. unfold heartbeat. cbn [run mbind task_bind bind get read await].
  rewrite Hrole. cbn [run bind].
  destruct (respond E _ (Update roomId false _) w) as [w1 res].
  match goal with |- context [run E ?t c w1] =>
    destruct (run E t c w1) as [[[u c2] w2] l2] end.
  cbn. by eexists.
Qed.

(** The slot overwritten, on three peers: B sets the receiver column
    through the conditional update, C is turned away with room-full while
    the column names B, and then the heartbeat of C, whose role is still
    receiver, sets the column to C. *)
Lemma heartbeat_overwrites_receiver :
  Scenario.receiver_of Scenario.C_joined = Some None /\
  Scenario.receiver_of Scenario.B_answered = Some (Some "B") /\
  connectionStatusRef Scenario.C_answered.1.1.2 = room_full /\
  Scenario.receiver_of Scenario.C_answered = Some (Some "B") /\
  Scenario.receiver_of Scenario.C_heartbeat = Some (Some "C").
Proof. vm_compute. repeat split. Qed.

(** C6 at its boundary: a row of which self is an occupant, exactly
    8000 ms stale, stays, and the client is in room-full with no restart
    pending. *)
Lemma stale_exactly_8s_not_reclaimed :
  ~ (db (Scenario.A_rejoins 8000).1.2 !! "ROOM" = None) /\
  connectionStatusRef (Scenario.A_rejoins 8000).1.1.2 = room_full /\
  timeouts (Scenario.A_rejoins 8000).1.1.2 = [].
Proof. vm_compute. repeat split. discriminate. Qed.

(** C7 at its bound: on a service where every insert collides the
    procedure is entered four times, not three. *)
Lemma four_runs_on_collisions :
  ~ (procedure_runs
       (concat (collision_chain "A" "ROOM" Scenario.decodeSDP colliding 10 0 mounted tt))
     <= 3)%nat.
Proof. vm_compute. lia. Qed.

(** B claims the receiver slot when its gathering completes. *)
Lemma receiver_claim_witness :
  gatheringComplete Scenario.B_joined.1.1.2 = false /\
  connectionStatusRef Scenario.B_answered.1.1.2 = ready /\
  localSDPRef Scenario.B_answered.1.1.2 = "answer-B".
Proof.
  assert (gatheringComplete Scenario.B_joined.1.1.2 = false) as Hg
    by (vm_compute; reflexivity).
  split; [exact Hg|].
  pose proof (receiver_claim "B" "ROOM" Scenario.encodeSDP server
                (Scenario.seen_at 3000 Scenario.C_joined.1.2)
                Scenario.B_joined.1.1.2 "answer-B"
                (onIceGatheringComplete
                   (sendAnswer "B" "ROOM" Scenario.encodeSDP) "answer-B")
                Hg (or_introl eq_refl)) as Hclaim.
  vm_compute in Hclaim. vm_compute. tauto.
Defined.

(** *** A receiver that joins again while the offer is posted

    A has entered ROOM and claimed it; B joins, finds the row claimed and
    waits for the offer as the receiver. Then [joinAndSignal] runs again
    on B, as the reconnect does that a visibility change schedules while
    the role is set and the status is not connected. While B waits for
    its new subscription A posts its offer, and the notification comes
    before the row is read. *)
Module Rejoin.
Import Scenario.

Definition B_waits :=
  run server (joinAndSignal "B" "ROOM" decodeSDP 0) mounted
    (seen_at 2000 A_joined.1.2).

(** A posts its offer. *)
Definition A_posts (w : Server) : Server :=
  served (Logged (Update "ROOM" false (offer_patch "offer-A"))) w.

(** The notification of that update, with the row as it is then. *)
Definition offer_posted : Change :=
  {| eventType := UPDATE;
     new := db (A_posts B_waits.1.2) !! "ROOM" |}.

Definition B_idle : Loop :=
  {| client := B_waits.1.1.2; pool := []; issued := [] |}.

(** The second run of [joinAndSignal] on B: the notification is handled
    between the subscription and the read of the row. *)
Definition notified_before_read : list (move server) :=
  [Joins 0; Answered 0; @Meanwhile server A_posts; Notified offer_posted;
   Answered 1; Answered 0; Answered 1; Answered 1].

(** The same with the notification after the row is read. *)
Definition notified_after_read : list (move server) :=
  [Joins 0; Answered 0; @Meanwhile server A_posts; Answered 0; Answered 0;
   Notified offer_posted; Answered 0].

End Rejoin.

(** C5 at a receiver that joins again. In one run of [joinAndSignal],
    the notification of the offer is handled first: the handler finds the
    processed-offer flag down, raises it and calls [setRemoteDescription].
    Then the row is read, and the fetch path raises the flag without
    testing it and calls [setRemoteDescription] with the same offer. When
    the row is read first, the handler finds the flag up and the offer is
    applied once. *)
Theorem offer_applied_twice :
  let c := client Rejoin.B_idle in
  (roleRef c = receiver /\ connectionStatusRef c = preparing /\
   isSignalingRef c = false) /\
  new Rejoin.offer_posted
  = Some {| room_id := "ROOM"; initiator_id := Some "A"; receiver_id := None;
            offer := Some "offer-A"; answer := None;
            passphrase_hash := Some "h"; updated_at := Some 2000 |} /\
  (let l := (play "B" "ROOM" Scenario.decodeSDP server Rejoin.notified_before_read
               Rejoin.B_idle (Scenario.seen_at 3000 Rejoin.B_waits.1.2)).1 in
   procedure_runs (issued l) = 1%nat /\
   issued l
   = [Logged HashPassphrase; Logged (Subscribe "ROOM");
      Logged (SetupPeerConnection false);
      Logged (SetRemoteDescription "offer-A");
      Logged (Select "ROOM");
      Logged (SetupPeerConnection false);
      Logged (SetRemoteDescription "offer-A")] /\
   remote_descriptions_set (issued l) = 2%nat) /\
  (let l := (play "B" "ROOM" Scenario.decodeSDP server Rejoin.notified_after_read
               Rejoin.B_idle (Scenario.seen_at 3000 Rejoin.B_waits.1.2)).1 in
   procedure_runs (issued l) = 1%nat /\
   remote_descriptions_set (issued l) = 1%nat).
Proof. vm_compute. repeat split. Qed.

(** A rejoins its own room 8001 ms after the row was last written. *)
Lemma stale_row_reclamation_witness :
  isSignalingRef mounted = false /\ (0 <= 3)%nat /\
  db (Scenario.A_rejoins 8001).1.2 !! "ROOM" = None /\
  timeouts (Scenario.A_rejoins 8001).1.1.2 = [(500, RunJoinAndSignal 0)].
Proof.
  split; [reflexivity|]. split; [lia|].
  pose proof (stale_row_reclamation "A" "ROOM" Scenario.decodeSDP server
                (Scenario.occupied_at 8001) mounted 0
                {| room_id := "ROOM"; initiator_id := Some "A";
                   receiver_id := Some "B"; offer := Some "offer-A";
                   answer := Some "answer-B"; passphrase_hash := Some "h";
                   updated_at := Some 0 |} [] 0 eq_refl ltac:(lia)) as Hrun.
  vm_compute in Hrun.
  specialize (Hrun eq_refl eq_refl eq_refl eq_refl eq_refl).
  vm_compute. destruct Hrun as (_ & _ & _ & Hstale & _).
  destruct (Hstale eq_refl) as (_ & Hw & Ht & _).
  split; [exact (f_equal (fun x => db x !! "ROOM") Hw)|exact Ht].
Defined.

(** A finds the room empty and its insert collides. *)
Lemma insert_collision_retries_witness :
  isSignalingRef mounted = false /\
  timeouts (run colliding (joinAndSignal "A" "ROOM" Scenario.decodeSDP 0) mounted tt).1.1.2
  = [(300, RunJoinAndSignal 1)] /\
  (procedure_runs
     (concat (collision_chain "A" "ROOM" Scenario.decodeSDP colliding 10 0 mounted tt))
   <= 4)%nat.
Proof.
  split; [reflexivity|].
  pose proof (insert_collision_retries "A" "ROOM" Scenario.decodeSDP colliding tt
                mounted 0 10 eq_refl) as Hrun.
  cbn [respond colliding] in Hrun.
  specialize (Hrun ltac:(discriminate) eq_refl).
  destruct (run colliding _ mounted tt) as [[[u c'] w'] log] eqn:Erun.
  destruct Hrun as (Hretry & _ & Hbound).
  destruct (Hretry ltac:(lia)) as (_ & _ & Ht & _).
  split; [exact Ht|exact Hbound].
Defined.

(** C4 on two peers: B sets the receiver column through the conditional
    update, and five seconds later its heartbeat writes the column again, by
    an update that carries no condition. *)
Lemma receiver_written_twice :
  let log := Scenario.B_answered.2 ++ Scenario.B_heartbeat.2 in
  let w := Scenario.seen_at 3000 Scenario.C_joined.1.2 in
  row_kept "ROOM" log = true /\
  receiver_writes "ROOM" log w = [(true, "B"); (false, "B")] /\
  ~ (length (receiver_writes "ROOM" log w) <= 1)%nat /\
  ~ Forall (fun e => e.1 = true) (receiver_writes "ROOM" log w).
Proof.
  vm_compute. repeat split; try done.
  - lia.
  - intros Hall. inversion Hall as [|e es _ Hrest]. inversion Hrest. done.
Qed.

(** B and C both try to claim the slot, and both heartbeats fire. *)
Lemma receiver_claimed_once_witness :
  let log := Scenario.B_answered.2 ++ Scenario.C_answered.2
             ++ Scenario.B_heartbeat.2 ++ Scenario.C_heartbeat.2 in
  let w := Scenario.seen_at 3000 Scenario.C_joined.1.2 in
  row_kept "ROOM" log = true /\
  (length (conditional_writes "ROOM" log w) <= 1)%nat.
Proof.
  intros log w.
  assert (row_kept "ROOM" log = true) as Hkept by (vm_compute; reflexivity).
  split; [exact Hkept|].
  exact (proj1 (receiver_claimed_once "ROOM" log w Hkept)).
Defined.

End Signaling.

(** * Entering a session

    The two ways into a room: the form of [Setup] and the fragment of the
    entry URL read by [checkMagicLink] in [App]. Strings are lists of UTF-16
    code units, as in [Encoding]. *)
Module Entry.
Import Encoding.

(** A literal of Basic Latin characters as code units. *)
Definition lit (s : string) : list Z :=
  (fun a => Z.of_N (Ascii.N_of_ascii a)) <$> String.list_ascii_of_string s.

(** [RoomConfig] of types.ts. *)
Record RoomConfig := {
  roomId : list Z;
  passphrase : list Z;
  userName : list Z;
  recordingProtection : bool;
  ephemeralSession : bool;
  defaultFilter : Transfer.PrivacyFilter
}.

(** WhiteSpace and LineTerminator code points of ECMAScript, all of them
    in the Basic Multilingual Plane. *)
Definition is_white_space (u : Z) : bool :=
  (u =? 0x09) || (u =? 0x0A) || (u =? 0x0B) || (u =? 0x0C) || (u =? 0x0D)
  || (u =? 0x20) || (u =? 0xA0) || (u =? 0x1680)
  || ((0x2000 <=? u) && (u <=? 0x200A))
  || (u =? 0x2028) || (u =? 0x2029) || (u =? 0x202F) || (u =? 0x205F)
  || (u =? 0x3000) || (u =? 0xFEFF).

Fixpoint trimStart (s : list Z) : list Z :=
  match s with
  | u :: rest => if is_white_space u then trimStart rest else s
  | [] => []
  end.

(** [String.prototype.trim]. *)
Definition trim (s : list Z) : list Z :=
  reverse (trimStart (reverse (trimStart s))).

(** Upper case of a Basic Latin code unit. *)
Definition upper_basic_latin (u : Z) : Z :=
  if (0x61 <=? u) && (u <=? 0x7A) then u - 0x20 else u.

Definition basic_latin (s : list Z) : Prop := Forall (fun u => 0 <= u < 128) s.

(** [String.prototype.toUpperCase] is the platform's: the case mapping of
    Unicode, of which the part on Basic Latin strings is fixed here. *)
Class StringCase := {
  toUpperCase : list Z -> list Z;
  toUpperCase_basic_latin s :
    basic_latin s -> toUpperCase s = upper_basic_latin <$> s
}.

(** ** [URLSearchParams]

    The application/x-www-form-urlencoded parser of the URL standard, on
    the UTF-8 octets of the input. *)

(** The sequences between separators, empty ones included. *)
Fixpoint split_on (sep : Z) (bs : list Z) : list (list Z) :=
  match bs with
  | [] => [[]]
  | b :: rest =>
      if b =? sep then [] :: split_on sep rest
      else match split_on sep rest with
           | first :: others => (b :: first) :: others
           | [] => [[b]]
           end
  end.

(** A sequence cut at its first [sep]: what is before and what is after;
    all of it and nothing when there is none. *)
Fixpoint cut_at (sep : Z) (bs : list Z) : list Z * list Z :=
  match bs with
  | [] => ([], [])
  | b :: rest =>
      if b =? sep then ([], rest)
      else let '(name, value) := cut_at sep rest in (b :: name, value)
  end.

Definition hex_value (b : Z) : option Z :=
  if (0x30 <=? b) && (b <=? 0x39) then Some (b - 0x30)
  else if (0x41 <=? b) && (b <=? 0x46) then Some (b - 0x41 + 10)
  else if (0x61 <=? b) && (b <=? 0x66) then Some (b - 0x61 + 10)
  else None.

Fixpoint percent_decode (bs : list Z) : list Z :=
  match bs with
  | [] => []
  | b :: rest =>
      if b =? 0x25 then
        match rest with
        | h1 :: h2 :: rest' =>
            match hex_value h1, hex_value h2 with
            | Some hi, Some lo => (16 * hi + lo) :: percent_decode rest'
            | _, _ => b :: percent_decode rest
            end
        | _ => b :: percent_decode rest
        end
      else b :: percent_decode rest
  end.

(** UTF-8 decode without BOM, to a string. *)
Definition utf8_decode_without_BOM (bs : list Z) : list Z :=
  of_scalar_values (utf8_decode bs).

Definition plus_to_space (bs : list Z) : list Z :=
  (fun b => if b =? 0x2B then 0x20 else b) <$> bs.

Definition decode_component (bs : list Z) : list Z :=
  utf8_decode_without_BOM (percent_decode (plus_to_space bs)).

Definition is_empty (bs : list Z) : bool :=
  match bs with [] => true | _ => false end.

Definition parse_urlencoded (bs : list Z) : list (list Z * list Z) :=
  (fun seq => let '(name, value) := cut_at 0x3D seq in
              (decode_component name, decode_component value))
  <$> List.filter (fun seq => negb (is_empty seq)) (split_on 0x26 bs).

(** [new URLSearchParams(init)] for a string: a leading [?] is dropped. *)
Definition URLSearchParams (init : list Z) : list (list Z * list Z) :=
  parse_urlencoded
    (TextEncoder_encode
       (match init with
        | u :: rest => if u =? 0x3F then rest else init
        | [] => []
        end)).

(** [params.get(name)]: the value of the first pair named [name], or null. *)
Fixpoint get (name : list Z) (params : list (list Z * list Z)) : option (list Z) :=
  match params with
  | [] => None
  | (n, v) :: rest => if bool_decide (n = name) then Some v else get name rest
  end.

(** Truthiness of a string or null. *)
Definition truthy (o : option (list Z)) : bool :=
  match o with
  | Some (_ :: _) => true
  | _ => false
  end.

(** [hash.substring(1)]. *)
Definition substring_from (n : nat) (s : list Z) : list Z := drop n s.

(** [checkMagicLink] of [App], from [window.location.hash]; [suffix] is
    [Math.random().toString(36).substring(7)]. The result is the
    configuration handed to [setRoomConfig], [None] when nothing is done. *)
Definition checkMagicLink (hash suffix : list Z) : option RoomConfig :=
  let params := URLSearchParams (substring_from 1 hash) in
  let roomId := get (lit "room") params in
  let passphrase := get (lit "pass") params in
  match roomId, passphrase with
  | Some r, Some p =>
      if truthy roomId && truthy passphrase then
        Some {| roomId := r; passphrase := p;
                userName := [0x8BBF; 0x5BA2; 0x5F] ++ suffix;
                recordingProtection := true; ephemeralSession := true;
                defaultFilter := Transfer.NONE |}
      else None
  | _, _ => None
  end.

Section Setup.
Context `{StringCase}.

(** [handleSubmit] of [Setup], from the state of the form: the
    configuration handed to [onStart], which is [handleStartSession] and
    stores it with [setRoomConfig]. *)
Definition handleSubmit (roomName passphrase userName : list Z)
    (defaultFilter : Transfer.PrivacyFilter) : RoomConfig :=
  {| roomId := toUpperCase (trim roomName); passphrase := passphrase;
     userName := userName; recordingProtection := true;
     ephemeralSession := true; defaultFilter := defaultFilter |}.

(** A room identifier in its case-normalized form. *)
Definition case_normalized (s : list Z) : Prop := toUpperCase s = s.

End Setup.

Example parse_sample :
  URLSearchParams (lit "a=1&&b=x%20y+z&c&=d")
  = [(lit "a", lit "1"); (lit "b", lit "x y z"); (lit "c", []); ([], lit "d")].
Proof. reflexivity. Qed.

Example trim_sample : trim (lit "  ab c ") = lit "ab c".
Proof. reflexivity. Qed.

Example magic_link_sample :
  roomId <$> checkMagicLink (lit "#room=alpha-1&pass=hunter2") (lit "k3x9q")
  = Some (lit "alpha-1").
Proof. reflexivity. Qed.

(** The case mapping on Basic Latin alone, every other code unit left as
    it is: what the platform's does on the strings of the examples. *)
Definition basic_latin_case : StringCase :=
  {| toUpperCase s := upper_basic_latin <$> s;
     toUpperCase_basic_latin s _ := eq_refl |}.

Section Facts.
Context `{StringCase}.

Lemma trimStart_basic_latin s : basic_latin s -> basic_latin (trimStart s).
Proof.
  unfold basic_latin. induction 1 as [|u rest Hu Hrest IH]; cbn; [done|].
  destruct (is_white_space u); [done|by constructor].
Qed.

Lemma trim_basic_latin s : basic_latin s -> basic_latin (trim s).
Proof.
  intros Hs. unfold trim, basic_latin.
  apply Forall_reverse, trimStart_basic_latin, Forall_reverse.
  by apply trimStart_basic_latin.
Qed.

Lemma upper_basic_latin_idemp u :
  upper_basic_latin (upper_basic_latin u) = upper_basic_latin u.
Proof.
  unfold upper_basic_latin.
  destruct ((0x61 <=? u) && (u <=? 0x7A)) eqn:Hu.
  - assert ((0x61 <=? u - 0x20) && (u - 0x20 <=? 0x7A) = false) as ->; [|done].
    apply andb_true_iff in Hu as [Hlo Hhi].
    apply Z.leb_le in Hlo, Hhi. apply andb_false_iff. left. apply Z.leb_gt. lia.
  - by rewrite Hu.
Qed.

Lemma upper_basic_latin_range u : 0 <= u < 128 -> 0 <= upper_basic_latin u < 128.
Proof.
  unfold upper_basic_latin. intros Hu.
  destruct ((0x61 <=? u) && (u <=? 0x7A)) eqn:Hc; [|done].
  apply andb_true_iff in Hc as [Hlo Hhi]. apply Z.leb_le in Hlo, Hhi. lia.
Qed.

(** The form normalizes: for a room name of Basic Latin characters the
    stored identifier is in upper case. *)
Lemma handleSubmit_case_normalized roomName passphrase userName defaultFilter :
  basic_latin roomName ->
  case_normalized (roomId (handleSubmit roomName passphrase userName defaultFilter)).
Proof.
  intros Hs. unfold case_normalized. cbn.
  pose proof (trim_basic_latin _ Hs) as Ht.
  rewrite (toUpperCase_basic_latin (trim roomName)) by exact Ht.
  rewrite toUpperCase_basic_latin.
  - rewrite <- list_fmap_compose. apply list_fmap_ext. intros _ u _. cbn.
    apply upper_basic_latin_idemp.
  - unfold basic_latin in *. apply Forall_fmap.
    eapply Forall_impl; [exact Ht|]. intros u Hu. cbn. by apply upper_basic_latin_range.
Qed.

(** The magic link stores the [room] parameter as it is. *)
Lemma checkMagicLink_roomId hash suffix config :
  checkMagicLink hash suffix = Some config ->
  get (lit "room") (URLSearchParams (substring_from 1 hash)) = Some (roomId config).
Proof.
  unfold checkMagicLink. intros Hc.
  destruct (get (lit "room") _) as [r|]; [|done].
  destruct (get (lit "pass") _) as [p|]; [|done].
  destruct (truthy (Some r) && truthy (Some p)); [|done].
  by injection Hc as <-.
Qed.

(** C9 at the fragment [#room=alpha-1&pass=hunter2]: the session is
    entered with the room identifier [alpha-1], which is not in upper case,
    where the form, given the same room name, stores [ALPHA-1]. *)
Theorem magic_link_keeps_case (suffix userName : list Z)
    (defaultFilter : Transfer.PrivacyFilter) :
  exists config,
    checkMagicLink (lit "#room=alpha-1&pass=hunter2") suffix = Some config /\
    roomId config = lit "alpha-1" /\
    ~ case_normalized (roomId config) /\
    roomId (handleSubmit (lit "alpha-1") (lit "hunter2") userName defaultFilter)
    = lit "ALPHA-1".
Proof.
  eexists. split; [reflexivity|]. cbn [roomId].
  assert (basic_latin (lit "alpha-1")) as Hlatin
    by (unfold basic_latin; cbn; repeat constructor; lia).
  split; [reflexivity|]. split.
  - unfold case_normalized. rewrite toUpperCase_basic_latin by exact Hlatin.
    cbn. discriminate.
  - cbn. rewrite toUpperCase_basic_latin; [reflexivity|exact Hlatin].
Qed.

End Facts.

(** The link and the form, with the case mapping of Basic Latin. *)
Lemma magic_link_keeps_case_witness :
  exists config,
    checkMagicLink (lit "#room=alpha-1&pass=hunter2") (lit "k3x9q") = Some config /\
    roomId config = lit "alpha-1" /\
    roomId (@handleSubmit basic_latin_case (lit "alpha-1") (lit "hunter2")
              (lit "ann") Transfer.MOSAIC)
    = lit "ALPHA-1".
Proof.
  destruct (@magic_link_keeps_case basic_latin_case (lit "k3x9q") (lit "ann")
              Transfer.MOSAIC) as (config & Hlink & Hroom & _ & Hform).
  exists config. split; [exact Hlink|]. split; [exact Hroom|exact Hform].
Defined.

End Entry.

(** * Further properties of the code *)

(** * Further properties

    ** crypto.ts: what the text operations do on every string *)

Module CryptoFacts.
Import Encoding Crypto.

(** A chunk of input octets and its Base64 characters. *)
Lemma b64_encode_length bs :
  length (b64_encode bs) = (4 * ((length bs + 2) / 3))%nat.
Proof.
  unfold b64_encode. rewrite length_app, length_map.
  induction bs as [| a | a b | a b c rest IH] using list_ind3; try reflexivity.
  cbn [b64_sextets b64_padding length].
  replace (S (S (S (length rest))) + 2)%nat with (length rest + 2 + 1 * 3)%nat by lia.
  rewrite Nat.div_add by lia. lia.
Qed.

Lemma decode_encode_units s :
  Forall code_unit s ->
  TextDecoder_decode (TextEncoder_encode s)
  = of_scalar_values (skip_bom (to_scalar_values s)).
Proof.
  intros Hs. unfold TextDecoder_decode, TextEncoder_encode.
  by rewrite utf8_decode_encode by by apply to_scalar_values_scalar.
Qed.

Lemma atob_btoa_octets bs :
  octets bs ->
  btoa (fromCharCode bs) = Some (b64_encode bs) /\
  Uint8Array_from <$> (charCodes <$> atob (b64_encode bs)) = Some bs.
Proof.
  intros Hbs. pose proof (btoa_octets bs Hbs) as Hb. split; [done|].
  by apply (transport_round_trip bs Hbs).
Qed.

Section Messages.
Context `{WebCrypto}.

(** What [encryptMessage] returns, field by field. *)
Lemma encryptMessage_fields (key : CryptoKey) (text : list Z) (g : entropy) :
  Forall code_unit text ->
  let nonce := (getRandomValues g 12).1 in
  let ciphertext := subtle_encrypt key nonce (TextEncoder_encode text) in
  encryptMessage key text g
  = (Some {| data := b64_encode ciphertext; iv := b64_encode nonce |},
     (getRandomValues g 12).2) /\
  octets nonce /\ length nonce = 12%nat /\ octets ciphertext.
Proof.
  intros Htext nonce ciphertext.
  pose proof (getRandomValues_octets g 12) as Hoct.
  pose proof (getRandomValues_length g 12) as Hlen.
  assert (octets ciphertext) as Hct
    by (apply subtle_encrypt_octets; [done|by apply TextEncoder_octets]).
  split; [|done]. unfold encryptMessage.
  subst nonce ciphertext. destruct (getRandomValues g 12) as [nonce g'].
  cbn [fst snd] in *.
  rewrite (proj1 (atob_btoa_octets _ Hct)), (proj1 (atob_btoa_octets _ Hoct)).
  reflexivity.
Qed.

Lemma decrypt_encrypt_units (key : CryptoKey) (text : list Z) (g : entropy) :
  Forall code_unit text ->
  exists m,
    (encryptMessage key text g).1 = Some m /\
    decryptMessage key (data m) (iv m)
    = Some (of_scalar_values (skip_bom (to_scalar_values text))).
Proof.
  intros Htext.
  destruct (encryptMessage_fields key text g Htext) as (Henc & Hoct & Hlen & Hct).
  eexists. rewrite Henc. split; [reflexivity|]. cbn [data iv].
  unfold decryptMessage.
  rewrite (proj2 (atob_btoa_octets _ Hct)), (proj2 (atob_btoa_octets _ Hoct)).
  cbn. rewrite subtle_decrypt_encrypt; [|done|by apply TextEncoder_octets].
  cbn. by rewrite decode_encode_units.
Qed.

(** X1. Whatever the string, [decryptMessage] applied to what
    [encryptMessage] returned under the same key gives the string as the
    encoder and the decoder leave it: every unpaired surrogate replaced
    by U+FFFD, and a leading U+FEFF dropped. *)
Theorem message_round_trip_any_string (key : CryptoKey) (text : list Z)
    (g : entropy) :
  Forall code_unit text ->
  exists m,
    (encryptMessage key text g).1 = Some m /\
    decryptMessage key (data m) (iv m)
    = Some (of_scalar_values (skip_bom (to_scalar_values text))).
Proof. apply decrypt_encrypt_units. Qed.

(** X2. [encryptMessage] never throws. Its [iv] is 16 Base64 characters
    that [atob] turns back into the 12 octets drawn from the random source,
    its [data] is a whole number of 4-character groups that [atob] turns
    back into the ciphertext, and the random source is used once. *)
Theorem encrypted_message_shape (key : CryptoKey) (text : list Z) (g : entropy) :
  Forall code_unit text ->
  exists m,
    encryptMessage key text g = (Some m, (getRandomValues g 12).2) /\
    length (iv m) = 16%nat /\
    atob (iv m) = Some (getRandomValues g 12).1 /\
    (length (data m) mod 4 = 0)%nat /\
    atob (data m)
    = Some (subtle_encrypt key (getRandomValues g 12).1 (TextEncoder_encode text)).
Proof.
  intros Htext.
  destruct (encryptMessage_fields key text g Htext) as (Henc & Hoct & Hlen & Hct).
  eexists. split; [exact Henc|]. cbn [data iv].
  rewrite !b64_encode_length, Hlen.
  split; [reflexivity|]. split; [by apply atob_b64_encode|].
  split; [|by apply atob_b64_encode].
  by rewrite Nat.mul_comm, Nat.Div0.mod_mul.
Qed.

End Messages.

(** A string with an unpaired surrogate, under the stand-in cipher. *)
Lemma message_round_trip_any_string_witness :
  Forall code_unit [0xD800; 0x41] /\
  exists m,
    (@encryptMessage ToyFacts.web_crypto 7 [0xD800; 0x41] 0).1 = Some m /\
    @decryptMessage ToyFacts.web_crypto 7 (data m) (iv m) = Some [0xFFFD; 0x41].
Proof.
  assert (Forall code_unit [0xD800; 0x41]) as Hunits
    by (repeat constructor; unfold code_unit; lia).
  split; [exact Hunits|].
  exact (@message_round_trip_any_string ToyFacts.web_crypto 7 [0xD800; 0x41] 0 Hunits).
Defined.

Lemma encrypted_message_shape_witness :
  Forall code_unit [0x48; 0x69] /\
  exists m,
    (@encryptMessage ToyFacts.web_crypto 7 [0x48; 0x69] 0).1 = Some m /\
    length (iv m) = 16%nat.
Proof.
  assert (Forall code_unit [0x48; 0x69]) as Hunits
    by (repeat constructor; unfold code_unit; lia).
  split; [exact Hunits|].
  destruct (@encrypted_message_shape ToyFacts.web_crypto 7 [0x48; 0x69] 0 Hunits)
    as (m & Henc & Hiv & _).
  exists m. split; [by rewrite Henc|exact Hiv].
Defined.

End CryptoFacts.

(** ** crypto.ts: the passphrase fingerprint *)

Module Fingerprint.
Import Encoding Crypto.

(** A settled promise. *)
Inductive outcome (A : Type) :=
| Resolved (a : A)
| Rejected (message : string).
Arguments Resolved {A} a.
Arguments Rejected {A} message.

Section Digest.

(** [crypto.subtle.digest('SHA-256', data)]: 32 octets. *)
Variable digest : list Z -> list Z.
Hypothesis digest_length : forall m, length (digest m) = 32%nat.
Hypothesis digest_octets : forall m, octets (digest m).

(** [hashPassphrase(passphrase)]; [subtle] says whether
    [window.crypto.subtle] is there (a secure context). *)
Definition hashPassphrase (subtle : bool) (passphrase : list Z)
  : outcome (list Z) :=
  if negb subtle then Rejected "SECURE_CONTEXT_REQUIRED"
  else
    let data := TextEncoder_encode passphrase in
    let hash := digest data in
    match btoa (fromCharCode hash) with
    | Some s => Resolved s
    | None => Rejected "InvalidCharacterError"
    end.

Lemma b64_padding_two_left bs :
  (length bs mod 3 = 2)%nat -> b64_padding bs = [61].
Proof.
  induction bs as [| a | a b | a b c rest IH] using list_ind3; cbn [length]; try done.
  intros Hmod. cbn [b64_padding]. apply IH.
  replace (S (S (S (length rest)))) with (length rest + 1 * 3)%nat in Hmod by lia.
  by rewrite Nat.Div0.mod_add in Hmod.
Qed.

Lemma hashPassphrase_resolved passphrase :
  hashPassphrase true passphrase
  = Resolved (b64_encode (digest (TextEncoder_encode passphrase))).
Proof.
  unfold hashPassphrase. cbn [negb].
  by rewrite (proj1 (CryptoFacts.atob_btoa_octets _ (digest_octets _))).
Qed.

(** X3. In a secure context [hashPassphrase] resolves, for every
    passphrase, to 44 Base64 characters, the last of them the padding
    character, which [atob] turns back into the 32 octets of the digest: two
    passphrases have the same fingerprint exactly when they have the same
    digest. Outside a secure context it rejects with
    SECURE_CONTEXT_REQUIRED. *)
Theorem fingerprint_is_the_digest (passphrase : list Z) :
  (exists h,
      hashPassphrase true passphrase = Resolved h /\
      length h = 44%nat /\ last h = Some 61 /\
      atob h = Some (digest (TextEncoder_encode passphrase)) /\
      forall other,
        hashPassphrase true other = Resolved h <->
        digest (TextEncoder_encode other) = digest (TextEncoder_encode passphrase)) /\
  hashPassphrase false passphrase = Rejected "SECURE_CONTEXT_REQUIRED".
Proof.
  split; [|reflexivity].
  eexists. split; [apply hashPassphrase_resolved|].
  pose proof (digest_octets (TextEncoder_encode passphrase)) as Hoct.
  pose proof (digest_length (TextEncoder_encode passphrase)) as Hlen.
  split; [by rewrite CryptoFacts.b64_encode_length, Hlen|].
  split.
  { unfold b64_encode. rewrite b64_padding_two_left by by rewrite Hlen.
    by rewrite last_snoc. }
  split; [by apply atob_b64_encode|].
  intros other. rewrite hashPassphrase_resolved. split.
  - intros Heq. injection Heq as Heq.
    apply (f_equal atob) in Heq.
    rewrite !atob_b64_encode in Heq by done. by injection Heq.
  - by intros ->.
Qed.

End Digest.

(** A stand-in digest for the examples: the first 32 octets of the data,
    zero-filled. *)
Definition toy_digest (m : list Z) : list Z :=
  take 32 ((fun b => b mod 256) <$> m ++ replicate 32 0).

Lemma toy_digest_length m : length (toy_digest m) = 32%nat.
Proof.
  unfold toy_digest.
  rewrite length_take, length_fmap, length_app, length_replicate. lia.
Qed.

Lemma toy_digest_octets m : octets (toy_digest m).
Proof.
  unfold toy_digest, octets. apply Forall_take, Forall_fmap, Forall_forall.
  intros b _. cbn. unfold is_byte. dlia.
Qed.

Lemma fingerprint_is_the_digest_witness :
  exists h,
    hashPassphrase toy_digest true [0x68; 0x75; 0x6E; 0x74; 0x65; 0x72; 0x32] = Resolved h /\
    length h = 44%nat.
Proof.
  destruct (fingerprint_is_the_digest toy_digest toy_digest_length toy_digest_octets
              [0x68; 0x75; 0x6E; 0x74; 0x65; 0x72; 0x32])
    as ((h & Hh & Hlen & _) & _).
  exists h. split; [exact Hh|exact Hlen].
Defined.

End Fingerprint.

(** ** components/Room.tsx: chat, privacy updates and what a peer can do
    to the room *)

Module Conversation.
Import Encoding Crypto Transfer.

Definition is_NONE (filter : PrivacyFilter) : bool :=
  match filter with NONE => true | _ => false end.

Section Room.
Context `{WebCrypto}.
Variable percent : Z -> Z -> Z.
Variable userName : string.

(** The [forEach] of [sendMessage]: [dc.send(payload)] on every open
    channel, inside a [try]; [throws id] says whether [send] throws on the
    channel stored under [id]. The boolean is the variable [sent]. *)
Definition send_guarded (throws : string -> bool) (f : frame) (r : Room)
  : Room * bool :=
  (set_dataChannels
     (map (fun '(id, dc) =>
             (id, if is_open dc && negb (throws id) then dc_send f dc else dc))
        (dataChannelsRef r)) r,
   existsb (fun '(id, dc) => is_open dc && negb (throws id)) (dataChannelsRef r)).

(** [sendMessage(text)]; [id_now] and [now] are the two values of
    [Date.now()], [g] the random source. *)
Definition sendMessage (throws : string -> bool) (id_now now : Z) (g : entropy)
    (msg : list Z) (r : Room) : Room * entropy :=
  match encryptionKeyRef r with
  | None => (r, g)
  | Some key =>
      match encryptMessage key msg g with
      | (None, g') => (r, g')
      | (Some encrypted, g') =>
          let payload := TextFrame (Chat (data encrypted) (iv encrypted)) in
          let '(r1, sent) := send_guarded throws payload r in
          if sent then
            (set_messages
               (messages r1 ++
                  [{| cm_id := pretty id_now; cm_senderId := "local";
                      cm_senderName := userName; cm_text := Some msg;
                      cm_blobUrl := None; cm_fileName := None;
                      cm_type := text; cm_timestamp := now |}]) r1, g')
          else (showToast "链路断开，无法发送" error r1, g')
      end
  end.

(** [syncPrivacy(filter, muted)]. *)
Definition syncPrivacy (filter : PrivacyFilter) (muted : bool) (r : Room) : Room :=
  let r1 :=
    send_to_open
      (TextFrame (PrivacyUpdate filter (negb muted) (is_NONE filter))) r in
  set_participants
    (map (fun p =>
            if p_isLocal p
            then {| p_id := p_id p; p_name := p_name p; p_isLocal := p_isLocal p;
                    p_audioEnabled := negb muted;
                    p_videoEnabled := is_NONE filter |}
            else p) (participants r1)) r1.

(** The assembly in progress is consistent: the bytes counted are the
    bytes held, and there is still something to wait for unless no chunk
    has come yet. *)
Definition assembly_ok (r : Room) : Prop :=
  forall s, receivingRef r = Some s ->
    rf_received s = Z.of_nat (length (concat (rf_chunks s))) /\
    (rf_received s < rf_size s \/ rf_chunks s = []).

End Room.

Section Facts.
Context `{WebCrypto}.
Variable percent : Z -> Z -> Z.
Variable userName : string.

Lemma send_guarded_closed throws f r :
  (forall id dc, (id, dc) ∈ dataChannelsRef r -> is_open dc && negb (throws id) = false) ->
  send_guarded throws f r = (set_dataChannels (dataChannelsRef r) r, false).
Proof.
  intros Hclosed. unfold send_guarded. f_equal.
  - f_equal. rewrite <- (map_id (dataChannelsRef r)) at 2.
    apply map_ext_in. intros [id dc] Hin. apply list_elem_of_In in Hin.
    by rewrite (Hclosed id dc Hin).
  - apply not_true_is_false. intros Hex. apply existsb_exists in Hex as ([id dc] & Hin & Hopen).
    apply list_elem_of_In in Hin. rewrite (Hclosed id dc Hin) in Hopen. done.
Qed.

Lemma set_dataChannels_same (r : Room) : set_dataChannels (dataChannelsRef r) r = r.
Proof. by destruct r. Qed.

(** X4. A chat message from end to end. With the key set and the peer
    channel open, [sendMessage] passes one chat frame to [send] and adds
    the text as typed to the sender's messages; the peer that holds the
    same key and handles that frame adds a message of type text, from the
    sender of the channel, whose text is the string as the encoder and the
    decoder leave it (unpaired surrogates replaced, a leading U+FEFF
    dropped). *)
Theorem chat_delivered (throws : string -> bool) (id_now now now' : Z)
    (g : entropy) (msg : list Z) (key : CryptoKey) (sender receiver : Room)
    (dc : RTCDataChannel) (id : string) :
  Forall code_unit msg ->
  encryptionKeyRef sender = Some key ->
  dataChannelsRef sender = [("peer", dc)] ->
  is_open dc = true -> throws "peer" = false ->
  encryptionKeyRef receiver = Some key ->
  exists f own shown,
    let sender' := (sendMessage userName throws id_now now g msg sender).1 in
    let receiver' := (onmessage percent id now' f receiver).1 in
    dataChannelsRef sender' = [("peer", dc_send f dc)] /\
    messages sender' = messages sender ++ [own] /\
    cm_text own = Some msg /\ cm_senderId own = "local" /\
    cm_senderName own = userName /\
    messages receiver' = messages receiver ++ [shown] /\
    cm_text shown = Some (of_scalar_values (skip_bom (to_scalar_values msg))) /\
    cm_senderId shown = id /\ cm_type shown = text.
Proof.
  intros Hmsg Hk Hdc Hopen Hthrows Hkr.
  destruct (CryptoFacts.encryptMessage_fields key msg g Hmsg) as (Henc & Hoct & Hlen & Hct).
  destruct (CryptoFacts.decrypt_encrypt_units key msg g Hmsg) as (m & Hm & Hdec).
  rewrite Henc in Hm. injection Hm as <-.
  eexists (TextFrame (Chat _ _)), _, _. cbv zeta.
  unfold sendMessage. rewrite Hk, Henc. unfold send_guarded.
  rewrite Hdc. cbn [map existsb]. rewrite Hopen, Hthrows. cbn.
  rewrite Hkr. cbn [data iv] in Hdec. rewrite Hdec. cbn.
  repeat split; reflexivity.
Qed.

(** X5. Without the key [sendMessage] does nothing at all. With the key
    but no channel on which [send] goes through (none open, or [send]
    throws on each open one), nothing is sent, no message is added and the
    toast says the link is down. *)
Theorem sendMessage_without_link (throws : string -> bool) (id_now now : Z)
    (g : entropy) (msg : list Z) (r : Room) :
  Forall code_unit msg ->
  (forall id dc, (id, dc) ∈ dataChannelsRef r ->
     is_open dc && negb (throws id) = false) ->
  match encryptionKeyRef r with
  | None => sendMessage userName throws id_now now g msg r = (r, g)
  | Some _ =>
      (sendMessage userName throws id_now now g msg r).1
      = showToast "链路断开，无法发送" error r
  end.
Proof.
  intros Hmsg Hclosed. unfold sendMessage.
  destruct (encryptionKeyRef r) as [key|] eqn:Hk; [|reflexivity].
  destruct (CryptoFacts.encryptMessage_fields key msg g Hmsg) as (Henc & _).
  rewrite Henc, send_guarded_closed by done.
  cbn. by rewrite set_dataChannels_same.
Qed.

(** X6. A privacy update from end to end. [syncPrivacy] sends one
    privacy-update frame on the open channel and sets the flags of the
    local participant; the peer that handles the frame sets the same flags
    on the participant it knows under the channel's identifier and on no
    other: audio is enabled exactly when the sender is not muted, video
    exactly when the filter is NONE. *)
Theorem privacy_update_seen (filter : PrivacyFilter) (muted : bool)
    (sender receiver : Room) (dc : RTCDataChannel) (id : string) (now : Z) :
  dataChannelsRef sender = [("peer", dc)] -> is_open dc = true ->
  let f := TextFrame (PrivacyUpdate filter (negb muted) (is_NONE filter)) in
  let sender' := syncPrivacy filter muted sender in
  let receiver' := (onmessage percent id now f receiver).1 in
  dataChannelsRef sender' = [("peer", dc_send f dc)] /\
  (forall p, p ∈ participants sender' -> p_isLocal p = true ->
     p_audioEnabled p = negb muted /\ p_videoEnabled p = is_NONE filter) /\
  (forall p, p ∈ participants receiver' -> p_id p = id ->
     p_audioEnabled p = negb muted /\ p_videoEnabled p = is_NONE filter) /\
  p_id <$> participants receiver' = p_id <$> participants receiver /\
  (forall p, p ∈ participants receiver -> p_id p <> id ->
     p ∈ participants receiver').
Proof.
  intros Hdc Hopen. cbv zeta. unfold syncPrivacy, send_to_open.
  cbn. rewrite Hdc. cbn. rewrite Hopen. split; [reflexivity|].
  split; [|split; [|split]].
  - intros p Hin Hlocal. apply list_elem_of_In, in_map_iff in Hin as (q & <- & Hq).
    destruct (p_isLocal q) eqn:Eq; [cbn; done|]. congruence.
  - intros p Hin Hid. apply list_elem_of_In, in_map_iff in Hin as (q & <- & Hq).
    destruct (String.eqb_spec (p_id q) id) as [Heq|Hne]; [cbn; done|]. done.
  - rewrite <- !list_fmap_compose. apply list_fmap_ext. intros _ q _. cbn.
    by destruct (String.eqb (p_id q) id).
  - intros p Hin Hne. apply list_elem_of_In, in_map_iff. exists p.
    split; [|by apply list_elem_of_In].
    by destruct (String.eqb_spec (p_id p) id).
Qed.

Definition is_terminate (f : frame) : bool :=
  match f with TextFrame SessionTerminate => true | _ => false end.

Lemma onmessage_messages id now f r :
  encryptionKeyRef (onmessage percent id now f r).1 = encryptionKeyRef r /\
  exists more, messages (onmessage percent id now f r).1 = messages r ++ more /\
               (length more <= 1)%nat.
Proof.
  assert (forall r' : Room,
            encryptionKeyRef r' = encryptionKeyRef r -> messages r' = messages r ->
            encryptionKeyRef r' = encryptionKeyRef r /\
            exists more, messages r' = messages r ++ more /\ (length more <= 1)%nat)
    as Hsame.
  { intros r' Hk Hm. split; [done|]. exists []. rewrite app_nil_r. split; [done|cbn; lia]. }
  destruct f as [p|d].
  - destruct p; cbn; try (by apply Hsame).
    destruct (encryptionKeyRef r) as [key|] eqn:Hk; cbn; [|by apply Hsame].
    destruct (decryptMessage key _ _); cbn; [|by apply Hsame].
    split; [done|]. by eexists [_].
  - cbn. unfold handleFileChunkReceive.
    destruct (receivingRef r) as [s|]; cbn; [|by apply Hsame].
    destruct (encryptionKeyRef r) as [key|] eqn:Hk; cbn; [|by apply Hsame].
    destruct (decryptBuffer key _ _); cbn; [|by apply Hsame].
    match goal with |- context [if ?b then _ else _] => destruct b end; cbn.
    + split; [done|]. by eexists [_].
    + by apply Hsame.
Qed.

(** X7. Whatever frames a peer sends, in whatever number, the key is
    not changed and the messages already shown are neither removed nor
    altered: messages are only added at the end, at most one per frame. *)
Theorem peer_frames_only_append (id : string) (fs : list (Z * frame)) (r : Room) :
  encryptionKeyRef (deliver percent id fs r).1 = encryptionKeyRef r /\
  exists more, messages (deliver percent id fs r).1 = messages r ++ more /\
               (length more <= length fs)%nat.
Proof.
  revert r. induction fs as [|[now f] fs IH]; intros r.
  - cbn. split; [done|]. exists []. by rewrite app_nil_r.
  - cbn [deliver].
    destruct (onmessage percent id now f r) as [r1 ev1] eqn:Estep.
    destruct (deliver percent id fs r1) as [r2 ev2] eqn:Erest. cbn [fst].
    destruct (onmessage_messages id now f r) as (Hk1 & m1 & Hm1 & Hl1).
    rewrite Estep in Hk1, Hm1. cbn [fst] in Hk1, Hm1.
    destruct (IH r1) as (Hk2 & m2 & Hm2 & Hl2).
    rewrite Erest in Hk2, Hm2. cbn [fst] in Hk2, Hm2.
    split; [congruence|]. exists (m1 ++ m2).
    rewrite Hm2, Hm1, <- app_assoc. split; [done|].
    rewrite length_app. cbn [length]. lia.
Qed.

Lemma onmessage_assembly id now f r :
  assembly_ok r -> assembly_ok (onmessage percent id now f r).1.
Proof.
  intros Hok. destruct f as [p|d].
  - destruct p; cbn; try (intros s Hs; cbn in Hs; by apply Hok).
    + destruct (encryptionKeyRef r) as [key|]; cbn; [|done].
      by destruct (decryptMessage key _ _).
    + intros s Hs. cbn in Hs. injection Hs as <-. cbn. split; [done|by right].
  - cbn. unfold handleFileChunkReceive.
    destruct (receivingRef r) as [s|] eqn:Hs; cbn; [|done].
    destruct (Hok s Hs) as [Hrecv _].
    destruct (encryptionKeyRef r) as [key|]; cbn; [|by intros ? ?].
    destruct (decryptBuffer key _ _) as [dec|]; cbn; [|by intros ? ?].
    destruct (Z.leb_spec (rf_size s) (rf_received s + Z.of_nat (length dec)));
      cbn; [by intros ? ?|].
    intros s' Hs'. cbn in Hs'. injection Hs' as <-. cbn.
    split; [|by left].
    rewrite concat_app, length_app. cbn [concat]. rewrite app_nil_r, Hrecv. lia.
Qed.

(** X8. The assembly of an incoming file stays consistent under every
    sequence of frames: the count of bytes received is the number of bytes
    held in its chunks, and as long as an assembly with chunks is open the
    count is below the announced size. *)
Theorem assembly_stays_consistent (id : string) (fs : list (Z * frame)) (r : Room) :
  assembly_ok r -> assembly_ok (deliver percent id fs r).1.
Proof.
  revert r. induction fs as [|[now f] fs IH]; intros r Hok; [done|].
  cbn [deliver].
  pose proof (onmessage_assembly id now f r Hok) as Hstep.
  destruct (onmessage percent id now f r) as [r1 ev1].
  specialize (IH r1 Hstep).
  destruct (deliver percent id fs r1) as [r2 ev2]. done.
Qed.

Lemma send_to_open_closed f (r : Room) :
  (forall id dc, (id, dc) ∈ dataChannelsRef r -> is_open dc = false) ->
  send_to_open f r = r /\ any_open r = false.
Proof.
  intros Hclosed. split.
  - unfold send_to_open.
    assert (map (fun '(id, dc) => (id, if is_open dc then dc_send f dc else dc))
              (dataChannelsRef r) = dataChannelsRef r) as ->;
      [|apply set_dataChannels_same].
    rewrite <- (map_id (dataChannelsRef r)) at 2.
    apply map_ext_in. intros [id dc] Hin. apply list_elem_of_In in Hin.
    by rewrite (Hclosed id dc Hin).
  - apply not_true_is_false. intros Hex.
    apply existsb_exists in Hex as ([id dc] & Hin & Hopen).
    apply list_elem_of_In in Hin. by rewrite (Hclosed id dc Hin) in Hopen.
Qed.

(** X10. A file within the size limit is not sent without the key or
    without an open channel: without the key [handleFileUpload] returns
    at once and changes nothing; with the key and no open channel it sends
    nothing, adds no transfer entry and shows the toast for a missing
    connection. *)
Theorem upload_needs_key_and_channel (env : nat -> ChannelView) (now : Z)
    (id : string) (g : entropy) (f : File) (r : Room) :
  file_size f <= MAX_FILE_SIZE ->
  (forall id dc, (id, dc) ∈ dataChannelsRef r -> is_open dc = false) ->
  handleFileUpload percent userName env now id g f r
  = match encryptionKeyRef r with
    | None => (r, NoKey)
    | Some _ => (showToast "未检测到连接" error r, NoConnection)
    end.
Proof.
  intros Hsize Hclosed. unfold handleFileUpload.
  destruct (encryptionKeyRef r); [|done].
  destruct (Z.ltb_spec MAX_FILE_SIZE (file_size f)); [lia|].
  destruct (send_to_open_closed
              (TextFrame (FileMeta id (file_name f) (file_size f) (file_type f)))
              r Hclosed) as [-> ->].
  reflexivity.
Qed.

Lemma onmessage_exited id now f r :
  exited (onmessage percent id now f r).1 = exited r || is_terminate f /\
  (is_terminate f = false ->
   dataChannelsRef (onmessage percent id now f r).1 = dataChannelsRef r).
Proof.
  destruct f as [p|d].
  - destruct p; cbn; rewrite ?orb_false_r, ?orb_true_r; try done.
    destruct (encryptionKeyRef r) as [key|]; cbn; [|done].
    by destruct (decryptMessage key _ _).
  - cbn. unfold handleFileChunkReceive. rewrite orb_false_r.
    destruct (receivingRef r) as [s|]; cbn; [|done].
    destruct (encryptionKeyRef r) as [key|]; cbn; [|done].
    destruct (decryptBuffer key _ _); cbn; [|done].
    by match goal with |- context [if ?b then _ else _] => destruct b end.
Qed.

(** X11. Of all the frames a peer can send, only a session-terminate
    frame ends the session, and one is enough, key or no key: after any
    sequence of frames the room has exited exactly when it had before or
    one of the frames was a session-terminate; and as long as none is, the
    data channels are left as they were. *)
Theorem only_terminate_ends_session (id : string) (fs : list (Z * frame)) (r : Room) :
  exited (deliver percent id fs r).1 = exited r || existsb is_terminate fs.*2 /\
  (existsb is_terminate fs.*2 = false ->
   dataChannelsRef (deliver percent id fs r).1 = dataChannelsRef r).
Proof.
  revert r. induction fs as [|[now f] fs IH]; intros r.
  - cbn. by rewrite orb_false_r.
  - cbn [deliver fmap list_fmap snd existsb].
    destruct (onmessage_exited id now f r) as [He1 Hd1].
    destruct (onmessage percent id now f r) as [r1 ev1]. cbn [fst] in *.
    destruct (IH r1) as [He2 Hd2].
    destruct (deliver percent id fs r1) as [r2 ev2]. cbn [fst] in *.
    split.
    + by rewrite He2, He1, orb_assoc.
    + intros Hnone. apply orb_false_iff in Hnone as [Hf Hfs].
      by rewrite Hd2, Hd1.
Qed.

End Facts.

(** *** The examples, under the stand-in cipher *)

#[local] Existing Instance ToyFacts.web_crypto.

Definition nobody (id : string) : bool := false.

(** The same room with its channel closed. *)
Definition offline_room : Room :=
  set_dataChannels [("peer", {| readyState := closed; sent := [] |})] Demo.room.

Lemma offline_room_closed id dc :
  (id, dc) ∈ dataChannelsRef offline_room -> is_open dc = false.
Proof.
  cbn. intros Hin. apply list_elem_of_singleton in Hin. by injection Hin as -> ->.
Defined.

Lemma chat_delivered_witness :
  exists f own shown,
    messages (sendMessage "ann" nobody 5 5 0 [0x48; 0x69] Demo.room).1 = [own] /\
    cm_text own = Some [0x48; 0x69] /\
    messages (onmessage Demo.percent "peer" 9 f Demo.room).1 = [shown] /\
    cm_text shown = Some [0x48; 0x69].
Proof.
  assert (Forall code_unit [0x48; 0x69]) as Hunits
    by (repeat constructor; unfold code_unit; lia).
  destruct (@chat_delivered ToyFacts.web_crypto Demo.percent "ann" nobody 5 5 9 0 [0x48; 0x69] 7
              Demo.room Demo.room {| readyState := open; sent := [] |} "peer"
              Hunits eq_refl eq_refl eq_refl eq_refl eq_refl)
    as (f & own & shown & _ & Hown & Htext & _ & _ & Hshown & Hseen & _).
  exists f, own, shown. repeat split; assumption.
Defined.

Lemma sendMessage_without_link_witness :
  (sendMessage "ann" nobody 5 5 0 [0x48; 0x69] offline_room).1
  = showToast "链路断开，无法发送" error offline_room.
Proof.
  assert (Forall code_unit [0x48; 0x69]) as Hunits
    by (repeat constructor; unfold code_unit; lia).
  exact (@sendMessage_without_link ToyFacts.web_crypto "ann" nobody 5 5 0 [0x48; 0x69] offline_room
           Hunits
           (fun id dc Hin =>
              eq_trans (f_equal (fun b => b && negb (nobody id))
                          (offline_room_closed id dc Hin)) eq_refl)).
Defined.

Lemma privacy_update_seen_witness :
  dataChannelsRef (syncPrivacy MOSAIC true Demo.room)
  = [("peer", {| readyState := open;
                 sent := [TextFrame (PrivacyUpdate MOSAIC false false)] |})].
Proof.
  exact (proj1 (@privacy_update_seen ToyFacts.web_crypto Demo.percent MOSAIC true Demo.room Demo.room
                  {| readyState := open; sent := [] |} "peer" 0 eq_refl eq_refl)).
Defined.

Lemma assembly_stays_consistent_witness :
  assembly_ok Demo.room /\
  assembly_ok
    (deliver Demo.percent "peer"
       [(1, TextFrame (FileMeta "f1" "a.bin" 10 "text/plain"));
        (2, BinaryFrame [1; 2; 3])] Demo.room).1.
Proof.
  assert (assembly_ok Demo.room) as Hok by (intros s Hs; discriminate Hs).
  split; [exact Hok|].
  exact (@assembly_stays_consistent ToyFacts.web_crypto Demo.percent "peer" _ Demo.room Hok).
Defined.

Lemma upload_needs_key_and_channel_witness :
  handleFileUpload Demo.percent "ann" clear_channel 0 "f1" 0 Demo.small_file
    offline_room
  = (showToast "未检测到连接" error offline_room, NoConnection).
Proof.
  exact (@upload_needs_key_and_channel ToyFacts.web_crypto Demo.percent "ann" clear_channel 0 "f1" 0
           Demo.small_file offline_room
           ltac:(unfold MAX_FILE_SIZE; cbn; lia) offline_room_closed).
Defined.

End Conversation.

(** ** components/Room.tsx: how a file is cut and paced *)

Module Pacing.
Import Encoding Crypto Transfer.

(** The test of the sending loop on the channel and the abort signal. *)
Definition admits (v : ChannelView) : bool :=
  view_is_open v && (view_bufferedAmount v <? BUFFER_THRESHOLD)
  && negb (view_aborted v).

(** How many of the observations [from], ..., [to - 1] pass that test. *)
Definition admitted (env : nat -> ChannelView) (from to : nat) : nat :=
  length (List.filter (fun t => admits (env t)) (seq from (to - from))).

Definition full (c : list Z) : Prop := Z.of_nat (length c) = CHUNK_SIZE.

(** Chunks of 64 KiB, the last one apart, which is not empty and not
    larger. *)
Definition full_but_last (cs : list (list Z)) : Prop :=
  cs = [] \/
  exists init final,
    cs = init ++ [final] /\ Forall full init /\
    0 < Z.of_nat (length final) <= CHUNK_SIZE.

Section Room.
Context `{WebCrypto}.
Variable percent : Z -> Z -> Z.
Variable userName : string.

(** Between two points of a transfer: the chunks [ps] went out, they are
    whole chunks as long as the cursor is short of the end, and each one
    used up an observation that passed the test. *)
Definition paced (env : nat -> ChannelView) (key : CryptoKey)
    (u : Upload) (r : Room) (u' : Upload) (r' : Room)
    (ps : list (list Z * list Z)) : Prop :=
  sent_since key u r u' r' ps /\
  (up_off u' < byteLength (up_buf u) -> Forall full ps.*2) /\
  full_but_last ps.*2 /\
  (up_tick u <= up_tick u')%nat /\
  (length ps <= admitted env (up_tick u) (up_tick u'))%nat /\
  0 <= up_off u.

End Room.

Lemma admitted_refl env t : admitted env t t = 0%nat.
Proof. unfold admitted. by rewrite Nat.sub_diag. Qed.

Lemma admitted_split env a b c :
  (a <= b <= c)%nat -> admitted env a c = (admitted env a b + admitted env b c)%nat.
Proof.
  intros Habc. unfold admitted.
  replace (c - a)%nat with ((b - a) + (c - b))%nat by lia.
  rewrite seq_app, List.filter_app, length_app.
  by replace (a + (b - a))%nat with b by lia.
Qed.

Lemma admitted_mono env a b c :
  (a <= b <= c)%nat -> (admitted env b c <= admitted env a c)%nat.
Proof. intros Habc. rewrite (admitted_split env a b c) by done. lia. Qed.

Lemma admitted_step env t :
  admits (env t) = true -> admitted env t (S t) = 1%nat.
Proof.
  intros Ht. unfold admitted. replace (S t - t)%nat with 1%nat by lia.
  cbn. by rewrite Ht.
Qed.

Lemma full_but_last_app cs1 cs2 :
  Forall full cs1 -> full_but_last cs2 -> cs2 <> [] -> full_but_last (cs1 ++ cs2).
Proof.
  intros H1 [->|(init & final & -> & Hinit & Hfinal)] Hne; [done|].
  right. exists (cs1 ++ init), final. rewrite app_assoc.
  split; [done|]. split; [by apply Forall_app|done].
Qed.

Lemma full_all cs : Forall full cs -> full_but_last cs.
Proof.
  intros Hcs. destruct (decide (cs = [])) as [->|Hne]; [by left|].
  right. destruct (exists_last Hne) as (init & final & ->).
  apply Forall_app in Hcs as [Hinit Hfinal]. apply Forall_inv in Hfinal.
  exists init, final. unfold full in Hfinal.
  assert (0 < CHUNK_SIZE) by (unfold CHUNK_SIZE; lia).
  split; [done|]. split; [done|lia].
Qed.

Section Facts.
Context `{WebCrypto}.
Variable percent : Z -> Z -> Z.
Variable userName : string.

Lemma paced_refl env key u r dc :
  dataChannelsRef r = [(up_dc u, dc)] -> encryptionKeyRef r = Some key ->
  0 <= up_off u <= byteLength (up_buf u) ->
  paced env key u r u r [].
Proof.
  intros Hdc Hk Hoff. split; [by eapply sent_since_refl|].
  split; [by constructor|]. split; [by left|]. split; [done|].
  split; [cbn; lia|lia].
Qed.

(** Chunks went out only if the cursor moved. *)
Lemma sent_since_moved key u r u' r' ps :
  sent_since key u r u' r' ps -> ps <> [] -> up_off u < up_off u'.
Proof.
  intros (_ & Hps & Hcat & Hoff & _) Hne.
  destruct ps as [|[nonce c] ps]; [done|].
  inversion_clear Hps as [|? ? (_ & _ & _ & Hp) _]. cbn in Hp.
  apply (f_equal length) in Hcat. cbn [fmap list_fmap snd concat] in Hcat.
  rewrite !length_app, !length_take in Hcat. unfold byteLength in Hoff.
  destruct c as [|b bs]; [done|]. cbn [length] in Hcat. lia.
Qed.

Lemma paced_trans env key u r u1 r1 u2 r2 ps1 ps2 :
  paced env key u r u1 r1 ps1 -> paced env key u1 r1 u2 r2 ps2 ->
  paced env key u r u2 r2 (ps1 ++ ps2).
Proof.
  intros (Hs1 & Hfull1 & Hlast1 & Ht1 & Hn1 & Hz1)
         (Hs2 & Hfull2 & Hlast2 & Ht2 & Hn2 & Hz2).
  pose proof Hs1 as (_ & _ & _ & Hoff1 & Hb1 & _).
  pose proof Hs2 as (_ & _ & _ & Hoff2 & _).
  rewrite Hb1 in *.
  split; [by eapply sent_since_trans|].
  destruct (decide (ps2 = [])) as [->|Hne].
  - rewrite app_nil_r.
    assert (up_off u2 = up_off u1) as Heq.
    { destruct Hs2 as (_ & _ & Hcat & _). cbn in Hcat. rewrite app_nil_r in Hcat.
      apply (f_equal length) in Hcat. rewrite !length_take, Hb1 in Hcat.
      unfold byteLength in *. lia. }
    rewrite Heq. split; [done|]. split; [done|]. split; [lia|]. split; [|done].
    rewrite (admitted_split env _ (up_tick u1)) by lia. cbn in Hn2. lia.
  - pose proof (sent_since_moved _ _ _ _ _ _ Hs2 Hne) as Hmoved.
    assert (Forall full ps1.*2) as Hall1 by (apply Hfull1; lia).
    rewrite fmap_app. split.
    { intros Hshort. apply Forall_app. split; [done|by apply Hfull2]. }
    split.
    { apply full_but_last_app; [done..|]. by destruct ps2. }
    split; [lia|]. split; [|done].
    rewrite length_app, (admitted_split env _ (up_tick u1)) by lia. lia.
Qed.

Lemma paced_room env key u r u' r1 r' ps :
  paced env key u r u' r1 ps ->
  dataChannelsRef r' = dataChannelsRef r1 ->
  encryptionKeyRef r' = encryptionKeyRef r1 ->
  paced env key u r u' r' ps.
Proof.
  intros (Hs & Hrest) Hd Hk. split; [by eapply sent_since_room|done].
Qed.

(** A later observation point changes nothing that was sent. *)
Lemma paced_tick env key u r u' r' ps t :
  paced env key u r u' r' ps -> (t <= up_tick u)%nat ->
  paced env key
    {| up_id := up_id u; up_file := up_file u; up_buf := up_buf u;
       up_off := up_off u; up_dc := up_dc u; up_tick := t;
       up_entropy := up_entropy u |} r u' r' ps.
Proof.
  intros (Hs & Hfull & Hlast & Ht & Hn & Hz) Hle.
  split; [exact Hs|]. split; [done|]. split; [done|]. cbn [up_tick up_off].
  split; [lia|]. split; [|done].
  pose proof (admitted_mono env t (up_tick u) (up_tick u')). lia.
Qed.

Lemma slice_length buf off :
  0 <= off < byteLength buf ->
  byteLength (slice buf off (off + CHUNK_SIZE)) = Z.min CHUNK_SIZE (byteLength buf - off).
Proof.
  intros Hoff. unfold slice, byteLength in *.
  replace (off + CHUNK_SIZE - off) with CHUNK_SIZE by lia.
  rewrite length_take, length_drop. pose proof CHUNK_SIZE_pos. lia.
Qed.

(** One pass of the loop body: a chunk cut, encrypted and sent. *)
Lemma paced_chunk env key (u : Upload) (r : Room) dc nonce g' :
  encryptionKeyRef r = Some key ->
  dataChannelsRef r = [(up_dc u, dc)] ->
  octets (up_buf u) -> 0 <= up_off u < byteLength (up_buf u) ->
  length nonce = 12%nat -> octets nonce ->
  admits (env (up_tick u)) = true ->
  let chunk := slice (up_buf u) (up_off u) (up_off u + CHUNK_SIZE) in
  let pack := nonce ++ subtle_encrypt key nonce chunk in
  paced env key u r
    {| up_id := up_id u; up_file := up_file u; up_buf := up_buf u;
       up_off := up_off u + byteLength chunk; up_dc := up_dc u;
       up_tick := S (up_tick u); up_entropy := g' |}
    (update_file (up_id u)
       (with_progress (percent (up_off u + byteLength chunk) (file_size (up_file u))))
       (send_on (up_dc u) (BinaryFrame pack) r))
    [(nonce, chunk)].
Proof.
  intros Hk Hdc Hbuf Hoff Hlen Hoct Hadm chunk pack.
  destruct (slice_chunk (up_buf u) (up_off u) Hbuf Hoff) as (Hchunk & Hne & Hle & Htake).
  pose proof (slice_length (up_buf u) (up_off u) Hoff) as Hsize.
  fold chunk in Hchunk, Hne, Hle, Htake, Hsize.
  assert (0 < byteLength chunk) as Hpos.
  { unfold byteLength. destruct chunk; [done|]. cbn [length]. lia. }
  unfold paced. cbn [up_off up_buf up_dc up_id up_file up_tick].
  split.
  { unfold sent_since. cbn [up_off up_buf up_dc up_id up_file].
    split.
    { exists dc. split; [done|]. cbn -[send_on]. by rewrite (send_on_single _ dc). }
    split. { constructor; [|constructor]. by repeat split. }
    split. { cbn. rewrite app_nil_r. exact Htake. }
    repeat split; try done; lia. }
  split.
  { intros Hshort. constructor; [|constructor]. unfold full. cbn [snd].
    fold (byteLength chunk). lia. }
  split.
  { right. exists [], chunk. split; [done|]. split; [constructor|].
    fold (byteLength chunk). lia. }
  split; [lia|]. split; [|lia].
  rewrite admitted_step by done. cbn. lia.
Qed.

Lemma send_loop_paced env key fuel :
  forall u r r' u' e dc,
    send_loop percent env fuel u r = (r', u', e) ->
    encryptionKeyRef r = Some key ->
    dataChannelsRef r = [(up_dc u, dc)] ->
    octets (up_buf u) -> 0 <= up_off u <= byteLength (up_buf u) ->
    exists ps, paced env key u r u' r' ps.
Proof.
  induction fuel as [|fuel IH]; intros u r r' u' e dc Hrun Hk Hdc Hbuf Hoff.
  - cbn [send_loop] in Hrun.
    destruct (_ && _) in Hrun; injection Hrun as <- <- <-;
      exists []; by eapply paced_refl.
  - cbn [send_loop] in Hrun.
    destruct (_ && _) eqn:Hcond in Hrun; cycle 1.
    { injection Hrun as <- <- <-. exists []. by eapply paced_refl. }
    rewrite Hk in Hrun.
    assert (up_off u < byteLength (up_buf u) /\ admits (env (up_tick u)) = true)
      as [Hlt Hadm].
    { unfold admits. destruct (Z.ltb_spec (up_off u) (byteLength (up_buf u)));
        [|by rewrite !andb_false_l in Hcond].
      split; [done|]. rewrite !andb_true_l in Hcond.
      by rewrite <- !andb_assoc in Hcond |- *. }
    destruct (slice_chunk (up_buf u) (up_off u) Hbuf ltac:(lia))
      as (Hchunk & Hne & Hle & Htake).
    set (chunk := slice (up_buf u) (up_off u) (up_off u + CHUNK_SIZE)) in *.
    assert (0 <= byteLength chunk) as Hnonneg by (unfold byteLength; lia).
    pose proof (getRandomValues_octets (up_entropy u) 12) as Hivoct.
    pose proof (getRandomValues_length (up_entropy u) 12) as Hivlen.
    unfold encryptBuffer in *.
    destruct (getRandomValues (up_entropy u) 12) as [nonce g'].
    cbn [fst snd buffer_iv buffer_data] in *.
    destruct (view_open_at_send _).
    + pose proof (paced_chunk env key u r dc nonce g' Hk Hdc Hbuf ltac:(lia)
                    Hivlen Hivoct Hadm) as Hstep.
      cbv zeta in Hstep. fold chunk in Hstep.
      eapply IH in Hrun; cycle 1.
      * exact Hk.
      * cbn [up_dc]. cbn -[send_on]. by apply send_on_single.
      * exact Hbuf.
      * cbn [up_off up_buf]. lia.
      * destruct Hrun as (ps & Hrest).
        exists ([(nonce, chunk)] ++ ps). by eapply paced_trans.
    + injection Hrun as <- <- <-. exists [].
      split.
      { unfold sent_since. cbn. rewrite !app_nil_r.
        split. { exists dc. split; [done|]. destruct dc. cbn. by rewrite app_nil_r. }
        repeat split; try done; try lia; by constructor. }
      cbn [up_off up_tick up_buf]. split; [by constructor|]. split; [by left|].
      split; [lia|]. split; [cbn; lia|lia].
Qed.

Lemma sendNext_paced env now key u r r' u' o dc :
  sendNext percent userName env now u r = (r', u', o) ->
  encryptionKeyRef r = Some key ->
  dataChannelsRef r = [(up_dc u, dc)] ->
  octets (up_buf u) -> 0 <= up_off u <= byteLength (up_buf u) ->
  exists ps,
    paced env key u r u' r' ps /\
    (o = TransferCompleted -> up_off u' = byteLength (up_buf u)).
Proof.
  intros Hrun Hk Hdc Hbuf Hoff.
  destruct (sendNext_spec percent userName env now key u r r' u' o dc
              Hrun Hk Hdc Hbuf Hoff) as (_ & _ & Hdone).
  unfold sendNext in Hrun.
  destruct (view_aborted (env (up_tick u))).
  { injection Hrun as <- <- <-. exists []. split; [by eapply paced_refl|done]. }
  destruct (send_loop _ _ _ _ _) as [[r1 u1] e] eqn:Eloop.
  destruct (send_loop_paced _ _ _ _ _ _ _ _ _ Eloop Hk Hdc Hbuf Hoff) as (ps & Hpaced).
  exists ps. split; [|done]. destruct e as [v|].
  - destruct (view_aborted v).
    { injection Hrun as <- <- <-. eapply paced_room; [exact Hpaced|done..]. }
    destruct ((up_off u1 <? byteLength (up_buf u1)) && view_is_open v).
    { by injection Hrun as <- <- <-. }
    destruct (view_is_open v); injection Hrun as <- <- <-;
      (eapply paced_room; [exact Hpaced|done..]).
  - injection Hrun as <- <- <-. eapply paced_room; [exact Hpaced|done..].
Qed.

Lemma resume_all_paced env now key resumes :
  forall u o r r' u' o' dc,
    resume_all percent userName env now resumes u o r = (r', u', o') ->
    encryptionKeyRef r = Some key ->
    dataChannelsRef r = [(up_dc u, dc)] ->
    octets (up_buf u) -> 0 <= up_off u <= byteLength (up_buf u) ->
    (o = TransferCompleted -> up_off u = byteLength (up_buf u)) ->
    exists ps,
      paced env key u r u' r' ps /\
      (o' = TransferCompleted -> up_off u' = byteLength (up_buf u)).
Proof.
  induction resumes as [|k IH]; intros u o r r' u' o' dc Hrun Hk Hdc Hbuf Hoff Ho.
  - assert ((r, u, o) = (r', u', o')) as Heq by (by destruct o).
    injection Heq as <- <- <-. exists []. split; [by eapply paced_refl|done].
  - destruct o; cycle 1.
    + injection Hrun as <- <- <-. exists []. split; [by eapply paced_refl|done].
    + injection Hrun as <- <- <-. exists []. split; [by eapply paced_refl|done].
    + cbn [resume_all] in Hrun. unfold resume in Hrun.
      destruct (sendNext _ _ _ _ _ _) as [[r1 u1] o1] eqn:Enext.
      destruct (sendNext_paced _ _ key _ _ _ _ _ dc Enext Hk Hdc Hbuf Hoff)
        as (ps1 & Hp1 & Ho1).
      cbn [up_buf] in Ho1.
      apply (paced_tick env key _ r u1 r1 ps1 (up_tick u)) in Hp1;
        [|cbn [up_tick]; lia].
      cbn [up_id up_file up_buf up_off up_dc up_entropy] in Hp1.
      assert (paced env key u r u1 r1 ps1) as Hp1' by (by destruct u).
      pose proof Hp1' as (((dc0 & Hdc0 & Hdc1) & _ & _ & Hoff1 & Hb1 & Hd1 & _ & _ & Hk1) & _).
      rewrite Hdc in Hdc0. injection Hdc0 as <-. rewrite <- Hd1 in Hdc1.
      eapply IH in Hrun; [|exact Hk1|exact Hdc1|by rewrite Hb1|rewrite Hb1; lia
                          |by rewrite Hb1].
      destruct Hrun as (ps2 & Hp2 & Ho2). rewrite Hb1 in Ho2.
      exists (ps1 ++ ps2). split; [by eapply paced_trans|done].
Qed.

(** A whole transfer, from the call of [handleFileUpload] through the
    resumptions of the loop. *)
Lemma transfer_paced env now id g f resumes key (sender : Room) dc r1 u0 o0 r' u o :
  File_ok f ->
  encryptionKeyRef sender = Some key ->
  dataChannelsRef sender = [("peer", dc)] ->
  handleFileUpload percent userName env now id g f sender = (r1, Started u0 o0) ->
  resume_all percent userName env now resumes u0 o0 r1 = (r', u, o) ->
  exists ps,
    dataChannelsRef r' =
      [("peer", {| readyState := readyState dc;
                   sent := sent dc ++ meta_of id f :: map (frame_of key) ps |})] /\
    take (Z.to_nat (up_off u)) (file_arrayBuffer f) = concat ps.*2 /\
    0 <= up_off u <= file_size f /\
    (up_off u < file_size f -> Forall full ps.*2) /\
    full_but_last ps.*2 /\
    (length ps <= admitted env 0 (up_tick u))%nat /\
    (o = TransferCompleted -> up_off u = file_size f).
Proof.
  intros [Hsize Hoct] Hk Hdc Hup Hres.
  unfold handleFileUpload in Hup. rewrite Hk in Hup.
  destruct (MAX_FILE_SIZE <? file_size f); [done|].
  unfold any_open in Hup. cbn -[sendNext] in Hup. rewrite Hdc in Hup.
  cbn -[sendNext] in Hup.
  destruct (is_open dc) eqn:Hopen; cbn -[sendNext] in Hup; [|done].
  unfold is_open at 1 in Hup. cbn [dc_send readyState] in Hup.
  fold (is_open dc) in Hup. rewrite Hopen in Hup.
  destruct (sendNext _ _ _ _ _ _) as [[r2 u2] o2] eqn:Enext in Hup.
  injection Hup as <- <- <-.
  eapply (sendNext_paced _ _ key) in Enext;
    [|done|cbn; rewrite Hdc; cbn; rewrite Hopen; reflexivity|done|].
  2:{ cbn [up_off up_buf]. unfold byteLength. lia. }
  destruct Enext as (ps1 & Hp1 & Ho1). cbn [up_buf] in Ho1.
  pose proof Hp1 as (((dc0 & Hdc0 & Hdc1) & _ & _ & Hoff1 & Hb1 & Hd1 & _ & _ & Hk1) & _).
  cbn [up_dc up_off up_buf] in *. rewrite <- Hd1 in Hdc1.
  eapply (resume_all_paced _ _ key) in Hres;
    [|exact Hk1|exact Hdc1|by rewrite Hb1|rewrite Hb1; lia|by rewrite Hb1].
  destruct Hres as (ps2 & Hp2 & Ho2). rewrite Hb1 in Ho2.
  pose proof (paced_trans _ _ _ _ _ _ _ _ _ _ Hp1 Hp2)
    as (((dc0' & Hdc0' & Hdc') & _ & Hcat & Hoff & _) & Hfull & Hlast & _ & Hn & _).
  cbn [up_dc up_off up_buf up_tick] in *.
  cbn in Hdc0'. rewrite Hdc in Hdc0'. cbn in Hdc0'. rewrite Hopen in Hdc0'.
  injection Hdc0' as <-. cbn [dc_send readyState sent] in Hdc'.
  change (take (Z.to_nat 0) (file_arrayBuffer f)) with (@nil Z) in Hcat.
  cbn [app] in Hcat. unfold byteLength in *.
  exists (ps1 ++ ps2). split.
  { rewrite Hdc'. unfold meta_of. by rewrite <- app_assoc. }
  split; [done|]. split; [lia|]. split; [rewrite Hsize; done|].
  split; [done|]. split; [done|]. by rewrite Hsize.
Qed.

Lemma full_concat_length cs :
  Forall full cs -> Z.of_nat (length (concat cs)) = CHUNK_SIZE * Z.of_nat (length cs).
Proof.
  induction 1 as [|c cs Hc Hcs IH]; [cbn; lia|].
  cbn [concat length]. rewrite length_app. unfold full in Hc. lia.
Qed.


Lemma admitted_none env from to :
  (forall t, admits (env t) = false) -> admitted env from to = 0%nat.
Proof.
  intros Hnone. unfold admitted.
  induction (seq from (to - from)) as [|t ts IH]; [done|].
  cbn. by rewrite Hnone.
Qed.

(** X13. Backpressure. Whatever the channel does, the sender passes no
    more chunks to [send] than it made observations at which the channel
    was open, the transfer not aborted and less than 1 MiB buffered: each
    chunk follows a test of the loop that passed. On a channel that never
    passes the test, only the metadata frame goes out. *)
Theorem transfer_backpressure (env : nat -> ChannelView) (now : Z) (id : string)
    (g : entropy) (f : File) (resumes : nat) (key : CryptoKey) (sender : Room)
    (dc : RTCDataChannel) (r1 : Room) (u0 : Upload) (o0 : SendOutcome)
    (r' : Room) (u : Upload) (o : SendOutcome) :
  File_ok f ->
  encryptionKeyRef sender = Some key ->
  dataChannelsRef sender = [("peer", dc)] ->
  handleFileUpload percent userName env now id g f sender = (r1, Started u0 o0) ->
  resume_all percent userName env now resumes u0 o0 r1 = (r', u, o) ->
  exists ps,
    dataChannelsRef r' =
      [("peer", {| readyState := readyState dc;
                   sent := sent dc ++ meta_of id f :: map (frame_of key) ps |})] /\
    (length ps <= admitted env 0 (up_tick u))%nat /\
    ((forall t, admits (env t) = false) -> ps = []).
Proof.
  intros Hok Hk Hdc Hup Hres.
  destruct (transfer_paced env now id g f resumes key sender dc r1 u0 o0 r' u o
              Hok Hk Hdc Hup Hres) as (ps & Hsent & _ & _ & _ & _ & Hn & _).
  exists ps. split; [done|]. split; [done|].
  intros Hnone. rewrite (admitted_none env _ _ Hnone) in Hn.
  destruct ps; [done|]. cbn in Hn. lia.
Qed.

End Facts.

#[local] Existing Instance ToyFacts.web_crypto.


Lemma transfer_backpressure_witness :
  exists r' u (ps : list (list Z * list Z)),
    handleFileUpload Demo.percent "alice" clear_channel 0 "f1" 0
      Demo.small_file Demo.room = (r', Started u TransferCompleted) /\
    (length ps <= admitted clear_channel 0 (up_tick u))%nat.
Proof.
  destruct (@upload_completes ToyFacts.web_crypto Demo.percent "alice" 0 "f1" 0
              Demo.small_file 7 Demo.room {| readyState := open; sent := [] |}
              Demo.small_file_ok ltac:(unfold MAX_FILE_SIZE; cbn; lia)
              eq_refl eq_refl eq_refl)
    as (r' & u & Hup).
  destruct (@transfer_backpressure ToyFacts.web_crypto Demo.percent "alice"
              clear_channel 0 "f1" 0 Demo.small_file 0 7 Demo.room
              {| readyState := open; sent := [] |} r' u TransferCompleted r' u
              TransferCompleted Demo.small_file_ok eq_refl eq_refl Hup eq_refl)
    as (ps & _ & Hn & _).
  exists r', u, ps. split; [exact Hup|exact Hn].
Defined.

End Pacing.

(** ** components/Room.tsx: the list of participants *)

Module Participants.

(** [Participant] of types.ts; a [MediaStream] is known by its identity,
    and [None] is [undefined]. *)
Record Participant := {
  p_id : string;
  p_name : string;
  p_isLocal : bool;
  p_isHost : bool;
  p_audioEnabled : bool;
  p_videoEnabled : bool;
  p_stream : option nat
}.

Definition has_id (id : string) (u : Participant) : bool := String.eqb (p_id u) id.

(** [exists.name !== p.name || ... || exists.stream !== p.stream]. *)
Definition changed (existing p : Participant) : bool :=
  negb (String.eqb (p_name existing) (p_name p))
  || negb (Bool.eqb (p_audioEnabled existing) (p_audioEnabled p))
  || negb (Bool.eqb (p_videoEnabled existing) (p_videoEnabled p))
  || negb (bool_decide (p_stream existing = p_stream p)).

(** The updater passed to [setParticipants] by [addOrUpdateParticipant(p)].
    Both callers pass an object with all seven keys, so [{ ...u, ...p }]
    is [p]. *)
Definition addOrUpdateParticipant (p : Participant) (prev : list Participant)
  : list Participant :=
  match List.find (has_id (p_id p)) prev with
  | Some existing =>
      if negb (changed existing p) then prev
      else map (fun u => if has_id (p_id p) u then p else u) prev
  | None => prev ++ [p]
  end.

(** What [changed] compares. *)
Definition shown_as (p q : Participant) : Prop :=
  p_name q = p_name p /\ p_audioEnabled q = p_audioEnabled p /\
  p_videoEnabled q = p_videoEnabled p /\ p_stream q = p_stream p.

Lemma changed_false existing p : changed existing p = false <-> shown_as p existing.
Proof.
  unfold changed, shown_as. rewrite !orb_false_iff, !negb_false_iff.
  rewrite String.eqb_eq, !Bool.eqb_true_iff, bool_decide_eq_true. tauto.
Qed.

Lemma changed_same p : changed p p = false.
Proof. by apply changed_false. Qed.

Lemma find_has_id id prev :
  List.find (has_id id) prev = None <-> id ∉ p_id <$> prev.
Proof.
  induction prev as [|u prev IH]; cbn.
  - split; [intros _; apply not_elem_of_nil|done].
  - unfold has_id at 1. destruct (String.eqb_spec (p_id u) id) as [Heq|Hne].
    + split; [done|]. intros Hnot. destruct Hnot. rewrite Heq. apply elem_of_cons. by left.
    + rewrite IH, not_elem_of_cons. split; [by intros ?|by intros [_ ?]].
Qed.

Lemma same_id_same_entry prev q1 q2 :
  NoDup (p_id <$> prev) -> q1 ∈ prev -> q2 ∈ prev -> p_id q1 = p_id q2 -> q1 = q2.
Proof.
  induction prev as [|u prev IH]; intros Hnd H1 H2 Hid.
  - by apply elem_of_nil in H1.
  - cbn in Hnd. apply NoDup_cons in Hnd as [Hu Hnd].
    apply elem_of_cons in H1 as [->|H1], H2 as [->|H2]; [done| | |by apply IH].
    + destruct Hu. rewrite Hid. by apply list_elem_of_fmap_2.
    + destruct Hu. rewrite <- Hid. by apply list_elem_of_fmap_2.
Qed.

Lemma ids_updated p prev :
  p_id <$> map (fun u => if has_id (p_id p) u then p else u) prev = p_id <$> prev.
Proof.
  induction prev as [|u prev IH]; [done|]. cbn. rewrite IH. f_equal.
  unfold has_id. by destruct (String.eqb_spec (p_id u) (p_id p)).
Qed.

(** X14. [addOrUpdateParticipant] keeps the list keyed by identifier:
    the identifiers stay in their order, with the new one added at the end
    when it was not there, so identifiers that were distinct stay distinct;
    and when they are distinct, the entry under the identifier of [p] shows
    the name, the audio and video flags and the stream of [p]. *)
Theorem participants_keyed_by_id (p : Participant) (prev : list Participant) :
  p_id <$> addOrUpdateParticipant p prev
  = (if bool_decide (p_id p ∈ p_id <$> prev) then p_id <$> prev
     else (p_id <$> prev) ++ [p_id p]) /\
  (NoDup (p_id <$> prev) ->
   NoDup (p_id <$> addOrUpdateParticipant p prev) /\
   forall q, q ∈ addOrUpdateParticipant p prev -> p_id q = p_id p -> shown_as p q).
Proof.
  unfold addOrUpdateParticipant.
  destruct (List.find (has_id (p_id p)) prev) as [existing|] eqn:Hfind.
  - assert (p_id p ∈ p_id <$> prev) as Hin.
    { destruct (decide (p_id p ∈ p_id <$> prev)) as [|Hnot]; [done|].
      apply find_has_id in Hnot. congruence. }
    rewrite bool_decide_eq_true_2 by done.
    apply find_some in Hfind as [Hex Hid]. unfold has_id in Hid.
    apply String.eqb_eq in Hid. apply list_elem_of_In in Hex.
    destruct (changed existing p) eqn:Hch; cbn [negb].
    + rewrite ids_updated. split; [done|]. intros Hnd. split; [done|].
      intros q Hq Hqid. apply list_elem_of_In, in_map_iff in Hq as (u & Hu & _).
      unfold has_id in Hu. destruct (String.eqb_spec (p_id u) (p_id p)); [|congruence].
      subst q. done.
    + split; [done|]. intros Hnd. split; [done|].
      intros q Hq Hqid. apply changed_false in Hch.
      assert (q = existing) as ->; [|done].
      apply (same_id_same_entry prev); [done..|congruence].
  - apply find_has_id in Hfind. rewrite bool_decide_eq_false_2 by done.
    rewrite fmap_app. split; [done|]. intros Hnd. split.
    + apply NoDup_app. split; [done|]. split; [|apply NoDup_singleton].
      intros id Hid Hin. apply list_elem_of_singleton in Hin. by subst id.
    + intros q Hq Hqid. apply elem_of_app in Hq as [Hq|Hq].
      * destruct Hfind. rewrite <- Hqid. by apply list_elem_of_fmap_2.
      * apply list_elem_of_singleton in Hq. by subst q.
Qed.

Lemma find_updated p prev existing :
  List.find (has_id (p_id p)) prev = Some existing ->
  List.find (has_id (p_id p)) (map (fun u => if has_id (p_id p) u then p else u) prev)
  = Some p.
Proof.
  induction prev as [|u prev IH]; [done|]. cbn.
  destruct (has_id (p_id p) u) eqn:Hu.
  - intros _. unfold has_id at 1. by rewrite String.eqb_refl.
  - rewrite Hu. exact IH.
Qed.

Lemma find_added p prev :
  List.find (has_id (p_id p)) prev = None ->
  List.find (has_id (p_id p)) (prev ++ [p]) = Some p.
Proof.
  induction prev as [|u prev IH]; cbn.
  - intros _. unfold has_id. by rewrite String.eqb_refl.
  - destruct (has_id (p_id p) u); [done|exact IH].
Qed.

(** X15. [addOrUpdateParticipant] is idempotent, and it compares only
    the name, the two flags and the stream: an update that differs from the
    entry already there in [isLocal] or [isHost] alone leaves the list as it
    is, flags included. *)
Theorem participant_update_idempotent (p : Participant) (prev : list Participant) :
  addOrUpdateParticipant p (addOrUpdateParticipant p prev)
  = addOrUpdateParticipant p prev /\
  forall existing,
    List.find (has_id (p_id p)) prev = Some existing -> shown_as p existing ->
    addOrUpdateParticipant p prev = prev.
Proof.
  split.
  - destruct (List.find (has_id (p_id p)) prev) as [existing|] eqn:Hfind.
    + destruct (changed existing p) eqn:Hch.
      * assert (addOrUpdateParticipant p prev
                = map (fun u => if has_id (p_id p) u then p else u) prev) as ->.
        { unfold addOrUpdateParticipant. by rewrite Hfind, Hch. }
        unfold addOrUpdateParticipant.
        rewrite (find_updated p prev existing Hfind). cbn beta iota.
        by rewrite changed_same.
      * assert (addOrUpdateParticipant p prev = prev) as ->.
        { unfold addOrUpdateParticipant. by rewrite Hfind, Hch. }
        unfold addOrUpdateParticipant. by rewrite Hfind, Hch.
    + assert (addOrUpdateParticipant p prev = prev ++ [p]) as ->.
      { unfold addOrUpdateParticipant. by rewrite Hfind. }
      unfold addOrUpdateParticipant.
      rewrite (find_added p prev Hfind). cbn beta iota.
      by rewrite changed_same.
  - intros existing Hfind Hshown. unfold addOrUpdateParticipant.
    rewrite Hfind. apply changed_false in Hshown. by rewrite Hshown.
Qed.

(** The remote participant as [pc.ontrack] reports it, twice. *)
Lemma participants_keyed_by_id_witness :
  let remote := {| p_id := "peer"; p_name := "远端节点"; p_isLocal := false;
                   p_isHost := false; p_audioEnabled := true;
                   p_videoEnabled := true; p_stream := Some 1%nat |} in
  NoDup (p_id <$> [remote]) /\
  NoDup (p_id <$> addOrUpdateParticipant remote [remote]).
Proof.
  intros remote.
  assert (NoDup (p_id <$> [remote])) as Hnd by apply NoDup_singleton.
  split; [exact Hnd|].
  exact (proj1 (proj2 (participants_keyed_by_id remote [remote]) Hnd)).
Defined.

End Participants.

(** ** components/Room.tsx: the start of a session *)

Module Media.
Import Transfer Participants.

(** [err.name] of a rejected [getUserMedia]. *)
Inductive ErrorName :=
| NotAllowedError | NotFoundError | NotReadableError | TrackStartError
| AbortError | OtherError.

(** A [MediaStream]: its identity and whether [getAudioTracks()[0]] is
    there. *)
Record MediaStream := { stream_id : nat; audio_track : bool }.

(** What the page finds when [initMedia] runs: the secure context, whether
    [deriveKey] resolves, the answers to the two [getUserMedia] requests
    and the stream [captureStream] gives. *)
Record Platform := {
  isSecureContext : bool;
  deriveKey_resolves : bool;
  camera_and_microphone : MediaStream + ErrorName;
  microphone_only : option MediaStream;
  captureStream : nat
}.

(** The state and the references of [Room] that [initMedia] and
    [setupLocalParticipant] read or write; [joinAndSignal_calls] counts
    the calls of [joinAndSignal]. *)
Record Session := {
  isInitializingRef : bool;
  isMutedRef : bool;
  filterRef : PrivacyFilter;
  connectionStatus : Signaling.ConnectionStatus;
  toast : option (string * Signaling.ToastType);
  encryptionKeyRef : bool;
  rawStreamRef : option MediaStream;
  processedStreamRef : option nat;
  audio_track_enabled : option bool;
  participants : list Participant;
  joinAndSignal_calls : nat
}.

Definition set_isInitializing (v : bool) (s : Session) : Session :=
  {| isInitializingRef := v; isMutedRef := isMutedRef s; filterRef := filterRef s;
     connectionStatus := connectionStatus s; toast := toast s;
     encryptionKeyRef := encryptionKeyRef s; rawStreamRef := rawStreamRef s;
     processedStreamRef := processedStreamRef s;
     audio_track_enabled := audio_track_enabled s;
     participants := participants s;
     joinAndSignal_calls := joinAndSignal_calls s |}.

Definition setConnectionStatus (v : Signaling.ConnectionStatus) (s : Session)
  : Session :=
  {| isInitializingRef := isInitializingRef s; isMutedRef := isMutedRef s;
     filterRef := filterRef s; connectionStatus := v; toast := toast s;
     encryptionKeyRef := encryptionKeyRef s; rawStreamRef := rawStreamRef s;
     processedStreamRef := processedStreamRef s;
     audio_track_enabled := audio_track_enabled s;
     participants := participants s;
     joinAndSignal_calls := joinAndSignal_calls s |}.

Definition showToast (msg : string) (type : Signaling.ToastType) (s : Session)
  : Session :=
  {| isInitializingRef := isInitializingRef s; isMutedRef := isMutedRef s;
     filterRef := filterRef s; connectionStatus := connectionStatus s;
     toast := Some (msg, type);
     encryptionKeyRef := encryptionKeyRef s; rawStreamRef := rawStreamRef s;
     processedStreamRef := processedStreamRef s;
     audio_track_enabled := audio_track_enabled s;
     participants := participants s;
     joinAndSignal_calls := joinAndSignal_calls s |}.

Definition set_encryptionKey (v : bool) (s : Session) : Session :=
  {| isInitializingRef := isInitializingRef s; isMutedRef := isMutedRef s;
     filterRef := filterRef s; connectionStatus := connectionStatus s;
     toast := toast s; encryptionKeyRef := v; rawStreamRef := rawStreamRef s;
     processedStreamRef := processedStreamRef s;
     audio_track_enabled := audio_track_enabled s;
     participants := participants s;
     joinAndSignal_calls := joinAndSignal_calls s |}.

Definition set_rawStream (v : option MediaStream) (s : Session) : Session :=
  {| isInitializingRef := isInitializingRef s; isMutedRef := isMutedRef s;
     filterRef := filterRef s; connectionStatus := connectionStatus s;
     toast := toast s; encryptionKeyRef := encryptionKeyRef s; rawStreamRef := v;
     processedStreamRef := processedStreamRef s;
     audio_track_enabled := audio_track_enabled s;
     participants := participants s;
     joinAndSignal_calls := joinAndSignal_calls s |}.

(** [setupLocalParticipant(stream, videoEnabled, joinSession)]. *)
Definition setupLocalParticipant (P : Platform) (userName : string)
    (stream : option MediaStream) (videoEnabled joinSession : bool)
    (s : Session) : Session :=
  let canvasStream := captureStream P in
  let has_stream := bool_decide (is_Some stream) in
  {| isInitializingRef := isInitializingRef s; isMutedRef := isMutedRef s;
     filterRef := filterRef s; connectionStatus := connectionStatus s;
     toast := toast s; encryptionKeyRef := encryptionKeyRef s;
     rawStreamRef := rawStreamRef s;
     processedStreamRef := Some canvasStream;
     audio_track_enabled :=
       match stream with
       | Some st => if audio_track st then Some (negb (isMutedRef s))
                    else audio_track_enabled s
       | None => audio_track_enabled s
       end;
     participants :=
       addOrUpdateParticipant
         {| p_id := "local"; p_name := userName; p_isLocal := true;
            p_isHost := true;
            p_audioEnabled := has_stream && negb (isMutedRef s);
            p_videoEnabled :=
              has_stream && videoEnabled && Conversation.is_NONE (filterRef s);
            p_stream := Some canvasStream |}
         (participants s);
     joinAndSignal_calls :=
       if joinSession then S (joinAndSignal_calls s) else joinAndSignal_calls s |}.

Definition hardware_busy (name : ErrorName) : bool :=
  match name with
  | NotReadableError | TrackStartError | AbortError => true
  | _ => false
  end.

(** [initMedia(isRetry)]. *)
Definition initMedia (P : Platform) (userName : string) (isRetry : bool)
    (s : Session) : Session :=
  if isInitializingRef s then s
  else
    let s := set_isInitializing true s in
    if negb (isSecureContext P) then
      showToast "安全上下文缺失：请使用 HTTPS 或 localhost 访问" Signaling.error
        (setConnectionStatus Signaling.security_error s)
    else if negb (deriveKey_resolves P) then
      setConnectionStatus Signaling.security_error s
    else
      let s := set_encryptionKey true s in
      match camera_and_microphone P with
      | inl stream =>
          setupLocalParticipant P userName (Some stream) true true
            (set_rawStream (Some stream) s)
      | inr name =>
          let fallback :=
            if hardware_busy name && negb isRetry then microphone_only P
            else None in
          match fallback with
          | Some audioStream =>
              setupLocalParticipant P userName (Some audioStream) false true
                (set_rawStream (Some audioStream) s)
          | None =>
              let s :=
                match name with
                | NotAllowedError =>
                    showToast "摄像头/麦克风权限被拒绝" Signaling.error s
                | NotFoundError => showToast "未检测到媒体设备" Signaling.warning s
                | AbortError =>
                    showToast "视频通道响应超时，已自动切至语音模式"
                      Signaling.warning s
                | _ => s
                end in
              if hardware_busy name
              then setupLocalParticipant P userName None false true s
              else setConnectionStatus Signaling.media_error s
          end
      end.

(** The entry of the local participant. *)
Definition local (s : Session) : option Participant :=
  List.find (has_id "local") (participants s).

Lemma local_set (p : Participant) (prev : list Participant) :
  p_id p = "local" ->
  exists q, List.find (has_id "local") (addOrUpdateParticipant p prev) = Some q /\
            shown_as p q.
Proof.
  intros Hid. unfold addOrUpdateParticipant. rewrite Hid.
  destruct (List.find (has_id "local") prev) as [existing|] eqn:Hfind.
  - destruct (changed existing p) eqn:Hch; cbn [negb].
    + exists p. split; [|done]. rewrite <- Hid.
      apply (find_updated p prev existing). by rewrite Hid.
    + exists existing. split; [done|]. by apply changed_false.
  - exists p. split; [|done]. rewrite <- Hid. apply find_added. by rewrite Hid.
Qed.

(** X30. [initMedia] runs once. On a page that is not a secure context,
    or when the key cannot be derived, the session stops with a security
    error; otherwise it is joined, once, exactly when a stream was obtained
    or the camera request failed with [NotReadableError], [TrackStartError]
    or [AbortError], and stops with a media error for any other failure.
    When joined, the local participant shows video only if the camera
    request succeeded and no privacy filter is set, and audio only if some
    stream was obtained and the microphone is not muted. *)
Theorem session_start (P : Platform) (userName : string) (isRetry : bool)
    (s : Session) :
  isInitializingRef s = false ->
  let s' := initMedia P userName isRetry s in
  let joined :=
    isSecureContext P && deriveKey_resolves P
    && match camera_and_microphone P with
       | inl _ => true
       | inr name => hardware_busy name
       end in
  initMedia P userName isRetry s' = s' /\
  joinAndSignal_calls s'
  = (if joined then S (joinAndSignal_calls s) else joinAndSignal_calls s) /\
  connectionStatus s'
  = (if joined then connectionStatus s
     else if isSecureContext P && deriveKey_resolves P then Signaling.media_error
          else Signaling.security_error) /\
  encryptionKeyRef s'
  = (if isSecureContext P && deriveKey_resolves P then true else encryptionKeyRef s) /\
  (joined = true ->
   exists me, local s' = Some me /\
     p_name me = userName /\
     (p_videoEnabled me = true ->
      (exists stream, camera_and_microphone P = inl stream) /\
      filterRef s = NONE) /\
     (p_audioEnabled me = true -> is_Some (rawStreamRef s') /\ isMutedRef s = false)) /\
  (joined = false -> participants s' = participants s).
Proof.
  intros Hinit s' joined. subst s' joined. unfold initMedia. rewrite Hinit.
  destruct (isSecureContext P); cbn [negb andb];
    [destruct (deriveKey_resolves P); cbn [negb andb]|];
    [|repeat split; done..].
  assert (forall stream video s0,
            exists me,
              local (setupLocalParticipant P userName stream video true s0) = Some me /\
              shown_as
                {| p_id := "local"; p_name := userName; p_isLocal := true;
                   p_isHost := true;
                   p_audioEnabled := bool_decide (is_Some stream) && negb (isMutedRef s0);
                   p_videoEnabled :=
                     bool_decide (is_Some stream) && video
                     && Conversation.is_NONE (filterRef s0);
                   p_stream := Some (captureStream P) |} me) as Hlocal
    by (intros stream video s0; by apply local_set).
  destruct (camera_and_microphone P) as [stream|name] eqn:Hcam.
  - repeat split; try done. intros _.
    destruct (Hlocal (Some stream) true
                (set_rawStream (Some stream)
                   (set_encryptionKey true (set_isInitializing true s))))
      as (me & Hme & Hn & Ha & Hv & _).
    exists me. split; [exact Hme|]. split; [exact Hn|]. cbn in Ha, Hv. split.
    + rewrite Hv. intros Hf. split; [by eexists|].
      by destruct (filterRef s).
    + rewrite Ha. intros Hm. split; [by eexists|]. by destruct (isMutedRef s).
  - destruct (hardware_busy name) eqn:Hbusy; cbn [andb].
    2:{ destruct name; try done; repeat split; done. }
    destruct (if negb isRetry then microphone_only P else None)
      as [audioStream|] eqn:Hfallback.
    + repeat split; try done. intros _.
      destruct (Hlocal (Some audioStream) false
                  (set_rawStream (Some audioStream)
                     (set_encryptionKey true (set_isInitializing true s))))
        as (me & Hme & Hn & Ha & Hv & _).
      exists me. split; [exact Hme|]. split; [exact Hn|]. cbn in Ha, Hv. split.
      * rewrite Hv. done.
      * rewrite Ha. intros Hm. split; [by eexists|]. by destruct (isMutedRef s).
    + set (s1 := match name with
                 | NotAllowedError => _ | NotFoundError => _ | AbortError => _
                 | _ => _ end).
      assert (isInitializingRef s1 = true /\
              joinAndSignal_calls s1 = joinAndSignal_calls s /\
              connectionStatus s1 = connectionStatus s /\
              encryptionKeyRef s1 = true)
        as (Hs1i & Hs1j & Hs1c & Hs1k) by (subst s1; by destruct name).
      split; [unfold setupLocalParticipant; cbn; by rewrite Hs1i|].
      split; [cbn; by rewrite Hs1j|]. split; [cbn; by rewrite Hs1c|].
      split; [cbn; by rewrite Hs1k|]. split; [|done].
      intros _.
      destruct (Hlocal None false s1) as (me & Hme & Hn & Ha & Hv & _).
      exists me. split; [exact Hme|]. split; [exact Hn|]. cbn in Ha, Hv.
      split; [by rewrite Hv|by rewrite Ha].
Qed.

Definition fresh_session : Session :=
  {| isInitializingRef := false; isMutedRef := false; filterRef := NONE;
     connectionStatus := Signaling.idle; toast := None; encryptionKeyRef := false;
     rawStreamRef := None; processedStreamRef := None; audio_track_enabled := None;
     participants := []; joinAndSignal_calls := 0 |}.

(** A camera held by another program, and a microphone that answers. *)
Definition busy_camera : Platform :=
  {| isSecureContext := true; deriveKey_resolves := true;
     camera_and_microphone := inr NotReadableError;
     microphone_only := Some {| stream_id := 1; audio_track := true |};
     captureStream := 2 |}.

Lemma session_start_witness :
  joinAndSignal_calls (initMedia busy_camera "ann" false fresh_session) = 1%nat /\
  connectionStatus (initMedia busy_camera "ann" false fresh_session) = Signaling.idle.
Proof.
  pose proof (session_start busy_camera "ann" false fresh_session eq_refl) as H.
  split; [exact (proj1 (proj2 H))|exact (proj1 (proj2 (proj2 H)))].
Defined.

End Media.

(** ** components/Room.tsx: the other branches of signaling *)

Module Rendezvous.
Import Signaling.

Section Facts.
Variables peerId roomId : string.
Variable encodeSDP : string -> string.
Variable decodeSDP : string -> option string.

Lemma retry_guard (retryCount : nat) (t1 t2 : task unit) :
  (retryCount <= 3)%nat -> (if (3 <? retryCount)%nat then t1 else t2) = t2.
Proof. intros Hle. by destruct (Nat.ltb_spec 3 retryCount); [lia|]. Qed.

(** X16. A joiner whose passphrase fingerprint differs from the one in
    the row never writes to the rendezvous store. Reading a row with no
    receiver and another fingerprint, [joinAndSignal] issues nothing after
    the read: the toast says the passphrase does not match, the exit of the
    session is set for 2 s later, the role and the status are left as they
    were, and no heartbeat is installed. *)
Theorem wrong_passphrase_never_writes (E : Env) (w : world E) (c : Client)
    (retryCount : nat) (row : SignalingPayload) (rest : list SignalingPayload) :
  isSignalingRef c = false -> (retryCount <= 3)%nat ->
  let '(wa, pass_hash) := respond E _ HashPassphrase w in
  let '(wb, _) := respond E _ (Subscribe roomId) wa in
  let '(wc, rooms) := respond E _ (Select roomId) wb in
  rooms = Data (row :: rest) ->
  truthy (receiver_id row) = false ->
  passphrase_hash row <> Some pass_hash ->
  let '(_, c', w', log) := run E (joinAndSignal peerId roomId decodeSDP retryCount) c w in
  log = [Logged HashPassphrase; Logged (Subscribe roomId); Logged (Select roomId)] /\
  w' = wc /\
  toast c' = Some ("房间口令不匹配", error) /\
  timeouts c' = timeouts c ++ [(2000, RunOnExit)] /\
  roleRef c' = roleRef c /\ connectionStatusRef c' = connectionStatusRef c /\
  isSignalingRef c' = false /\ heartbeatRef c' = false.
Proof.
  intros Hs Hretry.
  destruct (respond E _ HashPassphrase w) as [wa pass_hash] eqn:Ea.
  destruct (respond E _ (Subscribe roomId) wa) as [wb u] eqn:Eb.
  destruct (respond E _ (Select roomId) wb) as [wc rooms] eqn:Ec.
  intros -> Hr Hhash.
  unfold joinAndSignal. cbn -[Nat.ltb]. rewrite Hs. cbn -[Nat.ltb].
  rewrite retry_guard by done. cbn. rewrite Ea. cbn. rewrite Eb. cbn. rewrite Ec. cbn.
  rewrite Hr, andb_false_r. cbn.
  rewrite bool_decide_eq_false_2 by done. cbn. done.
Qed.

(** X17. A full room of two other peers. When role election reads a
    row with both identifiers set, neither of them self, the row is deleted
    and the procedure restarted (after 500 ms, retry count 0) only when it
    is more than 12000 ms stale; otherwise, and whenever the row carries no
    usable time, nothing is deleted and the status becomes room-full. *)
Theorem foreign_full_room_horizon (E : Env) (w : world E) (c : Client)
    (retryCount : nat) (row : SignalingPayload) (rest : list SignalingPayload) :
  isSignalingRef c = false -> (retryCount <= 3)%nat ->
  let '(wa, pass_hash) := respond E _ HashPassphrase w in
  let '(wb, _) := respond E _ (Subscribe roomId) wa in
  let '(wc, rooms) := respond E _ (Select roomId) wb in
  let '(wd, _) := respond E _ (Delete roomId) wc in
  rooms = Data (row :: rest) ->
  truthy (initiator_id row) = true -> truthy (receiver_id row) = true ->
  is_peer (initiator_id row) peerId = false ->
  is_peer (receiver_id row) peerId = false ->
  let stale :=
    match updated_at row with
    | Some updatedAt => ROOM_FULL_EXPIRY <? observe E _ DateNow wc - updatedAt
    | None => false
    end in
  let '(_, c', w', log) := run E (joinAndSignal peerId roomId decodeSDP retryCount) c w in
  ROOM_FULL_EXPIRY = 12000 /\
  isSignalingRef c' = false /\ heartbeatRef c' = false /\ roleRef c' = roleRef c /\
  if stale then
    log = [Logged HashPassphrase; Logged (Subscribe roomId);
           Logged (Select roomId); Logged (Delete roomId)] /\
    w' = wd /\
    timeouts c' = timeouts c ++ [(500, RunJoinAndSignal 0)] /\
    connectionStatusRef c' = connectionStatusRef c
  else
    log = [Logged HashPassphrase; Logged (Subscribe roomId); Logged (Select roomId)] /\
    w' = wc /\ timeouts c' = timeouts c /\ connectionStatusRef c' = room_full.
Proof.
  intros Hs Hretry.
  destruct (respond E _ HashPassphrase w) as [wa pass_hash] eqn:Ea.
  destruct (respond E _ (Subscribe roomId) wa) as [wb u] eqn:Eb.
  destruct (respond E _ (Select roomId) wb) as [wc rooms] eqn:Ec.
  destruct (respond E _ (Delete roomId) wc) as [wd del] eqn:Ed.
  intros -> Hi Hr Hni Hnr. cbv zeta.
  unfold joinAndSignal. cbn -[Nat.ltb]. rewrite Hs. cbn -[Nat.ltb].
  rewrite retry_guard by done. cbn. rewrite Ea. cbn. rewrite Eb. cbn. rewrite Ec. cbn.
  rewrite Hi, Hr. cbn.
  destruct (updated_at row) as [updatedAt|]; cbn; [|done].
  rewrite Hni, Hnr. cbn.
  destruct (ROOM_FULL_EXPIRY <? observe E Z DateNow wc - updatedAt); cbn; [|done].
  rewrite Ed. cbn. done.
Qed.

(** The two events that end the gathering of candidates: the state
    change to complete, and the timeout with a local description at hand. *)
Definition gathering_ends (send : string -> task unit) (d : string)
    (t : task unit) : Prop :=
  t = onIceGatheringComplete send d \/ t = onGatherTimeout send (Some d).

(** X18. The offer is posted once. Of the two events that end the
    gathering, in either order, the first posts the offer with one update
    of the row, without a condition, and the initiator becomes ready with
    signaling released whatever the store answers; the second does
    nothing. *)
Theorem offer_posted_once (E : Env) (w : world E) (c : Client)
    (d1 d2 : string) (t1 t2 : task unit) :
  gatheringComplete c = false ->
  gathering_ends (sendOffer roomId encodeSDP) d1 t1 ->
  gathering_ends (sendOffer roomId encodeSDP) d2 t2 ->
  let '(_, c1, w1, l1) := run E t1 c w in
  l1 = [Logged (Update roomId false (offer_patch (encodeSDP d1)))] /\
  connectionStatusRef c1 = ready /\ localSDPRef c1 = encodeSDP d1 /\
  isSignalingRef c1 = false /\ gatheringComplete c1 = true /\
  run E t2 c1 w1 = (tt, c1, w1, []).
Proof.
  intros Hg H1 H2.
  assert (run E t1 c w = run E (sendOffer roomId encodeSDP d1) c w) as ->.
  { destruct H1 as [-> | ->]; do 3 (cbn; rewrite ?Hg); reflexivity. }
  unfold sendOffer at 1. cbn. rewrite Hg. cbn.
  destruct (respond E _ (Update roomId false _) w) as [w1 upd]. cbn.
  repeat split.
  destruct H2 as [-> | ->]; reflexivity.
Qed.

(** X19. The receiver slot is claimed once. Of the two events that end
    the gathering, in either order, the first makes the one attempt (the
    conditional update, and the reading of the row when it matched
    nothing); the second issues no call and changes nothing. *)
Theorem claim_attempted_once (E : Env) (w : world E) (c : Client)
    (d1 d2 : string) (t1 t2 : task unit) :
  gatheringComplete c = false ->
  gathering_ends (sendAnswer peerId roomId encodeSDP) d1 t1 ->
  gathering_ends (sendAnswer peerId roomId encodeSDP) d2 t2 ->
  let '(_, c1, w1, l1) := run E t1 c w in
  (exists rest,
      l1 = Logged (Update roomId true (claim_patch peerId (encodeSDP d1))) :: rest /\
      (rest = [] \/ rest = [Logged (Select roomId)])) /\
  isSignalingRef c1 = false /\ gatheringComplete c1 = true /\
  run E t2 c1 w1 = (tt, c1, w1, []).
Proof.
  intros Hg H1 H2.
  assert (run E t1 c w = run E (sendAnswer peerId roomId encodeSDP d1) c w) as ->.
  { destruct H1 as [-> | ->]; do 3 (cbn; rewrite ?Hg); reflexivity. }
  unfold sendAnswer at 1. cbn. rewrite Hg. cbn.
  destruct (respond E _ (Update roomId true _) w) as [w1 upd].
  assert (forall c0 : Client,
            gatheringComplete c0 = true ->
            run E t2 c0 = fun w0 => (tt, c0, w0, [])) as Hsecond.
  { intros c0 Hc0. destruct H2 as [-> | ->]; cbn; by rewrite Hc0. }
  destruct upd as [[|row rows]|]; cbn.
  2:{ split; [eexists; split; [reflexivity|by left]|].
      split; [done|]. split; [done|]. by rewrite Hsecond. }
  all: destruct (respond E _ (Select roomId) w1) as [w2 cur];
    destruct cur as [[|row [|row' rows']]|]; cbn;
    try destruct (is_peer (receiver_id row) peerId); cbn;
    (split; [eexists; split; [reflexivity|by right]|]);
    (split; [done|]); (split; [done|]); by rewrite Hsecond.
Qed.

(** Heartbeats one after the other, nothing else in between: the refs,
    the world and the calls issued. *)
Fixpoint beats (E : Env) (n : nat) (c : Client) (w : world E)
  : Client * world E * list logged :=
  match n with
  | O => (c, w, [])
  | S n' =>
      let '(_, c1, w1, l1) := run E (heartbeat peerId roomId decodeSDP) c w in
      let '(c2, w2, l2) := beats E n' c1 w1 in
      (c2, w2, l1 ++ l2)
  end.

(** The store refuses every heartbeat. *)
Definition heartbeat_refused (E : Env) : Prop :=
  forall (w : world E) (p : patch),
    (respond E _ (Update roomId false p) w).2 = Error.

(** One refused heartbeat that does not reach the third strike. *)
Lemma heartbeat_strike (E : Env) (w : world E) (c : Client) :
  heartbeat_refused E -> roleRef c <> none ->
  (3 <=? heartbeatFailuresRef c + 1) && is_connected c = false ->
  exists w1 p,
    run E (heartbeat peerId roomId decodeSDP) c w
    = (tt, set_heartbeatFailures (heartbeatFailuresRef c + 1) c, w1,
       [Logged (Update roomId false p)]).
Proof.
  intros Hrefused Hrole Hquiet. unfold heartbeat. cbn.
  destruct (roleRef c) eqn:Er; [done| |]; cbn;
    match goal with |- context [respond E _ (Update roomId false ?p) w] =>
      pose proof (Hrefused w p) as Herr;
      destruct (respond E _ (Update roomId false p) w) as [w1 res];
      cbn in Herr; subst res; exists w1, p end;
    cbn; rewrite Hquiet; reflexivity.
Qed.

Lemma beats_not_connected (E : Env) (n : nat) :
  heartbeat_refused E ->
  forall (c : Client) (w : world E),
    roleRef c <> none -> is_connected c = false ->
    let '(c', _, log) := beats E n c w in
    heartbeatFailuresRef c' = heartbeatFailuresRef c + Z.of_nat n /\
    length log = n /\ procedure_runs log = 0%nat /\
    toast c' = toast c /\ reconnectTimeoutRef c' = reconnectTimeoutRef c.
Proof.
  intros Hrefused. induction n as [|n IH]; intros c w Hrole Hconn.
  - cbn. repeat split; lia.
  - cbn [beats].
    destruct (heartbeat_strike E w c Hrefused Hrole) as (w1 & p & ->).
    { by rewrite Hconn, andb_false_r. }
    specialize (IH (set_heartbeatFailures (heartbeatFailuresRef c + 1) c) w1 Hrole Hconn).
    destruct (beats E n _ w1) as [[c2 w2] l2].
    destruct IH as (Hf & Hl & Hp & Ht & Hr). cbn in Hf, Ht, Hr.
    cbn [app length]. split; [lia|]. split; [lia|]. done.
Qed.

(** X20. Three strikes. When the store refuses every heartbeat:
    a client that is not connected only counts, however many heartbeats
    fail, and never rejoins; a connected client with no failure counted
    goes through two refused heartbeats with nothing but the count, and on
    the third shows the warning, resets the count and calls
    [joinAndSignal()] anew. *)
Theorem heartbeat_three_strikes (E : Env) (w : world E) (c : Client) :
  heartbeat_refused E -> roleRef c <> none ->
  (is_connected c = false ->
   forall n,
     let '(c', _, log) := beats E n c w in
     heartbeatFailuresRef c' = heartbeatFailuresRef c + Z.of_nat n /\
     length log = n /\ procedure_runs log = 0%nat /\
     toast c' = toast c /\ reconnectTimeoutRef c' = reconnectTimeoutRef c) /\
  (is_connected c = true -> heartbeatFailuresRef c = 0 ->
   let '(c2, w2, log) := beats E 2 c w in
   c2 = set_heartbeatFailures 2 c /\ length log = 2%nat /\
   procedure_runs log = 0%nat /\
   exists w3 p,
     let warned :=
       set_heartbeatFailures 0
         (showToast "心跳失败，尝试重连..." warning (set_heartbeatFailures 3 c)) in
     run E (heartbeat peerId roomId decodeSDP) c2 w2
     = (let '(_, c', w', rest) :=
          run E (joinAndSignal peerId roomId decodeSDP 0) warned w3 in
        (tt, c', w', Logged (Update roomId false p) :: rest))).
Proof.
  intros Hrefused Hrole. split.
  - intros Hconn n. by apply beats_not_connected.
  - intros Hconn Hzero.
    destruct (heartbeat_strike E w c Hrefused Hrole) as (w1 & p1 & H1).
    { by rewrite Hzero. }
    rewrite Hzero in H1. change (0 + 1) with 1 in H1.
    destruct (heartbeat_strike E w1 (set_heartbeatFailures 1 c) Hrefused Hrole)
      as (w2 & p2 & H2); [done|].
    change (heartbeatFailuresRef (set_heartbeatFailures 1 c) + 1) with 2 in H2.
    assert (set_heartbeatFailures 2 (set_heartbeatFailures 1 c)
            = set_heartbeatFailures 2 c) as Hset by done.
    rewrite Hset in H2.
    cbn [beats]. rewrite H1, H2. cbn [app length].
    split; [done|]. split; [done|]. split; [done|].
    unfold heartbeat. cbn -[joinAndSignal].
    destruct (roleRef c) eqn:Er; [done| |]; cbn -[joinAndSignal];
      match goal with |- context [respond E _ (Update roomId false ?p) w2] =>
        pose proof (Hrefused w2 p) as Herr;
        destruct (respond E _ (Update roomId false p) w2) as [w3 res];
        cbn in Herr; subst res; exists w3, p end;
      cbn -[joinAndSignal]; unfold is_connected in Hconn |- *;
      cbn -[joinAndSignal]; rewrite Hconn;
      change (3 <=? 2 + 1) with true; change (2 + 1) with 3;
      cbn -[joinAndSignal];
      match goal with |- context [run E (joinAndSignal ?a ?b ?d ?n) ?c0 ?w0] =>
        change c0 with
          (set_heartbeatFailures 0
             (showToast "心跳失败，尝试重连..." warning (set_heartbeatFailures 3 c)));
        destruct (run E (joinAndSignal a b d n) _ w0) as [[[u c'] w'] rest] end;
      cbn -[joinAndSignal]; rewrite ?app_nil_r; by destruct u.
Qed.

(** X21. The row is deleted under a client. A connected client ignores
    the notification. One that is not connected tears its signaling down,
    with no call to the store: timers cleared, subscription and heartbeat
    dropped, the guard and both processed flags lowered, and one reconnect
    pending 500 ms later, whatever was pending before; its role and its
    status stay as they were. *)
Theorem row_deleted_notification (E : Env) (w : world E) (c : Client)
    (payload : Change) :
  eventType payload = DELETE ->
  let '(_, c', w', log) := run E (onPostgresChanges peerId decodeSDP payload) c w in
  log = [] /\ w' = w /\
  if is_connected c then c' = c
  else
    reconnectTimeoutRef c' = Some 500 /\ timeouts c' = [] /\
    signalChannelRef c' = false /\ heartbeatRef c' = false /\
    isSignalingRef c' = false /\
    processedOfferRef c' = false /\ processedAnswerRef c' = false /\
    roleRef c' = roleRef c /\ connectionStatusRef c' = connectionStatusRef c.
Proof.
  intros Hev. unfold onPostgresChanges. cbn. rewrite Hev.
  destruct (is_connected c); cbn; [done|]. repeat split.
Qed.

(** X22. At most one reconnect is pending. However many times
    [scheduleReconnect] is called, with whatever delays, the pending
    reconnect is the one that was pending before, or else the first one
    asked for; nothing else changes. *)
Theorem reconnect_scheduled_once (delays : list Z) (c : Client) :
  let c' := foldl (fun c d => scheduleReconnect d c) c delays in
  reconnectTimeoutRef c'
  = match reconnectTimeoutRef c with
    | Some pending => Some pending
    | None => head delays
    end /\
  c' = set_reconnectTimeout (reconnectTimeoutRef c') c.
Proof.
  cbv zeta. revert c. induction delays as [|d delays IH]; intros c.
  - cbn. destruct c as [? ? ? ? ? ? ? ? ? ? ? [pending|] ? ?]; done.
  - cbn [foldl head]. destruct (IH (scheduleReconnect d c)) as [Hr Hc].
    rewrite Hc at 2. rewrite Hr. unfold scheduleReconnect.
    destruct (reconnectTimeoutRef c) as [pending|] eqn:Ep.
    + rewrite Ep. split; [done|]. destruct c. cbn in *. by subst.
    + cbn. split; [done|]. destruct c. cbn in *. done.
Qed.

End Facts.

(** *** The examples *)

(** A store that refuses every call; the peer connection works. *)
Definition refusing : Env :=
  {| world := unit;
     respond := fun R (c : call R) (w : unit) =>
       (w, match c in call R return R with
           | Select _ => Error
           | Insert _ => Error
           | Update _ _ _ => Error
           | Delete _ => Error
           | HashPassphrase => ""
           | Subscribe _ => tt
           | SetupPeerConnection _ => tt
           | SetRemoteDescription _ => Data tt
           | CreateOffer => Data "offer"
           | CreateAnswer => Data "answer"
           | SetLocalDescription _ => Data tt
           end);
     observe := fun R (q : query R) (w : unit) =>
       match q in query R return R with
       | DateNow => 0
       | SignalingState => stable
       end |}.

(** The room after A posted its offer, read by a joiner whose passphrase
    has another fingerprint. *)
Definition other_passphrase : Server :=
  {| db := db Scenario.A_offered.1.2; clock := 2000; signalingState := stable;
     hash := "x" |}.

(** A connected receiver with no failure counted. *)
Definition connected_receiver : Client :=
  updateStatus connected (set_role receiver mounted).

Lemma wrong_passphrase_never_writes_witness :
  isSignalingRef mounted = false /\ (0 <= 3)%nat /\
  toast (run server (joinAndSignal "B" "ROOM" Scenario.decodeSDP 0) mounted
           other_passphrase).1.1.2
  = Some ("房间口令不匹配", error).
Proof.
  split; [reflexivity|]. split; [lia|].
  pose proof (wrong_passphrase_never_writes "B" "ROOM" Scenario.decodeSDP server
                other_passphrase mounted 0
                {| room_id := "ROOM"; initiator_id := Some "A"; receiver_id := None;
                   offer := Some "offer-A"; answer := None;
                   passphrase_hash := Some "h"; updated_at := Some 1000 |} []
                eq_refl ltac:(lia)) as Hrun.
  vm_compute in Hrun.
  specialize (Hrun eq_refl eq_refl ltac:(discriminate)).
  vm_compute. exact (proj1 (proj2 (proj2 Hrun))).
Defined.

Lemma foreign_full_room_horizon_witness :
  isSignalingRef mounted = false /\ (0 <= 3)%nat /\
  db (run server (joinAndSignal "C" "ROOM" Scenario.decodeSDP 0) mounted
        (Scenario.occupied_at 12001)).1.2 !! "ROOM" = None.
Proof.
  split; [reflexivity|]. split; [lia|].
  pose proof (foreign_full_room_horizon "C" "ROOM" Scenario.decodeSDP server
                (Scenario.occupied_at 12001) mounted 0
                {| room_id := "ROOM"; initiator_id := Some "A";
                   receiver_id := Some "B"; offer := Some "offer-A";
                   answer := Some "answer-B"; passphrase_hash := Some "h";
                   updated_at := Some 0 |} [] eq_refl ltac:(lia)) as Hrun.
  vm_compute in Hrun.
  specialize (Hrun eq_refl eq_refl eq_refl eq_refl eq_refl).
  destruct Hrun as (_ & _ & _ & _ & _ & Hw & _).
  exact (f_equal (fun x => db x !! "ROOM") Hw).
Defined.

Lemma offer_posted_once_witness :
  gatheringComplete mounted = false /\
  (run colliding
     (onGatherTimeout (sendOffer "ROOM" Scenario.encodeSDP) (Some "offer-A"))
     mounted tt).2
  = [Logged (Update "ROOM" false (offer_patch "offer-A"))].
Proof.
  split; [reflexivity|].
  pose proof (offer_posted_once "ROOM" Scenario.encodeSDP colliding tt mounted
                "offer-A" "offer-A" _ _ eq_refl (or_intror eq_refl)
                (or_introl eq_refl)) as Hrun.
  vm_compute in Hrun. vm_compute. exact (proj1 Hrun).
Defined.

Lemma claim_attempted_once_witness :
  gatheringComplete mounted = false /\
  isSignalingRef
    (run colliding
       (onIceGatheringComplete (sendAnswer "B" "ROOM" Scenario.encodeSDP) "answer-B")
       mounted tt).1.1.2 = false.
Proof.
  split; [reflexivity|].
  pose proof (claim_attempted_once "B" "ROOM" Scenario.encodeSDP colliding tt mounted
                "answer-B" "answer-B" _ _ eq_refl (or_introl eq_refl)
                (or_intror eq_refl)) as Hrun.
  vm_compute in Hrun. vm_compute. exact (proj1 (proj2 Hrun)).
Defined.

Lemma heartbeat_three_strikes_witness :
  heartbeat_refused "ROOM" refusing /\ roleRef connected_receiver <> none /\
  (beats "B" "ROOM" Scenario.decodeSDP refusing 2 connected_receiver tt).1.1
  = set_heartbeatFailures 2 connected_receiver.
Proof.
  assert (heartbeat_refused "ROOM" refusing) as Hrefused by (intros w p; reflexivity).
  assert (roleRef connected_receiver <> none) as Hrole by discriminate.
  split; [exact Hrefused|]. split; [exact Hrole|].
  pose proof (proj2 (heartbeat_three_strikes "B" "ROOM" Scenario.decodeSDP refusing tt
                       connected_receiver Hrefused Hrole) eq_refl eq_refl) as Hrun.
  destruct (beats "B" "ROOM" Scenario.decodeSDP refusing 2 connected_receiver tt)
    as [[c2 w2] log].
  exact (proj1 Hrun).
Defined.

Lemma row_deleted_notification_witness :
  reconnectTimeoutRef
    (run colliding
       (onPostgresChanges "B" Scenario.decodeSDP {| eventType := DELETE; new := None |})
       mounted tt).1.1.2 = Some 500.
Proof.
  pose proof (row_deleted_notification "B" Scenario.decodeSDP colliding tt mounted
                {| eventType := DELETE; new := None |} eq_refl) as Hrun.
  vm_compute in Hrun. vm_compute. exact (proj1 (proj2 (proj2 Hrun))).
Defined.

End Rendezvous.

(** ** components/Room.tsx: renegotiation *)

Module Negotiation.
Import Signaling.

(** [pc.onnegotiationneeded]: [last] is [lastNegotiationRef.current]; the
    result is its value afterwards and whether [joinAndSignal] is called. *)
Definition onnegotiationneeded (now : Z) (signalingState : RTCSignalingState)
    (role : HandshakeRole) (last : Z) : Z * bool :=
  if match signalingState with stable => true | _ => false end
     && match role with initiator => true | _ => false end
     && (NEGOTIATION_THROTTLE <? now - last)
  then (now, true)
  else (last, false).

(** A [negotiationneeded] event: [Date.now()], [pc.signalingState] and
    [roleRef.current] when it fires. *)
Record NegotiationNeeded := {
  fired_at : Z;
  signaling_then : RTCSignalingState;
  role_then : HandshakeRole
}.

(** The times at which a sequence of events calls [joinAndSignal]. *)
Fixpoint rejoins (last : Z) (events : list NegotiationNeeded) : list Z :=
  match events with
  | [] => []
  | e :: rest =>
      let '(last', called) :=
        onnegotiationneeded (fired_at e) (signaling_then e) (role_then e) last in
      (if called then [fired_at e] else []) ++ rejoins last' rest
  end.

(** Times each more than the throttle after the one before. *)
Fixpoint spaced (last : Z) (times : list Z) : Prop :=
  match times with
  | [] => True
  | t :: rest => NEGOTIATION_THROTTLE < t - last /\ spaced t rest
  end.

(** X23. Renegotiation is throttled. Whatever [negotiationneeded]
    events fire, and when, each call of [joinAndSignal] they cause comes
    more than 5000 ms after the one before (and the first more than
    5000 ms after the initial mark); and only events fired in the stable
    state at an initiator cause one. *)
Theorem negotiation_throttled (last : Z) (events : list NegotiationNeeded) :
  NEGOTIATION_THROTTLE = 5000 /\
  spaced last (rejoins last events) /\
  (length (rejoins last events)
   <= length (List.filter
                (fun e => match signaling_then e, role_then e with
                          | stable, initiator => true
                          | _, _ => false
                          end) events))%nat.
Proof.
  split; [reflexivity|]. revert last.
  induction events as [|e events IH]; intros last; [cbn; split; [done|lia]|].
  cbn [rejoins List.filter]. unfold onnegotiationneeded.
  destruct (IH last) as [Hkeep Hcount], (IH (fired_at e)) as [Hmove Hcount'].
  destruct (signaling_then e), (role_then e); cbn [andb app length]; try done;
    try (split; [done|lia]).
  destruct (Z.ltb_spec NEGOTIATION_THROTTLE (fired_at e - last)); cbn [app length spaced].
  - split; [done|lia].
  - split; [done|lia].
Qed.

End Negotiation.

(** ** App.tsx: what a magic link carries *)

Module Links.
Import Encoding Entry.

(** A Basic Latin character with no meaning of its own in a query. *)
Definition plain (u : Z) : Prop :=
  0 <= u < 128 /\ u <> 0x26 /\ u <> 0x3D /\ u <> 0x2B /\ u <> 0x25.

(** The same, or a plus sign. *)
Definition linkable (u : Z) : Prop := plain u \/ u = 0x2B.

Lemma linkable_ascii s : Forall linkable s -> Forall (fun u => 0 <= u < 128) s.
Proof.
  intros Hs. eapply Forall_impl; [exact Hs|]. intros u [(Hu & _)| ->]; lia.
Qed.

Lemma to_scalar_values_ascii s :
  Forall (fun u => 0 <= u < 128) s -> to_scalar_values s = s.
Proof.
  induction 1 as [|u s Hu Hs IH]; [done|].
  rewrite to_scalar_values_cons.
  unfold is_lead_surrogate, is_trail_surrogate.
  destruct (Z.leb_spec 0xD800 u); [lia|]. cbn [andb].
  destruct (Z.leb_spec 0xDC00 u); [lia|]. cbn [andb]. by rewrite IH.
Qed.

Lemma utf8_encode_ascii s :
  Forall (fun u => 0 <= u < 128) s -> utf8_encode s = s.
Proof.
  induction 1 as [|u s Hu Hs IH]; [done|].
  unfold utf8_encode in *. cbn [flat_map]. rewrite IH.
  by rewrite utf8_encode_1 by lia.
Qed.

Lemma TextEncoder_ascii s :
  Forall (fun u => 0 <= u < 128) s -> TextEncoder_encode s = s.
Proof.
  intros Hs. unfold TextEncoder_encode.
  by rewrite to_scalar_values_ascii, utf8_encode_ascii.
Qed.

Lemma of_scalar_values_ascii s :
  Forall (fun u => 0 <= u < 128) s -> of_scalar_values s = s.
Proof.
  induction 1 as [|u s Hu Hs IH]; [done|].
  unfold of_scalar_values in *. cbn [flat_map]. rewrite IH. unfold code_units.
  by destruct (Z.leb_spec u 65535); [|lia].
Qed.

Lemma utf8_decode_ascii s :
  Forall (fun u => 0 <= u < 128) s -> utf8_decode_without_BOM s = s.
Proof.
  intros Hs. unfold utf8_decode_without_BOM.
  rewrite <- (utf8_encode_ascii s Hs) at 1.
  rewrite utf8_decode_encode; [by apply of_scalar_values_ascii|].
  eapply Forall_impl; [exact Hs|]. intros u Hu. cbn beta in Hu. unfold is_scalar. lia.
Qed.

Lemma plus_to_space_ascii s :
  Forall (fun u => 0 <= u < 128) s -> Forall (fun u => 0 <= u < 128) (plus_to_space s).
Proof.
  intros Hs. unfold plus_to_space. apply Forall_fmap.
  eapply Forall_impl; [exact Hs|]. intros u Hu. cbn in Hu |- *.
  destruct (Z.eqb_spec u 0x2B); lia.
Qed.

Lemma percent_decode_none s :
  Forall (fun u => u <> 0x25) s -> percent_decode s = s.
Proof.
  induction 1 as [|u s Hu Hs IH]; [done|].
  cbn [percent_decode]. destruct (Z.eqb_spec u 0x25); [done|]. by rewrite IH.
Qed.

Lemma decode_component_linkable s :
  Forall linkable s -> decode_component s = plus_to_space s.
Proof.
  intros Hs. unfold decode_component.
  rewrite percent_decode_none.
  - apply utf8_decode_ascii, plus_to_space_ascii. by apply linkable_ascii.
  - unfold plus_to_space. apply Forall_fmap.
    eapply Forall_impl; [exact Hs|]. intros u Hu. cbn.
    destruct (Z.eqb_spec u 0x2B); [lia|]. by destruct Hu as [(_ & _ & _ & _ & Hu)|].
Qed.

Lemma split_on_none sep s :
  Forall (fun u => u <> sep) s -> split_on sep s = [s].
Proof.
  induction 1 as [|u s Hu Hs IH]; [done|].
  cbn [split_on]. destruct (Z.eqb_spec u sep); [done|]. by rewrite IH.
Qed.

Lemma split_on_first sep s1 s2 :
  Forall (fun u => u <> sep) s1 ->
  split_on sep (s1 ++ sep :: s2) = s1 :: split_on sep s2.
Proof.
  induction 1 as [|u s Hu Hs IH].
  - cbn [app split_on]. by rewrite Z.eqb_refl.
  - cbn [app split_on]. destruct (Z.eqb_spec u sep); [done|]. by rewrite IH.
Qed.

Lemma cut_at_first sep name value :
  Forall (fun u => u <> sep) name ->
  cut_at sep (name ++ sep :: value) = (name, value).
Proof.
  induction 1 as [|u s Hu Hs IH].
  - cbn [app cut_at]. by rewrite Z.eqb_refl.
  - cbn [app cut_at]. destruct (Z.eqb_spec u sep); [done|]. by rewrite IH.
Qed.

Lemma cut_at_none sep name :
  Forall (fun u => u <> sep) name -> cut_at sep name = (name, []).
Proof.
  induction 1 as [|u s Hu Hs IH]; [done|].
  cbn [cut_at]. destruct (Z.eqb_spec u sep); [done|]. by rewrite IH.
Qed.

Lemma linkable_no sep s :
  sep = 0x26 \/ sep = 0x3D -> Forall linkable s -> Forall (fun u => u <> sep) s.
Proof.
  intros Hsep Hs. eapply Forall_impl; [exact Hs|].
  intros u [(_ & H1 & H2 & _)| ->]; lia.
Qed.

Lemma URLSearchParams_ascii u q :
  u <> 0x3F -> Forall (fun u => 0 <= u < 128) (u :: q) ->
  URLSearchParams (u :: q) = parse_urlencoded (u :: q).
Proof.
  intros Hu Hq. unfold URLSearchParams.
  destruct (Z.eqb_spec u 0x3F); [done|]. by rewrite TextEncoder_ascii.
Qed.

Lemma parse_pair (name1 value1 name2 value2 : list Z) :
  name1 <> [] -> name2 <> [] ->
  Forall plain name1 -> Forall plain name2 ->
  Forall linkable value1 -> Forall linkable value2 ->
  parse_urlencoded (name1 ++ 0x3D :: value1 ++ 0x26 :: name2 ++ 0x3D :: value2)
  = [(name1, plus_to_space value1); (name2, plus_to_space value2)].
Proof.
  intros Hn1 Hn2 Hp1 Hp2 Hv1 Hv2.
  assert (forall s, Forall plain s -> Forall linkable s) as Hpl
    by (intros s Hs; eapply Forall_impl; [exact Hs|]; by left).
  assert (forall s, Forall plain s -> plus_to_space s = s) as Hsame.
  { intros s Hs. unfold plus_to_space. rewrite <- (list_fmap_id s) at 2.
    apply Forall_fmap_ext_1. eapply Forall_impl; [exact Hs|].
    intros u (_ & _ & _ & Hu & _). cbn. by destruct (Z.eqb_spec u 0x2B). }
  unfold parse_urlencoded.
  replace (name1 ++ 0x3D :: value1 ++ 0x26 :: name2 ++ 0x3D :: value2)
    with ((name1 ++ 0x3D :: value1) ++ 0x26 :: (name2 ++ 0x3D :: value2))
    by (by rewrite <- app_assoc).
  rewrite split_on_first.
  2:{ apply Forall_app. split; [apply (linkable_no 0x26); auto|].
      constructor; [done|]. apply (linkable_no 0x26); auto. }
  rewrite split_on_none.
  2:{ apply Forall_app. split; [apply (linkable_no 0x26); auto|].
      constructor; [done|]. apply (linkable_no 0x26); auto. }
  assert (forall n v, n <> [] -> is_empty (n ++ 0x3D :: v) = false) as Hne
    by (intros [|? ?] v Hn; done).
  cbn [List.filter]. rewrite !Hne by done. cbn [negb fmap list_fmap].
  rewrite !cut_at_first by (apply (linkable_no 0x3D); auto).
  rewrite !decode_component_linkable by auto.
  by rewrite (Hsame name1), (Hsame name2).
Qed.

(** X24. A fragment [#room=R&pass=P] with both values non-empty and made
    of Basic Latin characters other than [&], [=] and [%] enters the room
    [R] with the passphrase [P], every plus sign of either read as a space,
    as a guest named after the random suffix, with no privacy filter. *)
Theorem magic_link_parameters (r p suffix : list Z) :
  Forall linkable r -> Forall linkable p -> r <> [] -> p <> [] ->
  checkMagicLink (lit "#room=" ++ r ++ lit "&pass=" ++ p) suffix
  = Some {| roomId := plus_to_space r; passphrase := plus_to_space p;
            userName := [0x8BBF; 0x5BA2; 0x5F] ++ suffix;
            recordingProtection := true; ephemeralSession := true;
            defaultFilter := Transfer.NONE |}.
Proof.
  intros Hr Hp Hr0 Hp0. unfold checkMagicLink, substring_from.
  assert (drop 1 (lit "#room=" ++ r ++ lit "&pass=" ++ p)
          = 0x72 :: (lit "oom" ++ 0x3D :: r ++ 0x26 :: lit "pass" ++ 0x3D :: p))
    as -> by reflexivity.
  assert (Forall plain (lit "room") /\ Forall plain (lit "pass")) as [Hroom Hpass]
    by (split; repeat constructor; unfold plain; cbn; lia).
  rewrite URLSearchParams_ascii; [|done|].
  2:{ change (Forall (fun u => 0 <= u < 128)
                (lit "room" ++ 0x3D :: r ++ 0x26 :: lit "pass" ++ 0x3D :: p)).
      apply Forall_app. split; [apply linkable_ascii; eapply Forall_impl;
                                [exact Hroom|]; by left|].
      constructor; [lia|]. apply Forall_app. split; [by apply linkable_ascii|].
      constructor; [lia|]. apply Forall_app.
      split; [apply linkable_ascii; eapply Forall_impl; [exact Hpass|]; by left|].
      constructor; [lia|]. by apply linkable_ascii. }
  change (0x72 :: (lit "oom" ++ 0x3D :: r ++ 0x26 :: lit "pass" ++ 0x3D :: p))
    with (lit "room" ++ 0x3D :: r ++ 0x26 :: lit "pass" ++ 0x3D :: p).
  rewrite parse_pair by done.
  cbn [get]. rewrite bool_decide_eq_true_2 by done.
  rewrite (bool_decide_eq_false_2 (lit "room" = lit "pass")) by done.
  rewrite bool_decide_eq_true_2 by done.
  assert (forall s, s <> [] -> truthy (Some (plus_to_space s)) = true) as Htruthy
    by (intros [|? ?] Hs; done).
  by rewrite !Htruthy.
Qed.

Lemma magic_link_parameters_witness :
  checkMagicLink (lit "#room=" ++ lit "blue+room" ++ lit "&pass=" ++ lit "pw+1")
    (lit "k3x9q")
  = Some {| roomId := lit "blue room"; passphrase := lit "pw 1";
            userName := [0x8BBF; 0x5BA2; 0x5F] ++ lit "k3x9q";
            recordingProtection := true; ephemeralSession := true;
            defaultFilter := Transfer.NONE |}.
Proof.
  apply (magic_link_parameters (lit "blue+room") (lit "pw+1") (lit "k3x9q")).
  - cbv -[linkable].
    repeat (constructor; [first [by right | left; unfold plain; lia]|]).
    constructor.
  - cbv -[linkable].
    repeat (constructor; [first [by right | left; unfold plain; lia]|]).
    constructor.
  - discriminate.
  - discriminate.
Defined.

(** X25. Whatever the fragment, a session entered from a link has the
    [room] and [pass] parameters of the fragment, neither of them empty,
    both protections on, no privacy filter and the guest name; nothing is
    entered exactly when one of the two is missing or empty. *)
Theorem magic_link_config (hash suffix : list Z) :
  let params := URLSearchParams (substring_from 1 hash) in
  match checkMagicLink hash suffix with
  | Some config =>
      get (lit "room") params = Some (roomId config) /\
      get (lit "pass") params = Some (passphrase config) /\
      roomId config <> [] /\ passphrase config <> [] /\
      userName config = [0x8BBF; 0x5BA2; 0x5F] ++ suffix /\
      recordingProtection config = true /\ ephemeralSession config = true /\
      defaultFilter config = Transfer.NONE
  | None =>
      truthy (get (lit "room") params) = false \/
      truthy (get (lit "pass") params) = false
  end.
Proof.
  cbv zeta. unfold checkMagicLink.
  destruct (get (lit "room") _) as [[|u r]|];
    destruct (get (lit "pass") _) as [[|v p]|]; cbn; auto.
  repeat split; done.
Qed.

End Links.

(** ** Setup.tsx: the form *)

Module SetupForm.
Import Encoding Entry.

(** [disabled] of the submit button. *)
Definition submit_disabled (userName passphrase roomName : list Z) : bool :=
  is_empty userName || is_empty passphrase || is_empty roomName.

(** The character classes of the strength meter. *)
Definition in_A_Z (u : Z) : bool := (0x41 <=? u) && (u <=? 0x5A).
Definition in_a_z (u : Z) : bool := (0x61 <=? u) && (u <=? 0x7A).
Definition in_0_9 (u : Z) : bool := (0x30 <=? u) && (u <=? 0x39).

(** [regexp.test(s)] for a class of one code unit. *)
Definition test (class : Z -> bool) (s : list Z) : bool := existsb class s.

(** [entropy] of [Setup]. *)
Definition entropy (passphrase : list Z) : Z :=
  if is_empty passphrase then 0
  else
    let score := 0 in
    let score := if 8 <? Z.of_nat (length passphrase) then score + 25 else score in
    let score := if test in_A_Z passphrase then score + 25 else score in
    let score := if test in_0_9 passphrase then score + 25 else score in
    let score :=
      if test (fun u => negb (in_A_Z u || in_a_z u || in_0_9 u)) passphrase
      then score + 25 else score in
    score.

Inductive SecurityColor := security_low | security_mid | security_high.

(** [entropyColor] of [Setup]. *)
Definition entropyColor (entropy : Z) : SecurityColor :=
  if entropy <? 40 then security_low
  else if entropy <? 75 then security_mid
  else security_high.

(** The bars of the meter that are lit: [entropy >= i * 25] for [i] from 1
    to 4. *)
Definition lit_bars (entropy : Z) : list Z :=
  List.filter (fun i => i * 25 <=? entropy) [1; 2; 3; 4].

(** The number of criteria a passphrase meets. *)
Definition criteria (passphrase : list Z) : Z :=
  Z.b2z (8 <? Z.of_nat (length passphrase))
  + Z.b2z (test in_A_Z passphrase)
  + Z.b2z (test in_0_9 passphrase)
  + Z.b2z (test (fun u => negb (in_A_Z u || in_a_z u || in_0_9 u)) passphrase).

Lemma entropy_criteria passphrase : entropy passphrase = 25 * criteria passphrase.
Proof.
  unfold entropy, criteria. destruct passphrase as [|u rest]; [done|].
  cbn [is_empty].
  destruct (8 <? _), (test in_A_Z _), (test in_0_9 _), (test _ _); reflexivity.
Qed.

Lemma criteria_range passphrase : 0 <= criteria passphrase <= 4.
Proof.
  unfold criteria.
  destruct (8 <? _), (test in_A_Z _), (test in_0_9 _), (test _ _); cbn; lia.
Qed.

Lemma test_false class s :
  Forall (fun u => class u = false) s -> test class s = false.
Proof.
  unfold test. induction 1 as [|u s Hu _ IH]; [done|].
  cbn [existsb]. by rewrite Hu, IH.
Qed.

(** X27. The strength meter lights one bar for each criterion met (more
    than 8 code units, a capital letter, a digit, a character that is
    neither letter nor digit): it is low with at most one, middle with two
    and high from three on. A passphrase of small letters only is low at
    any length, and one of at most 8 characters is never at the top. *)
Theorem strength_meter (passphrase : list Z) :
  entropy passphrase = 25 * criteria passphrase /\
  Z.of_nat (length (lit_bars (entropy passphrase))) = criteria passphrase /\
  (entropyColor (entropy passphrase) = security_low <-> criteria passphrase <= 1) /\
  (entropyColor (entropy passphrase) = security_mid <-> criteria passphrase = 2) /\
  (entropyColor (entropy passphrase) = security_high <-> 3 <= criteria passphrase) /\
  (Forall (fun u => in_a_z u = true) passphrase ->
   entropyColor (entropy passphrase) = security_low) /\
  ((length passphrase <= 8)%nat -> entropy passphrase <= 75).
Proof.
  pose proof (criteria_range passphrase) as Hr.
  pose proof (entropy_criteria passphrase) as He.
  assert (criteria passphrase = 0 \/ criteria passphrase = 1 \/
          criteria passphrase = 2 \/ criteria passphrase = 3 \/
          criteria passphrase = 4) as Hc by lia.
  split; [done|]. rewrite He.
  split; [|split; [|split; [|split; [|split]]]].
  - destruct Hc as [-> | [-> | [-> | [-> | ->]]]]; reflexivity.
  - destruct Hc as [-> | [-> | [-> | [-> | ->]]]]; cbn; split; (done || lia).
  - destruct Hc as [-> | [-> | [-> | [-> | ->]]]]; cbn; split; (done || lia).
  - destruct Hc as [-> | [-> | [-> | [-> | ->]]]]; cbn; split; (done || lia).
  - intros Hs.
    assert (criteria passphrase <= 1) as Hle.
    { unfold criteria. rewrite !test_false.
      - destruct (8 <? _); cbn; lia.
      - eapply Forall_impl; [exact Hs|]. intros u Hu. cbn in Hu |- *.
        by rewrite Hu, orb_true_r.
      - eapply Forall_impl; [exact Hs|]. intros u Hu. cbn in Hu.
        unfold in_a_z, in_0_9 in *. lia.
      - eapply Forall_impl; [exact Hs|]. intros u Hu. cbn in Hu.
        unfold in_a_z, in_A_Z in *. lia. }
    destruct Hc as [Hc | [Hc | Hc]]; [by rewrite Hc..|lia].
  - intros Hlen. unfold criteria in *.
    destruct (Z.ltb_spec 8 (Z.of_nat (length passphrase))); [lia|].
    destruct (test in_A_Z _), (test in_0_9 _), (test _ _); cbn; lia.
Qed.

(** White space at neither end. *)
Definition starts_clean (s : list Z) : Prop :=
  match s with
  | u :: _ => is_white_space u = false
  | [] => True
  end.

Lemma trimStart_clean s : starts_clean (trimStart s).
Proof.
  induction s as [|u s IH]; [done|]. cbn.
  by destruct (is_white_space u) eqn:Hu.
Qed.

Lemma trimStart_of_clean s : starts_clean s -> trimStart s = s.
Proof. destruct s as [|u s]; [done|]. cbn. by intros ->. Qed.

Lemma trimStart_suffix s :
  exists blank, s = blank ++ trimStart s /\
                Forall (fun u => is_white_space u = true) blank.
Proof.
  induction s as [|u s (blank & Hs & Hblank)]; [by exists []|]. cbn.
  destruct (is_white_space u) eqn:Hu.
  - exists (u :: blank). split; [cbn; by rewrite <- Hs|by constructor].
  - by exists [].
Qed.

Lemma trimEnd_clean s :
  starts_clean s -> starts_clean (reverse (trimStart (reverse s))).
Proof.
  intros Hs.
  destruct (trimStart_suffix (reverse s)) as (blank & Hrev & Hblank).
  apply (f_equal reverse) in Hrev. rewrite reverse_involutive, reverse_app in Hrev.
  destruct (reverse (trimStart (reverse s))) as [|u t]; [done|].
  rewrite Hrev in Hs. exact Hs.
Qed.

Lemma trim_clean s : starts_clean (trim s) /\ starts_clean (reverse (trim s)).
Proof.
  unfold trim. split.
  - apply trimEnd_clean, trimStart_clean.
  - rewrite reverse_involutive. apply trimStart_clean.
Qed.

Lemma trim_of_clean s : starts_clean s -> starts_clean (reverse s) -> trim s = s.
Proof.
  intros Hs Hr. unfold trim.
  by rewrite (trimStart_of_clean s), (trimStart_of_clean (reverse s)),
    reverse_involutive.
Qed.

Lemma trimStart_length s : (length (trimStart s) <= length s)%nat.
Proof.
  induction s as [|u s IH]; [done|]. cbn. destruct (is_white_space u); cbn; lia.
Qed.

Lemma trim_length s : (length (trim s) <= length s)%nat.
Proof.
  unfold trim. rewrite length_reverse.
  etransitivity; [apply trimStart_length|]. rewrite length_reverse.
  apply trimStart_length.
Qed.

Lemma trimStart_blank s :
  Forall (fun u => is_white_space u = true) s -> trimStart s = [].
Proof. induction 1 as [|u s Hu _ IH]; [done|]. cbn. by rewrite Hu. Qed.

Lemma white_space_upper u : is_white_space (upper_basic_latin u) = is_white_space u.
Proof.
  unfold upper_basic_latin.
  destruct ((0x61 <=? u) && (u <=? 0x7A)) eqn:Hu; [|done].
  unfold is_white_space.
  repeat match goal with
         | |- context [?a =? ?b] => destruct (Z.eqb_spec a b); [lia|]
         | |- context [?a <=? ?b] => destruct (Z.leb_spec a b); try lia
         end; reflexivity.
Qed.

Lemma starts_clean_upper s : starts_clean s -> starts_clean (upper_basic_latin <$> s).
Proof. destruct s as [|u s]; [done|]. cbn. by rewrite white_space_upper. Qed.

Section Facts.
Context `{StringCase}.

(** X26. For a room name of Basic Latin characters the identifier the form
    stores has no small letter, no white space at either end and at most
    the length of the name, and entering it in the form again stores the
    same identifier. *)
Theorem setup_room_id (roomName passphrase userName : list Z)
    (defaultFilter : Transfer.PrivacyFilter) :
  basic_latin roomName ->
  let id := roomId (handleSubmit roomName passphrase userName defaultFilter) in
  basic_latin id /\
  Forall (fun u => in_a_z u = false) id /\
  starts_clean id /\ starts_clean (reverse id) /\
  (length id <= length roomName)%nat /\
  forall passphrase' userName' defaultFilter',
    roomId (handleSubmit id passphrase' userName' defaultFilter') = id.
Proof.
  intros Hs id.
  pose proof (trim_basic_latin _ Hs) as Ht.
  assert (id = upper_basic_latin <$> trim roomName) as Hid
    by (unfold id; cbn; by rewrite toUpperCase_basic_latin).
  clearbody id. subst id.
  destruct (trim_clean roomName) as [Hc1 Hc2].
  assert (basic_latin (upper_basic_latin <$> trim roomName)) as Hlatin.
  { unfold basic_latin in *. apply Forall_fmap.
    eapply Forall_impl; [exact Ht|]. intros u Hu. cbn.
    by apply upper_basic_latin_range. }
  assert (starts_clean (upper_basic_latin <$> trim roomName)) as Hu1
    by by apply starts_clean_upper.
  assert (starts_clean (reverse (upper_basic_latin <$> trim roomName))) as Hu2
    by (rewrite <- fmap_reverse; by apply starts_clean_upper).
  split; [done|]. split; [|split; [done|split; [done|split]]].
  - apply Forall_fmap, Forall_true. intros u. cbn.
    unfold upper_basic_latin, in_a_z.
    destruct ((0x61 <=? u) && (u <=? 0x7A)) eqn:Hu; [lia|done].
  - rewrite length_fmap. apply trim_length.
  - intros passphrase' userName' defaultFilter'. cbn.
    rewrite trim_of_clean by done.
    rewrite toUpperCase_basic_latin by done.
    rewrite <- list_fmap_compose. apply list_fmap_ext. intros _ u _. cbn.
    apply upper_basic_latin_idemp.
Qed.

(** X28. A room name of white space only passes the form, whose button is
    enabled by any non-empty name, and the session is entered with the
    empty room identifier. *)
Theorem blank_room_name_accepted (roomName passphrase userName : list Z)
    (defaultFilter : Transfer.PrivacyFilter) :
  roomName <> [] -> Forall (fun u => is_white_space u = true) roomName ->
  passphrase <> [] -> userName <> [] ->
  submit_disabled userName passphrase roomName = false /\
  roomId (handleSubmit roomName passphrase userName defaultFilter) = [].
Proof.
  intros Hn Hblank Hp Hu. split.
  - unfold submit_disabled.
    by destruct userName, passphrase, roomName.
  - cbn. unfold trim. rewrite (trimStart_blank roomName) by done. cbn.
    by rewrite toUpperCase_basic_latin by constructor.
Qed.

End Facts.

Lemma setup_room_id_witness :
  roomId (@handleSubmit basic_latin_case (lit "  Alpha-1 ") (lit "pw") (lit "ann")
            Transfer.MOSAIC) = lit "ALPHA-1" /\
  roomId (@handleSubmit basic_latin_case (lit "ALPHA-1") (lit "other") (lit "bob")
            Transfer.NONE) = lit "ALPHA-1".
Proof.
  assert (basic_latin (lit "  Alpha-1 ")) as Hlatin
    by (unfold basic_latin; cbn; repeat constructor; lia).
  pose proof (@setup_room_id basic_latin_case (lit "  Alpha-1 ") (lit "pw")
                (lit "ann") Transfer.MOSAIC Hlatin) as Hid.
  split; [reflexivity|].
  exact (proj2 (proj2 (proj2 (proj2 (proj2 Hid)))) (lit "other") (lit "bob")
           Transfer.NONE).
Defined.

Lemma blank_room_name_accepted_witness :
  submit_disabled (lit "ann") (lit "pw") (lit "  ") = false /\
  roomId (@handleSubmit basic_latin_case (lit "  ") (lit "pw") (lit "ann")
            Transfer.MOSAIC) = [].
Proof.
  apply (@blank_room_name_accepted basic_latin_case).
  - discriminate.
  - repeat constructor.
  - discriminate.
  - discriminate.
Defined.

End SetupForm.

(** ** App.tsx: the views *)

Module AppView.
Import Entry.

(** [ViewMode] of types.ts. *)
Inductive ViewMode := LANDING | SETUP | ROOM | DESIGN.

(** The state of [App], with the fragment of the location. *)
Record App := {
  view : ViewMode;
  roomConfig : option RoomConfig;
  isTabFocused : bool;
  location_hash : list Z
}.

(** What can happen to [App]: the callbacks it hands to the components it
    renders, and the two events it listens to. A [hashchange] comes with
    the new fragment and the random suffix [checkMagicLink] draws. *)
Inductive Event :=
| onNavigateToSetup
| onViewDesign
| onBack_Setup
| onStart (config : RoomConfig)
| onExit
| onBack_SystemDesign
| hashchange (hash suffix : list Z)
| visibilitychange (visible : bool).

(** A callback can be called when the component that holds it is rendered. *)
Definition rendered (s : App) (e : Event) : bool :=
  match e, view s with
  | onNavigateToSetup, LANDING => true
  | onViewDesign, (LANDING | SETUP) => true
  | onBack_Setup, SETUP => true
  | onStart _, SETUP => true
  | onExit, ROOM => bool_decide (is_Some (roomConfig s))
  | onBack_SystemDesign, DESIGN => true
  | hashchange _ _, _ => true
  | visibilitychange _, _ => true
  | _, _ => false
  end.

Definition setView (v : ViewMode) (s : App) : App :=
  {| view := v; roomConfig := roomConfig s; isTabFocused := isTabFocused s;
     location_hash := location_hash s |}.

Definition setRoomConfig (c : option RoomConfig) (s : App) : App :=
  {| view := view s; roomConfig := c; isTabFocused := isTabFocused s;
     location_hash := location_hash s |}.

Definition setIsTabFocused (b : bool) (s : App) : App :=
  {| view := view s; roomConfig := roomConfig s; isTabFocused := b;
     location_hash := location_hash s |}.

Definition set_location_hash (h : list Z) (s : App) : App :=
  {| view := view s; roomConfig := roomConfig s; isTabFocused := isTabFocused s;
     location_hash := h |}.

(** [checkMagicLink], with what it does to the state. *)
Definition checkMagicLink_effect (suffix : list Z) (s : App) : App :=
  match checkMagicLink (location_hash s) suffix with
  | Some config => setView ROOM (setRoomConfig (Some config) s)
  | None => s
  end.

Definition handleStartSession (config : RoomConfig) (s : App) : App :=
  setView ROOM (setRoomConfig (Some config) s).

Definition handleExit (s : App) : App :=
  set_location_hash [] (setView LANDING (setRoomConfig None s)).

Definition handle (e : Event) (s : App) : App :=
  match e with
  | onNavigateToSetup => setView SETUP s
  | onViewDesign => setView DESIGN s
  | onBack_Setup => setView LANDING s
  | onStart config => handleStartSession config s
  | onExit => handleExit s
  | onBack_SystemDesign =>
      if bool_decide (is_Some (roomConfig s)) then setView ROOM s
      else setView LANDING s
  | hashchange hash suffix => checkMagicLink_effect suffix (set_location_hash hash s)
  | visibilitychange visible => setIsTabFocused visible s
  end.

Definition step (s : App) (e : Event) : App :=
  if rendered s e then handle e s else s.

(** The first render and its effect, on the fragment the page is opened
    with. *)
Definition mount (hash suffix : list Z) : App :=
  checkMagicLink_effect suffix
    {| view := LANDING; roomConfig := None; isTabFocused := true;
       location_hash := hash |}.

(** The overlay that hides the page. *)
Definition isolated (s : App) : bool :=
  negb (isTabFocused s) && match view s with ROOM => true | _ => false end.

Definition in_room (s : App) : Prop :=
  view s = ROOM <-> is_Some (roomConfig s).

Lemma checkMagicLink_effect_in_room suffix s :
  in_room s -> in_room (checkMagicLink_effect suffix s).
Proof.
  unfold checkMagicLink_effect, in_room.
  destruct (checkMagicLink _ _); [|done]. cbn. intros _. split; [by eexists|done].
Qed.

Lemma step_in_room s e : in_room s -> in_room (step s e).
Proof.
  intros Hs. unfold step.
  destruct (rendered s e) eqn:He; [|done].
  destruct e; cbn in He |- *.
  - destruct s as [[] c f h]; try done. unfold in_room in *. cbn in *.
    split; [done|]. intros Hc. by apply Hs in Hc.
  - destruct s as [[] c f h]; try done; unfold in_room in *; cbn in *;
      (split; [done|]; intros Hc; by apply Hs in Hc).
  - destruct s as [[] c f h]; try done. unfold in_room in *. cbn in *.
    split; [done|]. intros Hc. by apply Hs in Hc.
  - unfold in_room. cbn. split; [by eexists|done].
  - unfold in_room. cbn. split; [done|]. by intros [? ?].
  - destruct s as [[] c f h]; try done. unfold in_room in *. cbn in *.
    destruct (bool_decide (is_Some c)) eqn:Hc.
    + apply bool_decide_eq_true in Hc. by apply Hs in Hc.
    + apply bool_decide_eq_false in Hc. cbn. split; [done|]. intros Hc'. done.
  - by apply checkMagicLink_effect_in_room.
  - exact Hs.
Qed.

Lemma mount_in_room hash suffix : in_room (mount hash suffix).
Proof.
  apply checkMagicLink_effect_in_room. unfold in_room. cbn.
  split; [done|]. by intros [? ?].
Qed.

Lemma run_in_room events s : in_room s -> in_room (foldl step s events).
Proof.
  revert s. induction events as [|e events IH]; intros s Hs; [done|].
  cbn. by apply IH, step_in_room.
Qed.

(** X29. From the first render on, whatever happens, the room view is
    shown exactly when a configuration is stored, so that the room is never
    blank; the way back from the design page therefore leads to the landing
    page, never to the room; and after an exit nothing is stored, the
    fragment is empty and reading it again enters nothing. *)
Theorem room_view_has_config (hash suffix : list Z) (events : list Event) :
  let s := foldl step (mount hash suffix) events in
  (view s = ROOM <-> is_Some (roomConfig s)) /\
  (view s = DESIGN -> view (step s onBack_SystemDesign) = LANDING) /\
  (view s = ROOM ->
   forall suffix',
     let s' := step s onExit in
     view s' = LANDING /\ roomConfig s' = None /\ location_hash s' = [] /\
     step s' (hashchange (location_hash s') suffix') = s') /\
  (isolated s = true -> is_Some (roomConfig s)).
Proof.
  intros s. assert (in_room s) as Hs by apply run_in_room, mount_in_room.
  clearbody s. split; [exact Hs|]. split; [|split].
  - intros Hv. unfold step, rendered, handle. rewrite Hv.
    destruct (bool_decide (is_Some (roomConfig s))) eqn:Hc; [|done].
    apply bool_decide_eq_true in Hc. apply Hs in Hc. congruence.
  - intros Hv suffix'. pose proof (proj1 Hs Hv) as Hc.
    assert (step s onExit = handleExit s) as ->
      by (unfold step, rendered; by rewrite Hv, bool_decide_eq_true_2).
    cbn. repeat split; try done.
  - unfold isolated. intros Hi. apply andb_true_iff in Hi as [_ Hi].
    apply Hs. by destruct (view s).
Qed.

End AppView.
